(** * dev-setup: JSON file helpers and MongoDB client accessors

    A shallow embedding of [python-commons/file_io.py] and
    [python-practices/mongo.py], with the properties their specification
    states about them.

    Conventions of the embedding.
    - A Python function that can raise returns [exn + A]; [inl e] is the
      exception [e] propagating to the caller, [inr a] a normal return.
    - Only the class of an exception is kept, not its message.  Every modelled
      exception is an instance of Python's [Exception]; [KeyboardInterrupt]
      and the like, which [except Exception] lets through, are not modelled.
    - Python text is modelled over the code points 0..255 ([string]); floats
      are not modelled.  Where the code would produce a float or a character
      above 255, the embedding answers [Unmodelled], which is not a Python
      exception and which no modelled handler catches or produces.
    - The interpreter's recursion limit enters as the room a call has left:
      the number of levels [json.dump] or [json.loads] can enter before
      [RecursionError] is raised.  It depends on where the call is made, and
      the writer's and the reader's room are separate parameters. *)

From Stdlib Require Import ZArith Ascii String List Lia Bool Sorted.
From stdpp Require Import base option list strings gmap.

Local Open Scope string_scope.

(** ** Exceptions *)

Inductive exn : Type :=
| FileNotFoundError
| FileExistsError
| NotADirectoryError
| IsADirectoryError
| PermissionError
| OSError (errno : string)
| TypeError
| ValueError
| RecursionError
| UnicodeEncodeError
| UnicodeDecodeError
| JSONDecodeError
| ImportError
| InvalidURI
| UserError (name : string)
| Unmodelled.


#[global] Instance exn_eq_dec : EqDecision exn.
Proof. solve_decision. Defined.

(** ** MongoDB client accessors ([python-practices/mongo.py]) *)

Module Mongo.

(** Keyword arguments built by [_client_kwargs_for_uri]. *)
Record kwargs : Type := {
  serverSelectionTimeoutMS : Z;
  tlsCAFile : option string
}.

(** A driver client object: its identity, and what it was constructed with. *)
Record client : Type := {
  c_id : nat;
  c_uri : string;
  c_kwargs : kwargs
}.

(** What is installed on the host: the optional [dotenv] and [certifi]
    packages and the two drivers.  [dotenv_file] holds the entries
    [load_dotenv] reads when the package is importable. *)
Record host : Type := {
  dotenv_file : option (list (string * string));
  certifi_where : option string;
  motor_installed : bool;
  pymongo_installed : bool
}.

(** The module's globals together with the process state they depend on. *)
Record state : Type := {
  _async_client : option client;
  _sync_client : option client;
  environ : gmap string string;
  next_id : nat;
  closed : list nat;
  log : list string
}.

Definition set_async (v : option client) (s : state) : state :=
  {| _async_client := v; _sync_client := _sync_client s;
     environ := environ s; next_id := next_id s;
     closed := closed s; log := log s |}.

Definition set_sync (v : option client) (s : state) : state :=
  {| _async_client := _async_client s; _sync_client := v;
     environ := environ s; next_id := next_id s;
     closed := closed s; log := log s |}.

Definition set_environ (e : gmap string string) (s : state) : state :=
  {| _async_client := _async_client s; _sync_client := _sync_client s;
     environ := e; next_id := next_id s;
     closed := closed s; log := log s |}.

Definition logger (line : string) (s : state) : state :=
  {| _async_client := _async_client s; _sync_client := _sync_client s;
     environ := environ s; next_id := next_id s;
     closed := closed s; log := log s ++ [line] |}.

(** [client.close()]: the driver records the client as closed. *)
Definition client_close (c : client) (s : state) : state :=
  {| _async_client := _async_client s; _sync_client := _sync_client s;
     environ := environ s; next_id := next_id s;
     closed := c_id c :: closed s; log := log s |}.

(** Constructing a driver client allocates a fresh object. *)
Definition alloc_client (uri : string) (kw : kwargs) (s : state)
  : client * state :=
  ({| c_id := next_id s; c_uri := uri; c_kwargs := kw |},
   {| _async_client := _async_client s; _sync_client := _sync_client s;
      environ := environ s; next_id := S (next_id s);
      closed := closed s; log := log s |}).

(** State and exception monad of the module's functions. *)
Definition M (A : Type) : Type := state -> (exn + A) * state.

Definition ret {A} (a : A) : M A := fun s => (inr a, s).
Definition raise {A} (e : exn) : M A := fun s => (inl e, s).
Definition bind {A B} (m : M A) (k : A -> M B) : M B :=
  fun s => match m s with
           | (inl e, s') => (inl e, s')
           | (inr a, s') => k a s'
           end.
Definition modify (f : state -> state) : M unit := fun s => (inr tt, f s).
Definition gets {A} (f : state -> A) : M A := fun s => (inr (f s), s).

Notation "x <- m ;; k" := (bind m (fun x => k))
  (at level 100, m at next level, right associativity).
Notation "m ;;; k" := (bind m (fun _ => k))
  (at level 100, right associativity).

(** [os.getenv(name, dflt)]. *)
Definition getenv (name dflt : string) : M string :=
  gets (fun s => default dflt (environ s !! name)).

(** [load_dotenv(override=False)]: variables already set are kept. *)
Definition load_dotenv (entries : list (string * string)) : M unit :=
  modify (fun s =>
    set_environ
      (fold_left (fun e kv => match e !! kv.1 with
                              | Some _ => e
                              | None => <[kv.1 := kv.2]> e
                              end) entries (environ s)) s).

Definition get_mongo_uri (h : host) : M string :=
  (match dotenv_file h with
   | Some entries => load_dotenv entries
   | None => ret tt
   end) ;;;
  uri <- getenv "MONGO_URI" "mongodb://localhost:27017" ;;
  ret uri.

Definition is_digit (a : ascii) : bool :=
  (48 <=? nat_of_ascii a)%nat && (nat_of_ascii a <=? 57)%nat.

Fixpoint digits_value (acc : Z) (s : string) : option Z :=
  match s with
  | EmptyString => Some acc
  | String a r =>
      if is_digit a
      then digits_value (10 * acc + Z.of_nat (nat_of_ascii a - 48)) r
      else None
  end.

(** [int(text)] on a decimal literal with an optional sign (surrounding
    blanks and digit-group underscores are not modelled). *)
Definition int_of_str (s : string) : exn + Z :=
  let digits d :=
    match d with
    | EmptyString => inl ValueError
    | _ => match digits_value 0 d with
           | Some z => inr z
           | None => inl ValueError
           end
    end in
  match s with
  | String "-" r => match digits r with inr z => inr (- z)%Z | inl e => inl e end
  | String "+" r => digits r
  | _ => digits s
  end.

Definition startswith (s pre : string) : bool :=
  String.prefix pre s.

Definition _client_kwargs_for_uri (h : host) (uri : string) : M kwargs :=
  t <- getenv "MONGO_SERVER_SELECTION_TIMEOUT_MS" "5000" ;;
  match int_of_str t with
  | inl e => raise e
  | inr ms =>
      let is_srv := startswith uri "mongodb+srv://" in
      f <- getenv "MONGO_FORCE_TLS" "0" ;;
      let force_tls :=
        bool_decide (f = "1") || bool_decide (f = "true")
        || bool_decide (f = "True") in
      if is_srv || force_tls then
        match certifi_where h with
        | Some ca =>
            ret {| serverSelectionTimeoutMS := ms; tlsCAFile := Some ca |}
        | None =>
            modify (logger "TLS CA bundle not provided (install 'certifi' to avoid SSL issues with Atlas).") ;;;
            ret {| serverSelectionTimeoutMS := ms; tlsCAFile := None |}
        end
      else ret {| serverSelectionTimeoutMS := ms; tlsCAFile := None |}
  end.

(** The driver's constructor: it rejects a URI of another scheme, and
    otherwise returns a new client without connecting. *)
Definition driver_client (uri : string) (kw : kwargs) : M client :=
  if startswith uri "mongodb://" || startswith uri "mongodb+srv://"
  then fun s => let (c, s') := alloc_client uri kw s in (inr c, s')
  else raise InvalidURI.

(** [uri or get_mongo_uri()]: [None] and the empty string are falsy. *)
Definition uri_or_default (h : host) (uri : option string) : M string :=
  match uri with
  | Some (String a r) => ret (String a r)
  | _ => get_mongo_uri h
  end.

Definition _new_async_client (h : host) (uri : option string) : M client :=
  if motor_installed h then
    mongo_uri <- uri_or_default h uri ;;
    kw <- _client_kwargs_for_uri h mongo_uri ;;
    modify (logger ("Connecting (async) to MongoDB at " ++ mongo_uri)) ;;;
    driver_client mongo_uri kw
  else raise ImportError.

Definition get_async_client (h : host) (uri : option string) : M client :=
  cur <- gets _async_client ;;
  match cur with
  | None =>
      c <- _new_async_client h uri ;;
      modify (set_async (Some c)) ;;;
      ret c
  | Some c => ret c
  end.

(** [if _async_client:] a driver client object is truthy. *)
Definition close_async_client : M unit :=
  cur <- gets _async_client ;;
  match cur with
  | Some c =>
      modify (client_close c) ;;;
      modify (set_async None) ;;;
      modify (logger "Async MongoDB client closed.")
  | None => ret tt
  end.

Definition _new_sync_client (h : host) (uri : option string) : M client :=
  if pymongo_installed h then
    mongo_uri <- uri_or_default h uri ;;
    kw <- _client_kwargs_for_uri h mongo_uri ;;
    modify (logger ("Connecting (sync) to MongoDB at " ++ mongo_uri)) ;;;
    driver_client mongo_uri kw
  else raise ImportError.

Definition get_sync_client (h : host) (uri : option string) : M client :=
  cur <- gets _sync_client ;;
  match cur with
  | None =>
      c <- _new_sync_client h uri ;;
      modify (set_sync (Some c)) ;;;
      ret c
  | Some c => ret c
  end.

Definition close_sync_client : M unit :=
  cur <- gets _sync_client ;;
  match cur with
  | Some c =>
      modify (client_close c) ;;;
      modify (set_sync None) ;;;
      modify (logger "Sync MongoDB client closed.")
  | None => ret tt
  end.

(** A host with both drivers and no optional package, and a fresh process. *)
Definition plain_host : host :=
  {| dotenv_file := None; certifi_where := None;
     motor_installed := true; pymongo_installed := true |}.

Definition fresh : state :=
  {| _async_client := None; _sync_client := None; environ := ∅;
     next_id := 0; closed := []; log := [] |}.

End Mongo.

(** ** Python values *)

Module Py.

(** Characters that cannot be written inside a literal. *)
Definition dquote : ascii := ascii_of_nat 34.
Definition nl : ascii := ascii_of_nat 10.
Definition cr : ascii := ascii_of_nat 13.
Definition tab : ascii := ascii_of_nat 9.
Definition bs : ascii := ascii_of_nat 8.
Definition ff : ascii := ascii_of_nat 12.

Definition str1 (a : ascii) : string := String a EmptyString.

(** An absolute, normalised path: its components below the root. *)
Definition path : Type := list string.

Definition parent (p : path) : path := List.removelast p.
Definition name (p : path) : string := List.last p EmptyString.

Fixpoint join (sep : string) (l : list string) : string :=
  match l with
  | [] => EmptyString
  | [x] => x
  | x :: r => x ++ sep ++ join sep r
  end.

(** [str(path)]. *)
Definition path_str (p : path) : string := "/" ++ join "/" p.

(** Hashable scalars: the elements of sets and the keys of dicts. *)
Inductive atom : Type :=
| ANone
| ABool (b : bool)
| AInt (z : Z)
| AStr (s : string).

(** What [getattr(value, name, None)] finds, and what calling it does. *)
Inductive attr (A : Type) : Type :=
| Absent
| NotCallable
| Returns (a : A)
| Raises (e : exn).
Arguments Absent {A}.
Arguments NotCallable {A}.
Arguments Returns {A} a.
Arguments Raises {A} e.

(** Python values.  A set lists its elements in iteration order.  [PObj] is
    an instance of a user or third-party class: the four attributes the
    fallback encoder probes, and the result of its [__str__] (which is also
    its [__repr__]). *)
#[local] Unset Elimination Schemes.
Inductive pyval : Type :=
| PNone
| PBool (b : bool)
| PInt (z : Z)
| PStr (s : string)
| PList (l : list pyval)
| PTuple (l : list pyval)
| PDict (kvs : list (atom * pyval))
| PPath (p : path)
| PSet (xs : list atom)
| PFrozenSet (xs : list atom)
| PObj (to_string to_wkt to_epsg item : attr pyval) (str_ : exn + string).
#[local] Set Elimination Schemes.

#[global] Instance atom_eq_dec : EqDecision atom.
Proof. solve_decision. Defined.

Definition of_atom (a : atom) : pyval :=
  match a with
  | ANone => PNone
  | ABool b => PBool b
  | AInt z => PInt z
  | AStr s => PStr s
  end.

(** *** Decimal numerals *)

Definition digit_char (d : Z) : ascii := ascii_of_nat (48 + Z.to_nat d).

Fixpoint dec_digits (fuel : nat) (n : Z) (acc : string) : string :=
  match fuel with
  | O => acc
  | S f =>
      let acc' := String (digit_char (n mod 10)) acc in
      if (n <? 10)%Z then acc' else dec_digits f (n / 10) acc'
  end.

(** [str(n)] for an int. *)
Definition str_of_int (n : Z) : string :=
  let digits m := dec_digits (S (Z.to_nat (Z.log2 m))) m EmptyString in
  if (n <? 0)%Z then "-" ++ digits (- n)%Z else digits n.

(** *** [str] and [repr] *)

Definition code (a : ascii) : nat := nat_of_ascii a.

Definition printable (a : ascii) : bool :=
  ((32 <=? code a) && (code a <? 127))%nat
  || ((161 <=? code a) && negb (code a =? 173))%nat.

Definition hex_digit (n : nat) : ascii :=
  if (n <? 10)%nat then ascii_of_nat (48 + n) else ascii_of_nat (87 + n).

Definition hex2 (a : ascii) : string :=
  String (hex_digit (code a / 16)) (str1 (hex_digit (code a mod 16))).

Fixpoint contains (a : ascii) (s : string) : bool :=
  match s with
  | EmptyString => false
  | String b r => bool_decide (a = b) || contains a r
  end.

Definition repr_char (quote a : ascii) : string :=
  if bool_decide (a = quote) || bool_decide (a = "\"%char) then String "\" (str1 a)
  else if bool_decide (a = nl) then "\n"
  else if bool_decide (a = cr) then "\r"
  else if bool_decide (a = tab) then "\t"
  else if printable a then str1 a
  else "\x" ++ hex2 a.

Fixpoint repr_chars (quote : ascii) (s : string) : string :=
  match s with
  | EmptyString => EmptyString
  | String a r => repr_char quote a ++ repr_chars quote r
  end.

(** [repr(s)] for a str: single quotes unless only they occur in [s]. *)
Definition repr_str (s : string) : string :=
  let quote :=
    if contains "'" s && negb (contains dquote s) then dquote else "'"%char in
  String quote (repr_chars quote s ++ str1 quote).

Definition repr_atom (a : atom) : string :=
  match a with
  | ANone => "None"
  | ABool true => "True"
  | ABool false => "False"
  | AInt z => str_of_int z
  | AStr s => repr_str s
  end.

(** Elements rendered and joined by [", "], stopping at the first failure. *)
Fixpoint repr_join {A} (r : A -> exn + string) (l : list A) : exn + string :=
  match l with
  | [] => inr EmptyString
  | x :: rest =>
      match r x with
      | inl e => inl e
      | inr sx =>
          match rest with
          | [] => inr sx
          | _ => match repr_join r rest with
                 | inl e => inl e
                 | inr sr => inr (sx ++ ", " ++ sr)
                 end
          end
      end
  end.

Definition repr_set (xs : list atom) : string :=
  match repr_join (fun a => inr (repr_atom a)) xs with
  | inr s => "{" ++ s ++ "}"
  | inl _ => EmptyString
  end.

Fixpoint py_repr (v : pyval) : exn + string :=
  match v with
  | PNone => inr "None"
  | PBool true => inr "True"
  | PBool false => inr "False"
  | PInt z => inr (str_of_int z)
  | PStr s => inr (repr_str s)
  | PList l =>
      match repr_join py_repr l with
      | inr s => inr ("[" ++ s ++ "]")
      | inl e => inl e
      end
  | PTuple l =>
      match repr_join py_repr l with
      | inr s =>
          match l with
          | [_] => inr ("(" ++ s ++ ",)")
          | _ => inr ("(" ++ s ++ ")")
          end
      | inl e => inl e
      end
  | PDict kvs =>
      match repr_join (fun kv : atom * pyval =>
                         match py_repr kv.2 with
                         | inr s => inr (repr_atom kv.1 ++ ": " ++ s)
                         | inl e => inl e
                         end) kvs with
      | inr s => inr ("{" ++ s ++ "}")
      | inl e => inl e
      end
  | PPath p => inr ("PosixPath(" ++ repr_str (path_str p) ++ ")")
  | PSet [] => inr "set()"
  | PSet xs => inr (repr_set xs)
  | PFrozenSet [] => inr "frozenset()"
  | PFrozenSet xs => inr ("frozenset(" ++ repr_set xs ++ ")")
  | PObj _ _ _ _ s => s
  end.

(** [str(value)]: the text itself for a str, the path for a [Path], and the
    [repr] otherwise. *)
Definition py_str (v : pyval) : exn + string :=
  match v with
  | PStr s => inr s
  | PPath p => inr (path_str p)
  | _ => py_repr v
  end.

End Py.

(** ** The [json] library, as far as [file_io.py] uses it *)

Module Json.
Import Py.

(** *** Ordering of set elements: [x < y] *)

Definition atom_lt (x y : atom) : exn + bool :=
  match x, y with
  | AInt a, AInt b => inr (a <? b)%Z
  | AInt a, ABool b => inr (a <? Z.b2z b)%Z
  | ABool a, AInt b => inr (Z.b2z a <? b)%Z
  | ABool a, ABool b => inr (Z.b2z a <? Z.b2z b)%Z
  | AStr a, AStr b => inr (String.ltb a b)
  | _, _ => inl TypeError
  end.

Fixpoint insert_sorted (x : atom) (l : list atom) : exn + list atom :=
  match l with
  | [] => inr [x]
  | y :: r =>
      match atom_lt x y with
      | inl e => inl e
      | inr true => inr (x :: y :: r)
      | inr false =>
          match insert_sorted x r with
          | inl e => inl e
          | inr r' => inr (y :: r')
          end
      end
  end.

(** [sorted(xs)]: a stable sort by [<], raising when two elements that have
    to be compared are not orderable. *)
Definition sorted (xs : list atom) : exn + list atom :=
  fold_left (fun acc x => match acc with
                          | inl e => inl e
                          | inr l => insert_sorted x l
                          end) xs (inr []).

(** *** String literals *)

Fixpoint spaces (n : nat) : string :=
  match n with
  | O => EmptyString
  | S m => String " " (spaces m)
  end.

Definition hex4 (a : ascii) : string := "00" ++ hex2 a.

(** One character of a JSON string literal, as [encode_basestring] and
    [encode_basestring_ascii] write it. *)
Definition escape_char (ensure_ascii : bool) (a : ascii) : string :=
  if bool_decide (a = dquote) then String "\" (str1 dquote)
  else if bool_decide (a = "\"%char) then "\\"
  else if bool_decide (a = nl) then "\n"
  else if bool_decide (a = cr) then "\r"
  else if bool_decide (a = tab) then "\t"
  else if bool_decide (a = bs) then "\b"
  else if bool_decide (a = ff) then "\f"
  else if (code a <? 32)%nat then "\u" ++ hex4 a
  else if ensure_ascii && (126 <? code a)%nat then "\u" ++ hex4 a
  else str1 a.

Fixpoint escape_chars (ensure_ascii : bool) (s : string) : string :=
  match s with
  | EmptyString => EmptyString
  | String a r => escape_char ensure_ascii a ++ escape_chars ensure_ascii r
  end.

Definition encode_str (ensure_ascii : bool) (s : string) : string :=
  String dquote (escape_chars ensure_ascii s ++ str1 dquote).

(** *** The encoder *)

(** What an encoder has emitted, and the exception that stopped it. *)
Definition out : Type := string * option exn.

Definition emit (s : string) : out := (s, None).
Definition fail (e : exn) : out := (EmptyString, Some e).
Definition seq (a b : out) : out :=
  match a with
  | (s, Some e) => (s, Some e)
  | (s, None) => (s ++ b.1, b.2)
  end.

(** The encoder's output as [json.dump] hands it over: the chunks it has
    yielded, in order, and the exception that ended the iteration. *)
Definition chunks : Type := list string * option exn.

Definition yield (s : string) : chunks := ([s], None).
Definition stop (e : exn) : chunks := ([], Some e).
Definition then_ (a b : chunks) : chunks :=
  match a with
  | (cs, Some e) => (cs, Some e)
  | (cs, None) => ((cs ++ b.1)%list, b.2)
  end.

(** The text a sequence of chunks adds up to. *)
Definition join (cs : list string) : string :=
  fold_right String.append EmptyString cs.

(** A dict key as the encoder coerces it. *)
Definition key_str (k : atom) : string :=
  match k with
  | AStr s => s
  | ABool true => "true"
  | ABool false => "false"
  | ANone => "null"
  | AInt z => str_of_int z
  end.

Section Encoder.
Variable default : pyval -> exn + pyval.
Variable ensure_ascii : bool.
Variable indent : option Z.

Definition item_separator : string :=
  match indent with None => ", " | Some _ => "," end.
Definition key_separator : string := ": ".

Definition newline_indent (level : nat) : string :=
  match indent with
  | None => EmptyString
  | Some n => String nl (spaces (Z.to_nat n * level))
  end.

Fixpoint encode_items {A} (enc : A -> out) (first : string) (sep : string)
    (l : list A) : out :=
  match l with
  | [] => emit EmptyString
  | v :: r => seq (emit first) (seq (enc v) (encode_items enc sep sep r))
  end.

(** The text the encoder produces and the exception that ends it: what
    the chunks of [iterencode_chunks] below add up to. *)
Fixpoint iterencode (fuel : nat) (o : pyval) (level : nat) : out :=
  match fuel with
  | O => fail RecursionError
  | S f =>
      match o with
      | PStr s => emit (encode_str ensure_ascii s)
      | PNone => emit "null"
      | PBool true => emit "true"
      | PBool false => emit "false"
      | PInt z => emit (str_of_int z)
      | PList [] | PTuple [] => emit "[]"
      | PList l | PTuple l =>
          seq (emit "[")
            (seq (encode_items (fun v => iterencode f v (S level))
                    (newline_indent (S level))
                    (item_separator ++ newline_indent (S level)) l)
               (emit (newline_indent level ++ "]")))
      | PDict [] => emit "{}"
      | PDict kvs =>
          seq (emit "{")
            (seq (encode_items
                    (fun kv : atom * pyval =>
                       seq (emit (encode_str ensure_ascii (key_str kv.1)
                                  ++ key_separator))
                           (iterencode f kv.2 (S level)))
                    (newline_indent (S level))
                    (item_separator ++ newline_indent (S level)) kvs)
               (emit (newline_indent level ++ "}")))
      | _ =>
          match default o with
          | inl e => fail e
          | inr o' => iterencode f o' level
          end
      end
  end.

(** The chunks [json.dump] hands to [fp.write], concatenated.  [room] is
    the number of levels the encoder can enter before the interpreter
    raises [RecursionError]: the recursion limit less the frames in use
    where the call is made.  A scalar takes one level. *)
Definition json_dump (room : nat) (obj : pyval) : out :=
  iterencode room obj 0.

(** The text of a value the generators write without a call of their own:
    [str], [None], [True], [False] and [int]. *)
Definition scalar_text (o : pyval) : option string :=
  match o with
  | PStr s => Some (encode_str ensure_ascii s)
  | PNone => Some "null"
  | PBool true => Some "true"
  | PBool false => Some "false"
  | PInt z => Some (str_of_int z)
  | _ => None
  end.

(** An item of a list: a scalar is yielded together with [buf] (the
    opening bracket or the separator), anything else after it. *)
Definition list_item (buf : string) (o : pyval) (r : chunks) : chunks :=
  match scalar_text o, r with
  | Some _, ([t], None) => ([buf ++ t], None)
  | _, _ => then_ (yield buf) r
  end.

Fixpoint list_chunks (enc : pyval -> chunks) (buf sep : string)
    (l : list pyval) : chunks :=
  match l with
  | [] => ([], None)
  | v :: r => then_ (list_item buf v (enc v)) (list_chunks enc sep sep r)
  end.

(** The items of a dict: the separator (not before the first item), the
    key, the key separator and the value, each yielded on its own. *)
Fixpoint dict_chunks (enc : pyval -> chunks) (first : bool) (sep : string)
    (kvs : list (atom * pyval)) : chunks :=
  match kvs with
  | [] => ([], None)
  | kv :: r =>
      then_ (if first then ([], None) else yield sep)
        (then_ (yield (encode_str ensure_ascii (key_str kv.1)))
           (then_ (yield key_separator)
              (then_ (enc kv.2) (dict_chunks enc false sep r))))
  end.

(** What is yielded before a closing bracket. *)
Definition closing (level : nat) (bracket : string) : chunks :=
  match indent with
  | None => yield bracket
  | Some _ => then_ (yield (newline_indent level)) (yield bracket)
  end.

(** [_iterencode], [_iterencode_list] and [_iterencode_dict] of
    [json.encoder], chunk by chunk. *)
Fixpoint iterencode_chunks (fuel : nat) (o : pyval) (level : nat) : chunks :=
  match fuel with
  | O => stop RecursionError
  | S f =>
      match o with
      | PStr s => yield (encode_str ensure_ascii s)
      | PNone => yield "null"
      | PBool true => yield "true"
      | PBool false => yield "false"
      | PInt z => yield (str_of_int z)
      | PList [] | PTuple [] => yield "[]"
      | PList l | PTuple l =>
          then_ (list_chunks (fun v => iterencode_chunks f v (S level))
                   ("[" ++ newline_indent (S level))
                   (item_separator ++ newline_indent (S level)) l)
            (closing level "]")
      | PDict [] => yield "{}"
      | PDict kvs =>
          then_ (yield "{")
            (then_ (match indent with
                    | None => ([], None)
                    | Some _ => yield (newline_indent (S level))
                    end)
               (then_ (dict_chunks (fun v => iterencode_chunks f v (S level))
                         true (item_separator ++ newline_indent (S level))
                         kvs)
                  (closing level "}")))
      | _ =>
          match default o with
          | inl e => stop e
          | inr o' => iterencode_chunks f o' level
          end
      end
  end.

(** [json.dump]'s [for chunk in iterable]: the chunks in the order in which
    [fp.write] receives them. *)
Definition json_dump_chunks (room : nat) (obj : pyval) : chunks :=
  iterencode_chunks room obj 0.
End Encoder.

(** *** The decoder *)

Definition is_ws (a : ascii) : bool :=
  bool_decide (a = " "%char) || bool_decide (a = tab)
  || bool_decide (a = nl) || bool_decide (a = cr).

Fixpoint skip_ws (s : string) : string :=
  match s with
  | String a r => if is_ws a then skip_ws r else s
  | EmptyString => s
  end.

(** [s[n:]]. *)
Fixpoint sdrop (n : nat) (s : string) : string :=
  match n, s with
  | S m, String _ r => sdrop m r
  | _, _ => s
  end.

Definition hex_val (a : ascii) : option nat :=
  let n := code a in
  if ((48 <=? n) && (n <=? 57))%nat then Some (n - 48)%nat
  else if ((97 <=? n) && (n <=? 102))%nat then Some (n - 87)%nat
  else if ((65 <=? n) && (n <=? 70))%nat then Some (n - 55)%nat
  else None.

(** [_decode_uXXXX]: the code point four hex digits denote. *)
Definition decode_uXXXX (h1 h2 h3 h4 : ascii) : exn + ascii :=
  match hex_val h1, hex_val h2, hex_val h3, hex_val h4 with
  | Some a, Some b, Some c, Some d =>
      if ((a =? 0) && (b =? 0))%nat then inr (ascii_of_nat (16 * c + d))
      else inl Unmodelled
  | _, _, _, _ => inl JSONDecodeError
  end.

Definition unescape (e : ascii) : option ascii :=
  if bool_decide (e = dquote) then Some dquote
  else if bool_decide (e = "\"%char) then Some "\"%char
  else if bool_decide (e = "/"%char) then Some "/"%char
  else if bool_decide (e = "b"%char) then Some bs
  else if bool_decide (e = "f"%char) then Some ff
  else if bool_decide (e = "n"%char) then Some nl
  else if bool_decide (e = "r"%char) then Some cr
  else if bool_decide (e = "t"%char) then Some tab
  else None.

(** [scanstring] in strict mode, started after the opening quote: the text
    of the literal and the input after the closing quote. *)
Fixpoint scanstring (s : string) : exn + (string * string) :=
  let cons a res :=
    match res with
    | inl e => inl e
    | inr (t, rest) => inr (String a t, rest)
    end in
  match s with
  | EmptyString => inl JSONDecodeError
  | String a r =>
      if bool_decide (a = dquote) then inr (EmptyString, r)
      else if bool_decide (a = "\"%char) then
        match r with
        | EmptyString => inl JSONDecodeError
        | String e r1 =>
            if bool_decide (e = "u"%char) then
              match r1 with
              | String h1 (String h2 (String h3 (String h4 r2))) =>
                  match decode_uXXXX h1 h2 h3 h4 with
                  | inl err => inl err
                  | inr c => cons c (scanstring r2)
                  end
              | _ => inl JSONDecodeError
              end
            else
              match unescape e with
              | Some c => cons c (scanstring r1)
              | None => inl JSONDecodeError
              end
        end
      else if (code a <? 32)%nat then inl JSONDecodeError
      else cons a (scanstring r)
  end.

Definition is_digit (a : ascii) : bool :=
  ((48 <=? code a) && (code a <=? 57))%nat.

(** The digits at the head of the input, as a number continuing [acc]. *)
Fixpoint scan_digits (acc : Z) (s : string) : Z * string :=
  match s with
  | String a r =>
      if is_digit a
      then scan_digits (10 * acc + Z.of_nat (code a - 48)) r
      else (acc, s)
  | EmptyString => (acc, s)
  end.

Definition starts_digit (s : string) : bool :=
  match s with
  | String a _ => is_digit a
  | EmptyString => false
  end.

(** Whether a fraction or an exponent follows the integer part, which makes
    the literal a float. *)
Definition float_tail (s : string) : bool :=
  match s with
  | String a r =>
      if bool_decide (a = "."%char) then starts_digit r
      else if bool_decide (a = "e"%char) || bool_decide (a = "E"%char) then
        match r with
        | String b r' =>
            if bool_decide (b = "+"%char) || bool_decide (b = "-"%char)
            then starts_digit r' else is_digit b
        | EmptyString => false
        end
      else false
  | EmptyString => false
  end.

(** [NUMBER_RE]: the integer part is [0] or starts with a non-zero digit. *)
Definition match_integer (s : string) : option (Z * string) :=
  match s with
  | String a r =>
      if bool_decide (a = "0"%char) then Some (0%Z, r)
      else if is_digit a then Some (scan_digits 0 s)
      else None
  | EmptyString => None
  end.

Definition scan_number (s : string) : exn + (pyval * string) :=
  let finish (neg : bool) (m : option (Z * string)) :=
    match m with
    | Some (n, rest) =>
        if float_tail rest then inl Unmodelled
        else inr (PInt (if neg then - n else n)%Z, rest)
    | None =>
        if neg && String.prefix "Infinity" (sdrop 1 s)
        then inl Unmodelled else inl JSONDecodeError
    end in
  match s with
  | String a r =>
      if bool_decide (a = "-"%char) then finish true (match_integer r)
      else if String.prefix "NaN" s || String.prefix "Infinity" s
      then inl Unmodelled
      else finish false (match_integer s)
  | EmptyString => inl JSONDecodeError
  end.

(** [dict(pairs)] for the pairs of an object: a repeated key keeps its first
    position and takes the last value. *)
Fixpoint dict_set (k : string) (v : pyval) (d : list (atom * pyval))
  : list (atom * pyval) :=
  match d with
  | [] => [(AStr k, v)]
  | (k', v') :: r =>
      if bool_decide (k' = AStr k) then (AStr k, v) :: r
      else (k', v') :: dict_set k v r
  end.

Definition dict_of_pairs (pairs : list (string * pyval))
  : list (atom * pyval) :=
  fold_left (fun d kv => dict_set kv.1 kv.2 d) pairs [].

Section Decoder.
Variable scan : string -> exn + (pyval * string).

(** The loop of [JSONArray], entered at the start of an element. *)
Fixpoint array_loop (fuel : nat) (s : string) : exn + (list pyval * string) :=
  match fuel with
  | O => inl JSONDecodeError
  | S n =>
      match scan s with
      | inl e => inl e
      | inr (v, r) =>
          match skip_ws r with
          | String a r' =>
              if bool_decide (a = "]"%char) then inr ([v], r')
              else if bool_decide (a = ","%char) then
                match array_loop n (skip_ws r') with
                | inl e => inl e
                | inr (vs, r'') => inr (v :: vs, r'')
                end
              else inl JSONDecodeError
          | EmptyString => inl JSONDecodeError
          end
      end
  end.

Definition parse_array (s : string) : exn + (pyval * string) :=
  match skip_ws s with
  | String a r =>
      if bool_decide (a = "]"%char) then inr (PList [], r)
      else
        match array_loop (String.length s) (skip_ws s) with
        | inl e => inl e
        | inr (vs, r') => inr (PList vs, r')
        end
  | EmptyString => inl JSONDecodeError
  end.

(** The loop of [JSONObject], entered after the quote that opens a key. *)
Fixpoint object_loop (fuel : nat) (s : string)
  : exn + (list (string * pyval) * string) :=
  match fuel with
  | O => inl JSONDecodeError
  | S n =>
      match scanstring s with
      | inl e => inl e
      | inr (key, r) =>
          match skip_ws r with
          | String c r1 =>
              if bool_decide (c = ":"%char) then
                match scan (skip_ws r1) with
                | inl e => inl e
                | inr (v, r2) =>
                    match skip_ws r2 with
                    | String a r3 =>
                        if bool_decide (a = "}"%char)
                        then inr ([(key, v)], r3)
                        else if bool_decide (a = ","%char) then
                          match skip_ws r3 with
                          | String q r4 =>
                              if bool_decide (q = dquote) then
                                match object_loop n r4 with
                                | inl e => inl e
                                | inr (kvs, r5) =>
                                    inr ((key, v) :: kvs, r5)
                                end
                              else inl JSONDecodeError
                          | EmptyString => inl JSONDecodeError
                          end
                        else inl JSONDecodeError
                    | EmptyString => inl JSONDecodeError
                    end
                end
              else inl JSONDecodeError
          | EmptyString => inl JSONDecodeError
          end
      end
  end.

Definition parse_object (s : string) : exn + (pyval * string) :=
  match skip_ws s with
  | String a r =>
      if bool_decide (a = "}"%char) then inr (PDict [], r)
      else if bool_decide (a = dquote) then
        match object_loop (String.length s) r with
        | inl e => inl e
        | inr (kvs, r') => inr (PDict (dict_of_pairs kvs), r')
        end
      else inl JSONDecodeError
  | EmptyString => inl JSONDecodeError
  end.
End Decoder.

(** [scan_once]: the value that starts at the head of the input. *)
Fixpoint scan_once (depth : nat) (s : string) : exn + (pyval * string) :=
  match depth with
  | O => inl RecursionError
  | S d =>
      match s with
      | EmptyString => inl JSONDecodeError
      | String a r =>
          if bool_decide (a = dquote) then
            match scanstring r with
            | inl e => inl e
            | inr (t, rest) => inr (PStr t, rest)
            end
          else if bool_decide (a = "{"%char) then parse_object (scan_once d) r
          else if bool_decide (a = "["%char) then parse_array (scan_once d) r
          else if String.prefix "null" s then inr (PNone, sdrop 4 s)
          else if String.prefix "true" s then inr (PBool true, sdrop 4 s)
          else if String.prefix "false" s then inr (PBool false, sdrop 5 s)
          else scan_number s
      end
  end.

(** [json.loads]: one value, blanks allowed around it, nothing after it.
    [room] is the number of levels the decoder can enter before the
    interpreter raises [RecursionError]; it need not be the encoder's. *)
Definition json_loads (room : nat) (s : string) : exn + pyval :=
  match scan_once room (skip_ws s) with
  | inl e => inl e
  | inr (v, r) =>
      match skip_ws r with
      | EmptyString => inr v
      | String _ _ => inl JSONDecodeError
      end
  end.

End Json.

(** ** Files: text encodings and the filesystem *)

Module OS.
Import Py.

(** A text encoding, as [open(..., encoding=...)] uses it: characters are
    encoded one at a time, bytes are decoded as a whole. *)
Record codec : Type := {
  encode_char : ascii -> option string;
  decode : string -> exn + string
}.

(** What is encoded before the first character the codec cannot write. *)
Fixpoint encode_text (enc : codec) (text : string) : string * option exn :=
  match text with
  | EmptyString => (EmptyString, None)
  | String a r =>
      match encode_char enc a with
      | None => (EmptyString, Some UnicodeEncodeError)
      | Some b => let (bs, e) := encode_text enc r in (b ++ bs, e)
      end
  end.

Definition latin_1 : codec :=
  {| encode_char := fun a => Some (str1 a); decode := fun b => inr b |}.

Fixpoint ascii_decode (b : string) : exn + string :=
  match b with
  | EmptyString => inr EmptyString
  | String a r =>
      if (code a <? 128)%nat then
        match ascii_decode r with
        | inl e => inl e
        | inr t => inr (String a t)
        end
      else inl UnicodeDecodeError
  end.

Definition us_ascii : codec :=
  {| encode_char := fun a => if (code a <? 128)%nat then Some (str1 a) else None;
     decode := ascii_decode |}.

Definition utf_8_encode_char (a : ascii) : option string :=
  if (code a <? 128)%nat then Some (str1 a)
  else Some (String (ascii_of_nat (192 + code a / 64))
               (str1 (ascii_of_nat (128 + code a mod 64)))).

(** Decoding UTF-8 into the modelled characters: a lead byte above [0xC3]
    starts a character above 255 (or an invalid sequence). *)
Fixpoint utf_8_decode (b : string) : exn + string :=
  let cons a res :=
    match res with
    | inl e => inl e
    | inr t => inr (String a t)
    end in
  match b with
  | EmptyString => inr EmptyString
  | String a r =>
      if (code a <? 128)%nat then cons a (utf_8_decode r)
      else if (code a <? 194)%nat then inl UnicodeDecodeError
      else if (code a <? 196)%nat then
        match r with
        | String c r' =>
            if ((128 <=? code c) && (code c <? 192))%nat
            then cons (ascii_of_nat ((code a - 192) * 64 + (code c - 128)))
                      (utf_8_decode r')
            else inl UnicodeDecodeError
        | EmptyString => inl UnicodeDecodeError
        end
      else inl Unmodelled
  end.

Definition utf_8 : codec :=
  {| encode_char := utf_8_encode_char; decode := utf_8_decode |}.

(** *** The filesystem *)

Inductive node : Type :=
| File (content : string)
| Dir.

Abbreviation fs := (gmap path node).

(** The root is a directory that always exists. *)
Definition node_at (fsys : fs) (p : path) : option node :=
  match p with
  | [] => Some Dir
  | _ => fsys !! p
  end.

(** Path resolution from [cur] through the components [rest]. *)
Fixpoint walk (fsys : fs) (cur : path) (rest : list string) : exn + node :=
  match node_at fsys cur with
  | None => inl FileNotFoundError
  | Some n =>
      match rest with
      | [] => inr n
      | c :: rest' =>
          match n with
          | Dir => walk fsys (cur ++ [c])%list rest'
          | File _ => inl NotADirectoryError
          end
      end
  end.

Definition stat (fsys : fs) (p : path) : exn + node := walk fsys [] p.

(** [Path.exists()] and [Path.is_dir()]. *)
Definition path_exists (fsys : fs) (p : path) : bool :=
  match stat fsys p with inr _ => true | inl _ => false end.

Definition is_dir (fsys : fs) (p : path) : bool :=
  match stat fsys p with inr Dir => true | _ => false end.

(** The directory an entry is to be created or replaced in must resolve. *)
Definition dir_ok (fsys : fs) (d : path) : exn + unit :=
  match stat fsys d with
  | inr Dir => inr tt
  | inr (File _) => inl NotADirectoryError
  | inl e => inl e
  end.

Definition os_mkdir (fsys : fs) (p : path) : exn + fs :=
  match p with
  | [] => inl FileExistsError
  | _ =>
      match dir_ok fsys (parent p) with
      | inl e => inl e
      | inr _ =>
          match node_at fsys p with
          | Some _ => inl FileExistsError
          | None => inr (<[p := Dir]> fsys)
          end
      end
  end.

(** [Path.mkdir(parents=..., exist_ok=...)], as pathlib writes it: try the
    directory itself, create the parent on [FileNotFoundError] and try once
    more, and accept any other I/O error when the directory is there. *)
Fixpoint path_mkdir (fuel : nat) (parents exist_ok : bool) (fsys : fs)
    (p : path) : exn + fs :=
  match os_mkdir fsys p with
  | inr fs' => inr fs'
  | inl FileNotFoundError =>
      if negb parents || bool_decide (parent p = p) then inl FileNotFoundError
      else
        match fuel with
        | O => inl RecursionError
        | S f =>
            match path_mkdir f true true fsys (parent p) with
            | inl e => inl e
            | inr fs1 => path_mkdir f false exist_ok fs1 p
            end
        end
  | inl e =>
      if negb exist_ok || negb (is_dir fsys p) then inl e else inr fsys
  end.

(** [open(p, "w")]: create or truncate. *)
Definition open_w (fsys : fs) (p : path) : exn + fs :=
  match dir_ok fsys (parent p) with
  | inl e => inl e
  | inr _ =>
      match node_at fsys p with
      | Some Dir => inl IsADirectoryError
      | _ => inr (<[p := File EmptyString]> fsys)
      end
  end.

(** [os.open(p, O_RDWR | O_CREAT | O_EXCL)]. *)
Definition open_excl (fsys : fs) (p : path) : exn + fs :=
  match dir_ok fsys (parent p) with
  | inl e => inl e
  | inr _ =>
      match node_at fsys p with
      | Some _ => inl FileExistsError
      | None => inr (<[p := File EmptyString]> fsys)
      end
  end.

(** [tempfile._mkstemp_inner]: the first candidate name that is free. *)
Fixpoint mkstemp (fsys : fs) (dir : path) (pre suf : string)
    (names : list string) : exn + (path * fs) :=
  match names with
  | [] => inl FileExistsError
  | n :: rest =>
      let file := (dir ++ [(pre ++ n ++ suf)%string])%list in
      match open_excl fsys file with
      | inr fs' => inr (file, fs')
      | inl FileExistsError => mkstemp fsys dir pre suf rest
      | inl e => inl e
      end
  end.

(** [open(p, "r")] followed by [read()]: the bytes of a regular file. *)
Definition read_bytes (fsys : fs) (p : path) : exn + string :=
  match stat fsys p with
  | inl e => inl e
  | inr Dir => inl IsADirectoryError
  | inr (File b) => inr b
  end.

(** [os.replace(src, dst)] for a regular file [src]. *)
Definition os_replace (fsys : fs) (src dst : path) : exn + fs :=
  match fsys !! src with
  | Some (File b) =>
      match dir_ok fsys (parent dst) with
      | inl e => inl e
      | inr _ =>
          match node_at fsys dst with
          | Some Dir => inl IsADirectoryError
          | _ => inr (<[dst := File b]> (delete src fsys))
          end
      end
  | _ => inl FileNotFoundError
  end.

(** What the environment does to one call of [write_json]: the names the
    temporary-file generator draws, the I/O errors it injects (disk full,
    permissions, a failing device), and the room the interpreter's stack
    leaves to the serializer.  An injected error makes the operation raise
    without any other effect. *)
Record env : Type := {
  tmp_names : list string;
  f_mkdir : option exn;
  f_open : option exn;
  f_write : option exn;
  f_flush : option exn;
  f_fsync : option exn;
  f_close : option exn;
  f_unlink : option exn;
  f_replace : option exn;
  stack_room : nat
}.

Definition no_faults (names : list string) (room : nat) : env :=
  {| tmp_names := names; f_mkdir := None; f_open := None; f_write := None;
     f_flush := None; f_fsync := None; f_close := None; f_unlink := None;
     f_replace := None; stack_room := room |}.

End OS.

(** ** [python-commons/file_io.py] *)

Module FileIO.
Import Py Json OS.

(** [getattr(value, name, None)] for the four probed names: only instances
    of user classes carry them. *)
Definition getattr_to_string (value : pyval) : attr pyval :=
  match value with PObj a _ _ _ _ => a | _ => Absent end.
Definition getattr_to_wkt (value : pyval) : attr pyval :=
  match value with PObj _ a _ _ _ => a | _ => Absent end.
Definition getattr_to_epsg (value : pyval) : attr pyval :=
  match value with PObj _ _ a _ _ => a | _ => Absent end.
Definition getattr_item (value : pyval) : attr pyval :=
  match value with PObj _ _ _ a _ => a | _ => Absent end.

(** [if callable(m): try: return m() except Exception: pass]: the value
    returned, or [None] when the rule does not apply or fails. *)
Definition try_call (m : attr pyval) : option pyval :=
  match m with
  | Returns r => Some r
  | Absent | NotCallable | Raises _ => None
  end.

(** The [to_epsg] rule: a result that is not [None], formatted. *)
Definition try_epsg (m : attr pyval) : option pyval :=
  match try_call m with
  | Some PNone => None
  | Some epsg =>
      match py_str epsg with
      | inr s => Some (PStr ("EPSG:" ++ s))
      | inl _ => None
      end
  | None => None
  end.

Definition _json_default (value : pyval) : exn + pyval :=
  match value with
  | PPath p => inr (PStr (path_str p))
  | PSet xs =>
      match sorted xs with
      | inr l => inr (PList (map of_atom l))
      | inl _ => inr (PList (map of_atom xs))
      end
  | _ =>
      match try_call (getattr_to_string value) with
      | Some r => inr r
      | None =>
      match try_call (getattr_to_wkt value) with
      | Some r => inr r
      | None =>
      match try_epsg (getattr_to_epsg value) with
      | Some r => inr r
      | None =>
      match try_call (getattr_item value) with
      | Some r => inr r
      | None =>
      match py_str value with
      | inr s => inr (PStr s)
      | inl e => inl e
      end end end end end
  end.

(** [room] is the stack room the caller leaves to [json.loads]. *)
Definition read_json (fsys : fs) (file_path : path) (encoding : codec)
    (room : nat) : exn + pyval :=
  let path := file_path in
  if negb (path_exists fsys path) then inl FileNotFoundError
  else
    match read_bytes fsys path with
    | inl e => inl e
    | inr b =>
        match decode encoding b with
        | inl e => inl e
        | inr text => json_loads room text
        end
    end.

(** [default or _json_default]: a function object is truthy. *)
Definition default_or (default : option (pyval -> exn + pyval))
  : pyval -> exn + pyval :=
  match default with
  | Some f => f
  | None => _json_default
  end.

(** [fp.write(text)] on a file holding [content]: the text is encoded as a
    whole, and nothing of it is written when a character cannot be
    encoded. *)
Definition fp_write (encoding : codec) (content text : string)
  : string * option exn :=
  match encode_text encoding text with
  | (b, None) => (content ++ b, None)
  | (_, Some e) => (content, Some e)
  end.

(** [for chunk in iterable: fp.write(chunk)]: the chunks are written one by
    one, up to the first that cannot be encoded. *)
Fixpoint write_chunks (encoding : codec) (content : string)
    (cs : list string) : string * option exn :=
  match cs with
  | [] => (content, None)
  | c :: r =>
      match fp_write encoding content c with
      | (content', None) => write_chunks encoding content' r
      | (content', Some e) => (content', Some e)
      end
  end.

(** [json.dump(data, fp, ...)] followed by [fp.write("\n")] on a file that
    was just opened: the bytes that reach the file and the exception, if
    any, that ends the sequence.  An injected write error is raised by the
    first [fp.write]. *)
Definition dump_and_newline (e : env) (encoding : codec) (indent : option Z)
    (ensure_ascii : bool) (default : option (pyval -> exn + pyval))
    (data : pyval) : string * option exn :=
  match json_dump_chunks (default_or default) ensure_ascii indent
          (stack_room e) data with
  | ([], Some err) => (EmptyString, Some err)
  | (cs, res) =>
      match f_write e with
      | Some err => (EmptyString, Some err)
      | None =>
          match write_chunks encoding EmptyString cs, res with
          | (b, Some err), _ => (b, Some err)
          | (b, None), Some err => (b, Some err)
          | (b, None), None => fp_write encoding b (str1 nl)
          end
      end
  end.

Definition raise_if {A} (f : option exn) (k : (exn + A)) : exn + A :=
  match f with
  | Some e => inl e
  | None => k
  end.

Definition write_json (fsys : fs) (file_path : path) (data : pyval)
    (encoding : codec) (indent : option Z)
    (ensure_ascii create_parents atomic : bool)
    (default : option (pyval -> exn + pyval)) (e : env)
  : (exn + unit) * fs :=
  let path := file_path in
  match (if create_parents
         then raise_if (f_mkdir e)
                (path_mkdir (length path) true true fsys (parent path))
         else inr fsys) with
  | inl err => (inl err, fsys)
  | inr fs1 =>
      if negb atomic then
        match raise_if (f_open e) (open_w fs1 path) with
        | inl err => (inl err, fs1)
        | inr fs2 =>
            let (b, res) :=
              dump_and_newline e encoding indent ensure_ascii default data in
            let fs3 := <[path := File b]> fs2 in
            match res, f_close e with
            | _, Some err => (inl err, fs3)
            | Some err, None => (inl err, fs3)
            | None, None => (inr tt, fs3)
            end
        end
      else
        match raise_if (f_open e)
                (mkstemp fs1 (parent path) ("." ++ name path ++ ".") ".tmp"
                   (tmp_names e)) with
        | inl err => (inl err, fs1)
        | inr (tmp_path, fs2) =>
            let (b, res) :=
              dump_and_newline e encoding indent ensure_ascii default data in
            let fs3 := <[tmp_path := File b]> fs2 in
            let body :=
              match res with
              | Some err => Some err
              | None =>
                  match f_flush e with
                  | Some err => Some err
                  | None => f_fsync e
                  end
              end in
            match body with
            | Some err =>
                (* Best-effort cleanup before re-raising *)
                let fs4 :=
                  match f_unlink e with
                  | Some _ => fs3
                  | None => delete tmp_path fs3
                  end in
                match f_close e with
                | Some cerr => (inl cerr, fs4)
                | None => (inl err, fs4)
                end
            | None =>
                match f_close e with
                | Some cerr => (inl cerr, fs3)
                | None =>
                    match raise_if (f_replace e) (os_replace fs3 tmp_path path) with
                    | inl err => (inl err, fs3)
                    | inr fs4 => (inr tt, fs4)
                    end
                end
            end
        end
  end.

End FileIO.

(** ** Both client kinds at once *)

Module Clients.
Import Mongo.

Inductive kind : Type := Sync | Async.

Definition cached (k : kind) (s : state) : option client :=
  match k with Sync => _sync_client s | Async => _async_client s end.

Definition get_client (k : kind) : host -> option string -> M client :=
  match k with Sync => get_sync_client | Async => get_async_client end.

Definition close_client (k : kind) : M unit :=
  match k with Sync => close_sync_client | Async => close_async_client end.

(** A process in which both clients are cached. *)
Definition warm : state :=
  {| _async_client := Some {| c_id := 0; c_uri := "mongodb://db-a:27017";
                              c_kwargs := {| serverSelectionTimeoutMS := 5000;
                                             tlsCAFile := None |} |};
     _sync_client := Some {| c_id := 1; c_uri := "mongodb://db-s:27017";
                             c_kwargs := {| serverSelectionTimeoutMS := 5000;
                                            tlsCAFile := None |} |};
     environ := ∅; next_id := 2; closed := []; log := [] |}.

End Clients.

(** ** The fallback chain as the specification words it *)

Module Fallback.
Import Py Json FileIO.

(** A rule answers [None] when it does not apply or fails, and the next rule
    is tried. *)
Definition rule : Type := pyval -> option (exn + pyval).

Definition probe (m : attr pyval) : option (exn + pyval) :=
  match m with
  | Returns r => Some (inr r)
  | Absent | NotCallable | Raises _ => None
  end.

Definition rule_path : rule := fun v =>
  match v with
  | PPath p => Some (inr (PStr (path_str p)))
  | _ => None
  end.

Definition rule_set : rule := fun v =>
  match v with
  | PSet xs =>
      Some (inr (PList (map of_atom
                          (match sorted xs with inr l => l | inl _ => xs end))))
  | _ => None
  end.

Definition rule_to_string : rule := fun v => probe (getattr_to_string v).
Definition rule_to_wkt : rule := fun v => probe (getattr_to_wkt v).

Definition rule_to_epsg : rule := fun v =>
  match getattr_to_epsg v with
  | Returns PNone => None
  | Returns code =>
      match py_str code with
      | inr s => Some (inr (PStr ("EPSG:" ++ s)))
      | inl _ => None
      end
  | Absent | NotCallable | Raises _ => None
  end.

Definition rule_item : rule := fun v => probe (getattr_item v).

Definition rule_str : rule := fun v =>
  Some (match py_str v with inr s => inr (PStr s) | inl e => inl e end).

(** path, set, to_string, to_wkt, to_epsg, item, str. *)
Definition fallback_chain : list rule :=
  [rule_path; rule_set; rule_to_string; rule_to_wkt; rule_to_epsg;
   rule_item; rule_str].

Fixpoint first_applicable (rules : list rule) (v : pyval) : exn + pyval :=
  match rules with
  | [] => inl TypeError
  | r :: rest =>
      match r v with
      | Some res => res
      | None => first_applicable rest v
      end
  end.

(** A probed method that gives no result: absent, not callable, or raising
    when it is called. *)
Inductive miss : Type :=
| MissAbsent
| MissNotCallable
| MissRaises (e : exn).

Definition missing (m : miss) : attr pyval :=
  match m with
  | MissAbsent => Absent
  | MissNotCallable => NotCallable
  | MissRaises e => Raises e
  end.

(** The six orders in which the set [{3, 1, 2}] can be iterated. *)
Definition orders_312 : list (list atom) :=
  [[AInt 3; AInt 1; AInt 2]; [AInt 3; AInt 2; AInt 1];
   [AInt 1; AInt 3; AInt 2]; [AInt 1; AInt 2; AInt 3];
   [AInt 2; AInt 3; AInt 1]; [AInt 2; AInt 1; AInt 3]].

End Fallback.

(** ** The steps of [write_json], named *)

Module WriteSteps.
Import Py Json OS FileIO.

(** [path.parent.mkdir(parents=True, exist_ok=True)], when asked for. *)
Definition make_parents (create_parents : bool) (e : env) (fsys : fs)
    (p : path) : exn + fs :=
  if create_parents
  then raise_if (f_mkdir e) (path_mkdir (length p) true true fsys (parent p))
  else inr fsys.

(** [NamedTemporaryFile(...)] for the target [p]. *)
Definition make_temp (e : env) (fsys : fs) (p : path) : exn + (path * fs) :=
  raise_if (f_open e)
    (mkstemp fsys (parent p) ("." ++ name p ++ ".") ".tmp" (tmp_names e)).

(** The [try] block of the atomic branch: serialization, the newline, the
    flush and the [fsync]; the exception it ends with, if any. *)
Definition atomic_body (e : env) (encoding : codec) (indent : option Z)
    (ensure_ascii : bool) (default : option (pyval -> exn + pyval))
    (data : pyval) : option exn :=
  match (dump_and_newline e encoding indent ensure_ascii default data).2 with
  | Some err => Some err
  | None =>
      match f_flush e with
      | Some err => Some err
      | None => f_fsync e
      end
  end.

(** A disk that fails at [fsync] and then refuses the [unlink]. *)
Definition dying_disk : env :=
  {| tmp_names := ["k3x9q2ab"]; f_mkdir := None; f_open := None;
     f_write := None; f_flush := None; f_fsync := Some (OSError "EIO");
     f_close := None; f_unlink := Some (OSError "EROFS");
     f_replace := None; stack_room := 64 |}.

(** A full disk: the flush fails, and so does the flush that [close] does. *)
Definition full_disk : env :=
  {| tmp_names := ["k3x9q2ab"]; f_mkdir := None; f_open := None;
     f_write := None; f_flush := Some (OSError "ENOSPC");
     f_fsync := None; f_close := Some (OSError "ENOSPC on close");
     f_unlink := None; f_replace := None; stack_room := 64 |}.

(** Only the [fsync] fails. *)
Definition fsync_fails : env :=
  {| tmp_names := ["k3x9q2ab"]; f_mkdir := None; f_open := None;
     f_write := None; f_flush := None; f_fsync := Some (OSError "EIO");
     f_close := None; f_unlink := None; f_replace := None; stack_room := 64 |}.

(** A fallback encoder of the caller's: every unsupported value becomes the
    string ["custom"]. *)
Definition custom_default (v : pyval) : exn + pyval := inr (PStr "custom").

End WriteSteps.

(** ** Values the serializer hands to the fallback encoder *)

Module Values.
Import Py.

(** No native JSON form: the encoder calls [default] on these. *)
Definition unsupported (v : pyval) : bool :=
  match v with
  | PPath _ | PSet _ | PFrozenSet _ | PObj _ _ _ _ _ => true
  | _ => false
  end.

End Values.

(** ** Well-formed filesystems *)

Module Wf.
Import Py OS.



End Wf.

(** ** The values of the JSON data model *)

Module JsonValue.
Import Py Json OS.

(** [None], booleans, ints, strs, lists of such values, and dicts from
    distinct str keys to such values: what [json.loads] can return. *)
Fixpoint is_json (v : pyval) : bool :=
  match v with
  | PNone | PBool _ | PInt _ | PStr _ => true
  | PList l => forallb is_json l
  | PDict kvs =>
      forallb (fun kv : atom * pyval =>
                 match kv with
                 | (AStr _, x) => is_json x
                 | _ => false
                 end) kvs
      && bool_decide (NoDup (map fst kvs))
  | _ => false
  end.

(** An encoding that gives back the text it has encoded. *)
Definition codec_lossless (enc : codec) : Prop :=
  forall (text b : string),
    encode_text enc text = (b, None) -> decode enc b = inr text.

(** What may follow a value in a document: nothing, a comma, a closing
    bracket or brace, or a line break. *)
Definition delimited (rest : string) : Prop :=
  match rest with
  | EmptyString => True
  | String a _ =>
      a = ","%char \/ a = "]"%char \/ a = "}"%char \/ a = nl
  end.

(** The characters a value can start with. *)
Definition value_start (a : ascii) : Prop :=
  is_ws a = false /\ a <> "]"%char /\ a <> "}"%char /\ a <> ","%char
  /\ a <> ":"%char.

End JsonValue.

(** ** [async_session] and [sync_session] *)

Module Sessions.
Import Mongo Clients.

(** [_new_sync_client] and [_new_async_client]. *)
Definition new_client (k : kind) : host -> option string -> M client :=
  match k with Sync => _new_sync_client | Async => _new_async_client end.

(** A driver session, and what the driver has seen of sessions: the clients
    a session was started on and ended on, in order. *)
Record session : Type := { s_client : client }.

Inductive event : Type :=
| Started (client_id : nat)
| Ended (client_id : nat).

(** The errors the driver raises from [start_session] and [end_session]. *)
Record driver : Type := {
  start_fails : option exn;
  end_fails : option exn
}.

Definition reliable : driver := {| start_fails := None; end_fails := None |}.

(** The module state together with the driver's record of sessions. *)
Definition world : Type := state * list event.

Definition SM (A : Type) : Type := world -> (exn + A) * world.

Definition lift {A} (m : M A) : SM A :=
  fun w => let (r, s') := m w.1 in (r, (s', w.2)).

Definition start_session (d : driver) (c : client) : SM session :=
  fun w =>
    match start_fails d with
    | Some e => (inl e, w)
    | None => (inr {| s_client := c |}, (w.1, (w.2 ++ [Started (c_id c)])%list))
    end.

Definition end_session (d : driver) (x : session) : SM unit :=
  fun w =>
    match end_fails d with
    | Some e => (inl e, w)
    | None => (inr tt, (w.1, (w.2 ++ [Ended (c_id (s_client x))])%list))
    end.

(** [with sync_session(client) as session: body]: the generator runs to its
    [yield], the body runs with the session, and the [finally] block runs
    whether the body returned or raised; what the body raised is raised
    again unless the [finally] block itself raises. *)
Definition session_scope {A} (k : kind) (d : driver) (h : host)
    (client : option Mongo.client) (body : session -> SM A) : SM A :=
  fun w =>
    let created_client :=
      match client with None => true | Some _ => false end in
    match (match client with
           | None => lift (new_client k h None) w
           | Some c => (inr c, w)
           end) with
    | (inl e, w1) => (inl e, w1)
    | (inr c, w1) =>
        match start_session d c w1 with
        | (inl e, w2) => (inl e, w2)
        | (inr session, w2) =>
            let (r, w3) := body session w2 in
            match end_session d session w3 with
            | (inl e, w4) => (inl e, w4)
            | (inr _, w4) =>
                (r, if created_client
                    then (client_close c w4.1, w4.2)
                    else w4)
            end
        end
    end.

Definition sync_session {A} := @session_scope A Sync.
Definition async_session {A} := @session_scope A Async.

(** Whether the driver behind a kind of client can be imported. *)
Definition installed (k : kind) (h : host) : bool :=
  match k with Sync => pymongo_installed h | Async => motor_installed h end.

Definition other (k : kind) : kind :=
  match k with Sync => Async | Async => Sync end.

Definition set_cached (k : kind) (v : option client) : state -> state :=
  match k with Sync => set_sync v | Async => set_async v end.

(** The line logged before the driver's constructor is called. *)
Definition connecting (k : kind) (uri : string) : string :=
  match k with
  | Sync => "Connecting (sync) to MongoDB at " ++ uri
  | Async => "Connecting (async) to MongoDB at " ++ uri
  end.

(** The clients two states hold: the cached ones and the closed ones. *)
Definition same_clients (s s' : state) : Prop :=
  _async_client s' = _async_client s
  /\ _sync_client s' = _sync_client s
  /\ closed s' = closed s.


(** One entry of the [.env] file, as [load_dotenv(override=False)] applies
    it. *)
Definition dotenv_step (e : gmap string string) (kv : string * string)
  : gmap string string :=
  match e !! kv.1 with
  | Some _ => e
  | None => <[kv.1 := kv.2]> e
  end.

(** [MONGO_FORCE_TLS] as [_client_kwargs_for_uri] reads it. *)
Definition force_tls (s : state) : bool :=
  let f := default "0" (environ s !! "MONGO_FORCE_TLS") in
  bool_decide (f = "1") || bool_decide (f = "true")
  || bool_decide (f = "True").

Definition has_digit (t : string) : bool :=
  existsb is_digit (list_ascii_of_string t).

(** A host with every optional package, reading a [.env] file. *)
Definition atlas_host : host :=
  {| dotenv_file := Some [("MONGO_URI", "mongodb+srv://cluster0.example.net");
                          ("MONGO_FORCE_TLS", "true")];
     certifi_where := Some "/site-packages/certifi/cacert.pem";
     motor_installed := true; pymongo_installed := true |}.

(** A host on which the async driver is missing. *)
Definition sync_only_host : host :=
  {| dotenv_file := None; certifi_where := None;
     motor_installed := false; pymongo_installed := true |}.

(** A process started with the given environment variables. *)
Definition started_with (vars : list (string * string)) : state :=
  {| _async_client := None; _sync_client := None;
     environ := list_to_map vars;
     next_id := 0; closed := []; log := [] |}.

(** A body that uses the session and then raises. *)
Definition failing_body (x : session) : SM unit :=
  fun w => (inl (UserError "rollback"), w).

(** A body that asks for the cached sync client and returns its address. *)
Definition body_using_cache (h : host) (x : session) : SM string :=
  fun w =>
    match get_sync_client h None w.1 with
    | (inl e, s') => (inl e, (s', w.2))
    | (inr c, s') => (inr (c_uri c), (s', w.2))
    end.

End Sessions.

(** ** One step of [sorted] *)

Module Sorting.
Import Py Json.

(** What [sorted] does with the next element: it is inserted into the
    elements sorted so far, unless a comparison has already raised. *)
Definition sort_step (acc : exn + list atom) (x : atom) : exn + list atom :=
  match acc with
  | inl e => inl e
  | inr l => insert_sorted x l
  end.

End Sorting.

(** ** The text of the encoder's chunks *)

Module Chunks.
Import Py Json.

(** What a run of the encoder has written, as one text. *)
Definition text_of (c : chunks) : out := (join c.1, c.2).

End Chunks.

(** ** When a write can go through *)

Module Outcome.
Import Py Json OS FileIO WriteSteps.

(** The parent directories are there (created, when asked for) and the
    file that [write_json] writes into could be created: the temporary
    file of the atomic mode, the target itself of the direct mode. *)
Definition ready (atomic cp : bool) (e : env) (fsys : fs) (p : path)
    (fs1 : fs) : Prop :=
  make_parents cp e fsys p = inr fs1
  /\ if atomic
     then exists tmp fs2, make_temp e fs1 p = inr (tmp, fs2)
     else exists fs2, raise_if (f_open e) (open_w fs1 p) = inr fs2.

(** No I/O error is injected once the file is open. *)
Definition quiet (e : env) : Prop :=
  f_write e = None /\ f_flush e = None /\ f_fsync e = None
  /\ f_close e = None /\ f_replace e = None.

(** A fallback encoder of the caller's that refuses every value. *)
Definition refusing_default (v : pyval) : exn + pyval :=
  inl (UserError "no JSON form").

End Outcome.

(** * Properties *)

(** ** The cached MongoDB clients *)

Module MongoFacts.
Import Mongo Clients.

(** C9.  While a client is cached, [get_sync_client(uri)] and
    [get_async_client(uri)] return that client and leave the whole state as
    it is (nothing is created, logged or read from the environment),
    whatever [uri] is. *)
Theorem get_client_cached_ignores_uri (k : kind) (h : host) (s : state)
    (c : client) (uri : option string) :
  cached k s = Some c ->
  get_client k h uri s = (inr c, s).
Proof.
  destruct k; simpl; intros H.
  - unfold get_sync_client, bind, gets. rewrite H. reflexivity.
  - unfold get_async_client, bind, gets. rewrite H. reflexivity.
Qed.

Lemma get_client_cached_ignores_uri_witness :
  get_client Sync plain_host (Some "mongodb+srv://elsewhere") warm
  = (inr {| c_id := 1; c_uri := "mongodb://db-s:27017";
            c_kwargs := {| serverSelectionTimeoutMS := 5000;
                           tlsCAFile := None |} |}, warm).
Proof.
  apply (get_client_cached_ignores_uri Sync plain_host warm _
           (Some "mongodb+srv://elsewhere")).
  reflexivity.
Defined.

(** X13.  The call that finds no cached client is the one on which [uri] counts:
    a non-empty [uri] is the address the new client is built with, and that
    client becomes the cached one. *)
Lemma get_client_first_call_uses_uri (k : kind) (h : host) (s s' : state)
    (u : string) (c : client) :
  cached k s = None ->
  u <> EmptyString ->
  get_client k h (Some u) s = (inr c, s') ->
  c_uri c = u /\ cached k s' = Some c.
Proof.
  intros Hc Hu.
  assert (Hd : forall kw st c1 st1,
             driver_client u kw st = (inr c1, st1) -> c_uri c1 = u).
  { intros kw st c1 st1. unfold driver_client.
    destruct (startswith u "mongodb://" || startswith u "mongodb+srv://");
      [|discriminate].
    unfold alloc_client. intros [= <- _]. reflexivity. }
  destruct u as [|a r]; [congruence|].
  destruct k; simpl in *.
  - unfold get_sync_client, bind, gets. rewrite Hc.
    unfold _new_sync_client. destruct (pymongo_installed h); [|discriminate].
    unfold bind, uri_or_default, ret.
    destruct (_client_kwargs_for_uri h (String a r) s) as [[e|kw] s1];
      [discriminate|].
    unfold modify.
    destruct (driver_client (String a r) kw _) as [[e|c1] s2] eqn:E;
      [discriminate|].
    intros [= <- <-]. split; [eapply Hd; eauto | reflexivity].
  - unfold get_async_client, bind, gets. rewrite Hc.
    unfold _new_async_client. destruct (motor_installed h); [|discriminate].
    unfold bind, uri_or_default, ret.
    destruct (_client_kwargs_for_uri h (String a r) s) as [[e|kw] s1];
      [discriminate|].
    unfold modify.
    destruct (driver_client (String a r) kw _) as [[e|c1] s2] eqn:E;
      [discriminate|].
    intros [= <- <-]. split; [eapply Hd; eauto | reflexivity].
Qed.

Example first_call_creates :
  (get_client Sync plain_host (Some "mongodb://db-x:27017") fresh).1
  = inr {| c_id := 0; c_uri := "mongodb://db-x:27017";
           c_kwargs := {| serverSelectionTimeoutMS := 5000;
                          tlsCAFile := None |} |}.
Proof. reflexivity. Qed.

(** C10.  [close_sync_client] and [close_async_client] never raise; with no
    cached client they change nothing; after a call the cached handle is
    [None]; and a second call right after the first changes nothing. *)
Theorem close_client_idempotent (k : kind) (s : state) :
  (close_client k s).1 = inr tt
  /\ cached k (close_client k s).2 = None
  /\ close_client k (close_client k s).2 = (inr tt, (close_client k s).2)
  /\ (cached k s = None -> close_client k s = (inr tt, s)).
Proof.
  destruct k; simpl.
  - unfold close_sync_client, bind, gets, modify, ret.
    destruct (_sync_client s) as [c|] eqn:E; simpl; rewrite ?E; auto.
    repeat split; congruence.
  - unfold close_async_client, bind, gets, modify, ret.
    destruct (_async_client s) as [c|] eqn:E; simpl; rewrite ?E; auto.
    repeat split; congruence.
Qed.

Lemma close_client_idempotent_witness :
  close_client Async fresh = (inr tt, fresh)
  /\ cached Sync (close_client Sync warm).2 = None.
Proof.
  split.
  - apply (close_client_idempotent Async fresh). reflexivity.
  - apply (close_client_idempotent Sync warm).
Defined.

(** X14.  Closing a cached client does close it, once. *)
Lemma close_client_closes (k : kind) (s : state) (c : client) :
  cached k s = Some c ->
  closed (close_client k s).2 = c_id c :: closed s.
Proof.
  destruct k; simpl; intros H.
  - unfold close_sync_client, bind, gets. rewrite H. reflexivity.
  - unfold close_async_client, bind, gets. rewrite H. reflexivity.
Qed.

End MongoFacts.

(** ** The default fallback encoder *)

Module FallbackFacts.
Import Py Json FileIO Fallback.

(** [_json_default] tries the rules in the order the specification lists. *)
Lemma json_default_chain (v : pyval) :
  _json_default v = first_applicable fallback_chain v.
Proof.
  destruct v as [| | | | | | | |xs | |ts tw te it s]; try reflexivity.
  - simpl. destruct (sorted xs); reflexivity.
  - unfold _json_default, try_epsg, fallback_chain, first_applicable,
      rule_path, rule_set, rule_to_string, rule_to_wkt, rule_to_epsg,
      rule_item, rule_str, probe, try_call,
      getattr_to_string, getattr_to_wkt, getattr_to_epsg, getattr_item.
    destruct ts, tw; try reflexivity;
      (destruct te as [| |code|]; [| |destruct code; try destruct (py_str _)|];
       destruct it; reflexivity).
Qed.

(** C4.  The default fallback encoder tries path, set, [to_string],
    [to_wkt], [to_epsg], [item] and [str] in this order; a path serializes
    to its string form; the set [{3, 1, 2}] to [[1, 2, 3]]; an object with
    only a working [to_string] that returns ["X"] to the JSON string ["X"];
    with a failing [to_string] and a working [to_wkt] the WKT result is
    taken; [to_epsg] gives ["EPSG:<code>"] for a code that is not [None] and
    falls through on [None] or on a raise; a probe that is absent, not
    callable or raising leaves the result to the rules after it; and a
    working [item] is taken when the rules before it do not apply. *)
Theorem json_default_rules :
  (forall v, _json_default v = first_applicable fallback_chain v)
  /\ (forall p, _json_default (PPath p) = inr (PStr (path_str p)))
  /\ Forall (fun xs => _json_default (PSet xs)
                       = inr (PList [PInt 1; PInt 2; PInt 3])
                       /\ forall room, 3 <= room ->
                            json_dump _json_default false None room (PSet xs)
                            = ("[1, 2, 3]", None)) orders_312
  /\ (forall s ea ind,
        _json_default (PObj (Returns (PStr "X")) Absent Absent Absent s)
        = inr (PStr "X")
        /\ forall room, 2 <= room ->
             json_dump _json_default ea ind room
               (PObj (Returns (PStr "X")) Absent Absent Absent s)
             = (String dquote (String "X" (str1 dquote)), None))
  /\ (forall e wkt te it s,
        _json_default (PObj (Raises e) (Returns wkt) te it s) = inr wkt)
  /\ (forall m1 m2 code it s,
        _json_default (PObj (missing m1) (missing m2) (Returns code) it s)
        = match code, py_str code with
          | PNone, _ | _, inl _ =>
              _json_default (PObj Absent Absent Absent it s)
          | _, inr t => inr (PStr ("EPSG:" ++ t))
          end)
  /\ (forall m1 m2 e it s n,
        _json_default (PObj (missing m1) (missing m2) (Raises e) it s)
        = _json_default (PObj Absent Absent Absent it s)
        /\ _json_default
             (PObj (missing m1) (missing m2) (Returns (PInt n)) it s)
           = inr (PStr ("EPSG:" ++ str_of_int n)))
  /\ (forall m1 m2 m3 m4 tw te it s,
        _json_default (PObj (missing m1) tw te it s)
        = _json_default (PObj Absent tw te it s)
        /\ _json_default (PObj Absent (missing m2) te it s)
           = _json_default (PObj Absent Absent te it s)
        /\ _json_default (PObj Absent Absent (missing m3) it s)
           = _json_default (PObj Absent Absent Absent it s)
        /\ _json_default (PObj Absent Absent Absent (missing m4) s)
           = match s with inr t => inr (PStr t) | inl e => inl e end)
  /\ (forall m1 m2 m3 r s,
        _json_default (PObj (missing m1) (missing m2) (missing m3)
                         (Returns r) s)
        = inr r
        /\ _json_default (PObj (missing m1) (missing m2) (Returns PNone)
                            (Returns r) s)
           = inr r).
Proof.
  split; [exact json_default_chain|].
  split; [reflexivity|].
  split.
  { repeat constructor; intros room Hr;
      (do 3 (destruct room as [|room]; [lia|])); reflexivity. }
  split.
  { intros s ea ind; split; [reflexivity|]. intros room Hr.
    do 2 (destruct room as [|room]; [lia|]). destruct ea; reflexivity. }
  split; [reflexivity|].
  split.
  { intros [| |?] [| |?] code it s; unfold _json_default, try_epsg; simpl;
      destruct code; simpl; repeat case_match; simplify_eq; reflexivity. }
  split.
  { intros m1 m2 err it s n; destruct m1, m2; split; reflexivity. }
  split.
  { intros [| |?] [| |?] [| |?] [| |?] tw te it s; repeat split; reflexivity. }
  intros [| |?] [| |?] [| |?] r s; split; reflexivity.
Qed.

Lemma json_default_rules_witness :
  _json_default (PObj (Raises ValueError) (Returns (PStr "POINT (1 2)"))
                   Absent Absent (inr "crs"))
  = inr (PStr "POINT (1 2)").
Proof.
  destruct json_default_rules as (_ & _ & _ & _ & H & _). apply H.
Defined.

(** One call of the fallback that answers a string ends the encoding. *)
Lemma iterencode_frozenset_str dflt ea ind f xs s level :
  dflt (PFrozenSet xs) = inr (PStr s) ->
  iterencode dflt ea ind (S (S f)) (PFrozenSet xs) level
  = (encode_str ea s, None).
Proof. intros H. simpl. rewrite H. reflexivity. Qed.

(** C8.  The set rule does not apply to a frozenset: with no method to
    probe, [_json_default] returns its [str], so it is written as a JSON
    string and not as the sorted sequence of its elements, which is what the
    set of the same elements gives. *)
Theorem json_default_frozenset (xs : list atom) :
  exists s,
    py_str (PFrozenSet xs) = inr s
    /\ _json_default (PFrozenSet xs) = inr (PStr s)
    /\ (forall ea ind room, 2 <= room ->
          json_dump _json_default ea ind room (PFrozenSet xs)
          = (encode_str ea s, None))
    /\ (forall l, _json_default (PFrozenSet xs) <> inr (PList l))
    /\ (exists l, _json_default (PSet xs) = inr (PList l)).
Proof.
  assert (H : exists s, py_str (PFrozenSet xs) = inr s).
  { destruct xs; simpl; eauto. }
  destruct H as [s Hs]. exists s.
  assert (Hd : _json_default (PFrozenSet xs) = inr (PStr s)).
  { unfold _json_default. simpl. simpl in Hs. rewrite Hs. reflexivity. }
  split; [exact Hs|]. split; [exact Hd|].
  split.
  { intros ea ind room Hr. unfold json_dump.
    do 2 (destruct room as [|room]; [lia|]).
    apply iterencode_frozenset_str. exact Hd. }
  split; [intros l; rewrite Hd; discriminate|].
  simpl. destruct (sorted xs); eauto.
Qed.

Example frozenset_312 :
  json_dump _json_default false (Some 2%Z) 2
    (PFrozenSet [AInt 1; AInt 2; AInt 3])
  = (String dquote ("frozenset({1, 2, 3})" ++ str1 dquote), None)
  /\ json_dump _json_default false None 3 (PSet [AInt 3; AInt 1; AInt 2])
     = ("[1, 2, 3]", None).
Proof. split; reflexivity. Qed.

End FallbackFacts.

(** ** Reading *)

Module ReadFacts.
Import Py Json OS FileIO.

Lemma stat_exists (fsys : fs) (p : path) (n : node) :
  stat fsys p = inr n -> path_exists fsys p = true.
Proof. unfold path_exists. intros ->. reflexivity. Qed.

(** C5 (amended).  On a path that does not exist [read_json] raises
    [FileNotFoundError] and returns nothing; on a path that is a regular
    file it decodes the whole content with the given encoding, parses it as
    one JSON document and returns the value, and a decoding or parse error
    comes out as it is; on a path that is a directory the open raises
    [IsADirectoryError]. *)
Theorem read_json_contract (fsys : fs) (p : path) (encoding : codec)
    (room : nat) :
  (path_exists fsys p = false ->
     read_json fsys p encoding room = inl FileNotFoundError)
  /\ (forall b, stat fsys p = inr (File b) ->
        read_json fsys p encoding room
        = match decode encoding b with
          | inl e => inl e
          | inr text => json_loads room text
          end)
  /\ (forall b text e, stat fsys p = inr (File b) ->
        decode encoding b = inr text -> json_loads room text = inl e ->
        read_json fsys p encoding room = inl e)
  /\ (forall b text v, stat fsys p = inr (File b) ->
        decode encoding b = inr text -> json_loads room text = inr v ->
        read_json fsys p encoding room = inr v)
  /\ (stat fsys p = inr Dir ->
        read_json fsys p encoding room = inl IsADirectoryError).
Proof.
  assert (Hfile : forall b, stat fsys p = inr (File b) ->
            read_json fsys p encoding room
            = match decode encoding b with
              | inl e => inl e
              | inr text => json_loads room text
              end).
  { intros b Hb. unfold read_json, read_bytes.
    rewrite (stat_exists _ _ _ Hb), Hb. reflexivity. }
  split.
  { intros H. unfold read_json. rewrite H. reflexivity. }
  split; [exact Hfile|].
  split; [|split].
  - intros b text r Hb Hd Hl. rewrite (Hfile b Hb), Hd, Hl. reflexivity.
  - intros b text r Hb Hd Hl. rewrite (Hfile b Hb), Hd, Hl. reflexivity.
  - intros Hd. unfold read_json, read_bytes.
    rewrite (stat_exists _ _ _ Hd), Hd. reflexivity.
Qed.

Lemma read_json_contract_witness :
  read_json ∅ ["data"; "cfg.json"] utf_8 64 = inl FileNotFoundError
  /\ read_json {[ ["cfg.json"] := File "[1, 2]" ]} ["cfg.json"] utf_8 64
     = inr (PList [PInt 1; PInt 2])
  /\ read_json {[ ["cfg.json"] := File "[1, 2" ]} ["cfg.json"] utf_8 64
     = inl JSONDecodeError.
Proof.
  split; [|split].
  - apply (read_json_contract ∅ ["data"; "cfg.json"] utf_8 64). reflexivity.
  - apply (read_json_contract {[ ["cfg.json"] := File "[1, 2]" ]}
             ["cfg.json"] utf_8 64) with (b := "[1, 2]") (text := "[1, 2]");
      reflexivity.
  - apply (read_json_contract {[ ["cfg.json"] := File "[1, 2" ]}
             ["cfg.json"] utf_8 64) with (b := "[1, 2") (text := "[1, 2");
      reflexivity.
Defined.

(** A directory is a path that exists, and [read_json] neither parses nor
    returns anything there. *)
Example read_json_existing_directory :
  path_exists {[ ["data"] := Dir ]} ["data"] = true
  /\ read_json {[ ["data"] := Dir ]} ["data"] utf_8 64
     = inl IsADirectoryError.
Proof. split; reflexivity. Qed.

End ReadFacts.

(** ** Writing *)

Module WriteFacts.
Import Py Json OS FileIO WriteSteps.

(** *** What the filesystem steps touch *)

Lemma mkstemp_fresh (fsys : fs) dir pre suf names tmp fs2 :
  mkstemp fsys dir pre suf names = inr (tmp, fs2) ->
  fsys !! tmp = None
  /\ fs2 = <[tmp := File EmptyString]> fsys
  /\ exists n, n ∈ names /\ tmp = (dir ++ [(pre ++ n ++ suf)%string])%list.
Proof.
  induction names as [|n rest IH]; simpl; [discriminate|].
  set (file := (dir ++ [(pre ++ n ++ suf)%string])%list).
  assert (Hrec : mkstemp fsys dir pre suf rest = inr (tmp, fs2) ->
            fsys !! tmp = None
            /\ fs2 = <[tmp := File EmptyString]> fsys
            /\ exists m, m ∈ n :: rest
                 /\ tmp = (dir ++ [(pre ++ m ++ suf)%string])%list).
  { intros H. destruct (IH H) as (? & ? & m & ? & ?).
    split; [done|]. split; [done|]. exists m. split; [by right|done]. }
  unfold open_excl.
  destruct (dir_ok fsys (parent file)) as [err|[]].
  - destruct err; try discriminate. exact Hrec.
  - destruct (node_at fsys file) eqn:E; [exact Hrec|].
    intros [= <- <-]. split.
    + unfold node_at in E. destruct file eqn:E2; [|done].
      subst file. by destruct dir.
    + split; [done|]. exists n. split; [by left|done].
Qed.

Lemma os_mkdir_lookup (fsys fs1 : fs) (q r : path) :
  os_mkdir fsys q = inr fs1 -> r <> q -> fs1 !! r = fsys !! r.
Proof.
  unfold os_mkdir. destruct q as [|c q']; [discriminate|].
  destruct (dir_ok _ _); [discriminate|].
  destruct (node_at _ _); [discriminate|].
  intros [= <-] Hne. by rewrite lookup_insert_ne.
Qed.

Lemma parent_length (q : path) : length (parent q) <= length q.
Proof.
  unfold parent. induction q as [|c q IH]; simpl; [lia|].
  destruct q; simpl in *; lia.
Qed.

(** Creating a directory and its ancestors leaves every longer path alone. *)
Lemma path_mkdir_lookup (fuel : nat) :
  forall (b1 b2 : bool) (fsys fs1 : fs) (q r : path),
    path_mkdir fuel b1 b2 fsys q = inr fs1 ->
    length q < length r -> fs1 !! r = fsys !! r.
Proof.
  induction fuel as [|f IH]; intros b1 b2 fsys fs1 q r; simpl.
  - destruct (os_mkdir fsys q) as [err|fs'] eqn:E.
    + destruct err; try (destruct (negb b2 || negb (is_dir fsys q));
        [discriminate|by intros [= <-]]).
      destruct (negb b1 || bool_decide (parent q = q)); discriminate.
    + intros [= <-] Hl. eapply os_mkdir_lookup; [done|]. intros ->. lia.
  - destruct (os_mkdir fsys q) as [err|fs'] eqn:E.
    + destruct err; try (destruct (negb b2 || negb (is_dir fsys q));
        [discriminate|by intros [= <-]]).
      destruct (negb b1 || bool_decide (parent q = q)); [discriminate|].
      destruct (path_mkdir f true true fsys (parent q)) as [?|fs0] eqn:E1;
        [discriminate|].
      intros H2 Hl. rewrite (IH _ _ _ _ _ r H2 Hl).
      apply (IH _ _ _ _ _ r E1). pose proof (parent_length q). lia.
    + intros [= <-] Hl. eapply os_mkdir_lookup; [done|]. intros ->. lia.
Qed.

Lemma parent_shorter (p : path) : p <> [] -> length (parent p) < length p.
Proof.
  unfold parent. induction p as [|c p IH]; [done|]. intros _.
  destruct p; simpl in *; [lia|].
  assert (H : length (List.removelast (s :: p)) < S (length p)) by (apply IH; done).
  simpl in H. lia.
Qed.

Lemma make_parents_target (cp : bool) (e : env) (fsys fs1 : fs) (p : path) :
  make_parents cp e fsys p = inr fs1 -> fs1 !! p = fsys !! p.
Proof.
  unfold make_parents. destruct cp; [|by intros [= <-]].
  unfold raise_if. destruct (f_mkdir e); [discriminate|].
  destruct p as [|c p'].
  - simpl. unfold os_mkdir. simpl. by intros [= <-].
  - intros H. eapply path_mkdir_lookup; [exact H|].
    apply parent_shorter. done.
Qed.

(** *** Path resolution *)

Lemma walk_snoc (fsys : fs) (rest : list string) :
  forall (cur : path) (c : string),
    walk fsys cur (rest ++ [c])%list
    = match walk fsys cur rest with
      | inr Dir =>
          match node_at fsys (cur ++ rest ++ [c])%list with
          | Some n => inr n
          | None => inl FileNotFoundError
          end
      | inr (File _) => inl NotADirectoryError
      | inl e => inl e
      end.
Proof.
  induction rest as [|d rest IH]; intros cur c; simpl.
  - destruct (node_at fsys cur) as [[?|]|]; reflexivity.
  - destruct (node_at fsys cur) as [[?|]|]; try reflexivity.
    rewrite IH. by rewrite <- !app_assoc.
Qed.

(** Resolving a path in terms of resolving its parent. *)
Lemma stat_snoc (fsys : fs) (q : path) (c : string) :
  stat fsys (q ++ [c])%list
  = match stat fsys q with
    | inr Dir =>
        match fsys !! (q ++ [c])%list with
        | Some n => inr n
        | None => inl FileNotFoundError
        end
    | inr (File _) => inl NotADirectoryError
    | inl e => inl e
    end.
Proof.
  unfold stat. rewrite walk_snoc. simpl.
  destruct (walk fsys [] q) as [|[|]]; try reflexivity.
  unfold node_at. by destruct (q ++ [c])%list eqn:E; [destruct q|].
Qed.

Lemma path_split (p : path) :
  p <> [] -> p = (parent p ++ [name p])%list.
Proof. intros H. unfold parent, name. by apply app_removelast_last. Qed.

(** Resolution of [r] only looks at the paths that are not longer than [r]. *)
Lemma stat_ext (fsys fs' : fs) (r : path) :
  (forall q, length q <= length r -> fs' !! q = fsys !! q) ->
  stat fs' r = stat fsys r.
Proof.
  induction r as [|c r IH] using rev_ind; intros H; [reflexivity|].
  rewrite !stat_snoc. rewrite IH.
  - rewrite (H (r ++ [c])%list) by lia. reflexivity.
  - intros q Hq. apply H. rewrite length_app. simpl. lia.
Qed.

Lemma dir_ok_stat (fsys : fs) (d : path) (u : unit) :
  dir_ok fsys d = inr u -> stat fsys d = inr Dir.
Proof.
  unfold dir_ok. destruct (stat fsys d) as [|[|]]; try discriminate. done.
Qed.

(** A file put where the parent resolves to a directory resolves to itself. *)
Lemma stat_file_in_dir (fsys : fs) (p : path) (b : string) :
  p <> [] -> stat fsys (parent p) = inr Dir ->
  fsys !! p = Some (File b) -> stat fsys p = inr (File b).
Proof.
  intros Hp Hd Hl. pose proof (stat_snoc fsys (parent p) (name p)) as E.
  rewrite <- (path_split p Hp) in E. rewrite E, Hd.
  unfold path in *. by rewrite Hl.
Qed.

End WriteFacts.

(** ** The atomic branch of [write_json] *)

Module AtomicFacts.
Import Py Json OS FileIO WriteSteps WriteFacts.

(** How the atomic branch ends once the temporary file exists and the [try]
    block has failed. *)
Lemma write_json_atomic_failure fsys p data encoding indent ea cp default e
    fs1 tmp fs2 err :
  make_parents cp e fsys p = inr fs1 ->
  make_temp e fs1 p = inr (tmp, fs2) ->
  atomic_body e encoding indent ea default data = Some err ->
  write_json fsys p data encoding indent ea cp true default e
  = (inl (match f_close e with Some cerr => cerr | None => err end),
     match f_unlink e with
     | Some _ =>
         <[tmp := File (dump_and_newline e encoding indent ea default data).1]>
           fs2
     | None => fs1
     end).
Proof.
  unfold make_parents, make_temp, atomic_body, write_json.
  intros H1 H2 H3. rewrite H1. simpl. rewrite H2.
  destruct (dump_and_newline e encoding indent ea default data) as [b res].
  simpl in *.
  assert (Hfresh : delete tmp (<[tmp := File b]> fs2) = fs1).
  { unfold raise_if in H2. destruct (f_open e); [discriminate|].
    destruct (mkstemp_fresh _ _ _ _ _ _ _ H2) as (Hn & -> & _).
    rewrite insert_insert_eq, delete_insert_eq. by apply delete_id. }
  destruct res as [err0|].
  - injection H3 as ->. rewrite Hfresh.
    destruct (f_unlink e), (f_close e); reflexivity.
  - destruct (f_flush e) as [err0|].
    + injection H3 as ->. rewrite Hfresh.
      destruct (f_unlink e), (f_close e); reflexivity.
    + rewrite H3. rewrite Hfresh.
      destruct (f_unlink e), (f_close e); reflexivity.
Qed.

Lemma string_length_app (a b : string) :
  String.length (a ++ b) = String.length a + String.length b.
Proof. induction a as [|c a IH]; simpl; [done|]. by rewrite IH. Qed.

(** The temporary file is never the target: its name is longer. *)
Lemma temp_is_not_target (fsys fs2 : fs) (p tmp : path) suf names :
  mkstemp fsys (parent p) ("." ++ name p ++ ".") suf names = inr (tmp, fs2) ->
  tmp <> p.
Proof.
  intros H. destruct (mkstemp_fresh _ _ _ _ _ _ _ H) as (_ & _ & n & _ & Htmp).
  intros ->. destruct p as [|c p']; [by destruct (parent [])|].
  assert (Hp : c :: p' = (parent (c :: p') ++ [name (c :: p')])%list).
  { unfold parent, name. by apply app_removelast_last. }
  rewrite Hp in Htmp at 1. apply app_inj_tail in Htmp as [_ Hn].
  apply (f_equal String.length) in Hn.
  rewrite !string_length_app in Hn. simpl in Hn. lia.
Qed.

(** C1, as the code has it.  When an atomic write fails in serialization,
    flush or [fsync] after the temporary file was created, the call raises;
    the target path holds what it held before (or still nothing); if
    closing the temporary file does not fail, the exception raised is the
    original one; and if deleting it does not fail, the filesystem is
    exactly the one left by the creation of the parent directories, with no
    temporary file in it. *)
Theorem atomic_failure_leaves_target fsys p data encoding indent ea cp
    default e fs1 tmp fs2 err :
  make_parents cp e fsys p = inr fs1 ->
  make_temp e fs1 p = inr (tmp, fs2) ->
  atomic_body e encoding indent ea default data = Some err ->
  let r := write_json fsys p data encoding indent ea cp true default e in
  (exists raised, r.1 = inl raised)
  /\ r.2 !! p = fsys !! p
  /\ (f_close e = None -> r.1 = inl err)
  /\ (f_unlink e = None -> r.2 = fs1 /\ r.2 !! tmp = None).
Proof.
  intros H1 H2 H3 r. subst r.
  rewrite (write_json_atomic_failure _ _ _ _ _ _ _ _ _ _ _ _ _ H1 H2 H3).
  simpl.
  assert (Hp : fs1 !! p = fsys !! p) by (eapply make_parents_target; eauto).
  unfold make_temp, raise_if in H2. destruct (f_open e); [discriminate|].
  pose proof (temp_is_not_target _ _ _ _ _ _ H2) as Hne.
  destruct (mkstemp_fresh _ _ _ _ _ _ _ H2) as (Hn & -> & _).
  split; [eauto|]. split.
  { destruct (f_unlink e); [|done].
    rewrite lookup_insert_ne by done. by rewrite lookup_insert_ne. }
  split.
  { intros ->. reflexivity. }
  intros ->. done.
Qed.

Lemma atomic_failure_leaves_target_witness :
  let r := write_json {[ ["cfg.json"] := File "[0]" ]} ["cfg.json"] (PInt 1)
             utf_8 (Some 2%Z) false true true None fsync_fails in
  r.1 = inl (OSError "EIO")
  /\ r.2 !! ["cfg.json"] = Some (File "[0]")
  /\ r.2 = {[ ["cfg.json"] := File "[0]" ]}.
Proof.
  pose proof (atomic_failure_leaves_target
                {[ ["cfg.json"] := File "[0]" ]} ["cfg.json"] (PInt 1)
                utf_8 (Some 2%Z) false true None fsync_fails
                {[ ["cfg.json"] := File "[0]" ]}
                [".cfg.json.k3x9q2ab.tmp"]
                (<[ [".cfg.json.k3x9q2ab.tmp"] := File EmptyString ]>
                   {[ ["cfg.json"] := File "[0]" ]})
                (OSError "EIO")) as H.
  destruct H as (_ & Hp & Hc & Hu); [vm_compute; reflexivity..|].
  split; [apply Hc; reflexivity|].
  split; [exact Hp|]. apply Hu. reflexivity.
Defined.

(** C1 as it is worded fails when the cleanup fails too: the [unlink] is
    refused, the refusal is suppressed, and the temporary file stays in the
    target's directory. *)
Lemma atomic_failure_stray_temp :
  let r := write_json ∅ ["cfg.json"] (PInt 1) utf_8 (Some 2%Z) false true true
             None dying_disk in
  atomic_body dying_disk utf_8 (Some 2%Z) false None (PInt 1)
  = Some (OSError "EIO")
  /\ r.1 = inl (OSError "EIO")
  /\ r.2 !! ["cfg.json"] = None
  /\ r.2 !! [".cfg.json.k3x9q2ab.tmp"] = Some (File (String "1" (str1 nl))).
Proof. vm_compute. repeat split. Qed.

(** And when closing the temporary file fails in the handler, the caller
    gets that failure and not the original one. *)
Lemma atomic_failure_close_masks :
  atomic_body full_disk utf_8 (Some 2%Z) false None (PInt 1)
  = Some (OSError "ENOSPC")
  /\ (write_json ∅ ["cfg.json"] (PInt 1) utf_8 (Some 2%Z) false true true
        None full_disk).1
     = inl (OSError "ENOSPC on close").
Proof. vm_compute. repeat split. Qed.

End AtomicFacts.

(** ** The encoder's chunks and the text they add up to *)

Module ChunkFacts.
Import Py Json OS FileIO Chunks.
#[local] Arguments String.append !_ _ / : simpl nomatch.

Lemma app_assoc_s (a b c : string) : ((a ++ b) ++ c = a ++ (b ++ c))%string.
Proof. induction a as [|x a IH]; simpl; [done|]. by rewrite IH. Qed.

Lemma app_nil_s (a : string) : (a ++ EmptyString)%string = a.
Proof. induction a as [|x a IH]; simpl; [done|]. by rewrite IH. Qed.

Lemma join_app (a b : list string) :
  join (a ++ b) = (join a ++ join b)%string.
Proof.
  induction a as [|x a IH]; simpl; [done|]. by rewrite IH, app_assoc_s.
Qed.

Lemma text_yield (s : string) : text_of (yield s) = emit s.
Proof. unfold text_of, yield, emit. simpl. by rewrite app_nil_s. Qed.

Lemma text_stop (e : exn) : text_of (stop e) = fail e.
Proof. reflexivity. Qed.

Lemma text_then (a b : chunks) :
  text_of (then_ a b) = seq (text_of a) (text_of b).
Proof.
  destruct a as [ca [e|]], b as [cb rb]; unfold text_of, then_, seq; simpl;
    [done|]. by rewrite join_app.
Qed.

Lemma text_nothing : text_of ([], None) = emit EmptyString.
Proof. reflexivity. Qed.

Lemma seq_assoc (a b c : out) : seq (seq a b) c = seq a (seq b c).
Proof.
  destruct a as [sa [ea|]], b as [sb [eb|]], c as [sc ec]; unfold seq; simpl;
    try done; by rewrite app_assoc_s.
Qed.

Lemma seq_emit_emit (a b : string) : seq (emit a) (emit b) = emit (a ++ b).
Proof. reflexivity. Qed.

Lemma seq_emit_nil (a : out) : seq (emit EmptyString) a = a.
Proof. by destruct a. Qed.

Lemma seq_nil_emit (a : out) : seq a (emit EmptyString) = a.
Proof. destruct a as [s [e|]]; unfold seq; simpl; [done|]. by rewrite app_nil_s. Qed.

Lemma seq_emit2 (a b : string) (x : out) :
  seq (emit a) (seq (emit b) x) = seq (emit (a ++ b)) x.
Proof. by rewrite <- seq_assoc. Qed.

Ltac norm_seq :=
  rewrite ?seq_assoc; rewrite ?seq_emit2, ?seq_emit_emit;
  rewrite ?app_assoc_s; try reflexivity.

Section Encoder.
Variable default : pyval -> exn + pyval.
Variable ea : bool.
Variable ind : option Z.

Lemma text_list_item (buf : string) (o : pyval) (r : chunks) :
  text_of (list_item ea buf o r) = seq (emit buf) (text_of r).
Proof.
  unfold list_item.
  destruct (scalar_text ea o); [|by rewrite text_then, text_yield].
  destruct r as [[|t [|t' cs]] [e|]];
    try (by rewrite text_then, text_yield).
  unfold text_of, seq, emit. simpl. by rewrite !app_nil_s.
Qed.

Lemma text_list_chunks (cenc : pyval -> chunks) (tenc : pyval -> out) :
  (forall v, text_of (cenc v) = tenc v) ->
  forall (l : list pyval) (buf sep : string),
    text_of (list_chunks ea cenc buf sep l) = encode_items tenc buf sep l.
Proof.
  intros H. induction l as [|v r IH]; intros buf sep; [reflexivity|].
  cbn [list_chunks encode_items].
  rewrite text_then, text_list_item, H, IH. norm_seq.
Qed.

Lemma encode_items_open {A} (enc : A -> out) (a b sep : string) (v : A)
    (r : list A) :
  encode_items enc (a ++ b) sep (v :: r)
  = seq (emit a) (encode_items enc b sep (v :: r)).
Proof.
  cbn [encode_items]. norm_seq.
Qed.

Lemma text_dict_chunks (cenc : pyval -> chunks) (tenc : pyval -> out) :
  (forall v, text_of (cenc v) = tenc v) ->
  forall (kvs : list (atom * pyval)) (sep : string),
    text_of (dict_chunks ea cenc false sep kvs)
    = encode_items
        (fun kv : atom * pyval =>
           seq (emit (encode_str ea (key_str kv.1) ++ key_separator))
             (tenc kv.2)) sep sep kvs.
Proof.
  intros H. induction kvs as [|kv r IH]; intros sep; [reflexivity|].
  cbn [dict_chunks encode_items].
  rewrite !text_then, !text_yield, H, IH. norm_seq.
Qed.

Lemma text_dict_first (cenc : pyval -> chunks) (tenc : pyval -> out)
    (kv : atom * pyval) (r : list (atom * pyval)) (first sep : string) :
  (forall v, text_of (cenc v) = tenc v) ->
  seq (emit first) (text_of (dict_chunks ea cenc true sep (kv :: r)))
  = encode_items
      (fun kv : atom * pyval =>
         seq (emit (encode_str ea (key_str kv.1) ++ key_separator))
           (tenc kv.2)) first sep (kv :: r).
Proof.
  intros H. cbn [dict_chunks encode_items].
  rewrite !text_then, !text_yield, H, (text_dict_chunks _ _ H).
  rewrite text_nothing, seq_emit_nil. norm_seq.
Qed.

Lemma text_closing (level : nat) (bracket : string) :
  text_of (closing ind level bracket)
  = emit (newline_indent ind level ++ bracket).
Proof.
  unfold closing, newline_indent. destruct ind.
  - by rewrite text_then, !text_yield.
  - by rewrite text_yield.
Qed.

Lemma text_indent_chunk (level : nat) :
  text_of (match ind with
           | None => ([], None)
           | Some _ => yield (newline_indent ind (S level))
           end)
  = emit (newline_indent ind (S level)).
Proof. unfold newline_indent. destruct ind; [apply text_yield|reflexivity]. Qed.

(** The chunks add up to the text, and end with the same exception. *)
Lemma chunks_text (fuel : nat) :
  forall (o : pyval) (level : nat),
    text_of (iterencode_chunks default ea ind fuel o level)
    = iterencode default ea ind fuel o level.
Proof.
  induction fuel as [|f IH]; intros o level; [reflexivity|].
  assert (Hlist : forall v r,
            text_of (then_
                       (list_chunks ea
                          (fun v => iterencode_chunks default ea ind f v
                                      (S level))
                          ("[" ++ newline_indent ind (S level))
                          (item_separator ind ++ newline_indent ind (S level))
                          (v :: r))
                       (closing ind level "]"))
            = seq (emit "[")
                (seq (encode_items
                        (fun v => iterencode default ea ind f v (S level))
                        (newline_indent ind (S level))
                        (item_separator ind ++ newline_indent ind (S level))
                        (v :: r))
                   (emit (newline_indent ind level ++ "]")))).
  { intros v r.
    rewrite text_then, text_closing.
    rewrite (text_list_chunks _ _ (fun v => IH v (S level))).
    rewrite encode_items_open. norm_seq. }
  destruct o as [| [|] | | |l |l |kvs | | | |]; cbn [iterencode_chunks iterencode];
    try apply text_yield;
    try (destruct (default _) as [e|o']; [apply text_stop|apply IH]).
  - destruct l as [|v r]; [apply text_yield|apply Hlist].
  - destruct l as [|v r]; [apply text_yield|apply Hlist].
  - destruct kvs as [|kv r]; [apply text_yield|].
    rewrite !text_then, text_yield, text_closing, text_indent_chunk.
    rewrite <- (seq_assoc (emit (newline_indent ind (S level)))).
    by rewrite (text_dict_first _ _ kv r _ _ (fun v => IH v (S level))).
Qed.

Lemma json_dump_chunks_text (room : nat) (o : pyval) :
  text_of (json_dump_chunks default ea ind room o)
  = json_dump default ea ind room o.
Proof. apply chunks_text. Qed.

End Encoder.

(** Writing chunk by chunk, when every chunk can be encoded, writes the
    encoding of the whole text. *)
Lemma write_chunks_ok (enc : codec) (cs : list string) :
  forall (content b : string),
    write_chunks enc content cs = (b, None) ->
    exists b', encode_text enc (join cs) = (b', None)
               /\ b = (content ++ b')%string.
Proof.
  induction cs as [|c r IH]; intros content b; cbn [write_chunks join fold_right].
  - intros [= <-]. exists EmptyString. by rewrite app_nil_s.
  - unfold fp_write. destruct (encode_text enc c) as [bc [e|]] eqn:Ec;
      [discriminate|].
    intros H. destruct (IH _ _ H) as (b' & Hb' & ->).
    exists (bc ++ b')%string. split; [|by rewrite app_assoc_s].
    assert (Happ : forall t1 t2 b1 b2,
              encode_text enc t1 = (b1, None) ->
              encode_text enc t2 = (b2, None) ->
              encode_text enc (t1 ++ t2) = ((b1 ++ b2)%string, None)).
    { induction t1 as [|a t1 IHt]; intros t2 b1 b2; cbn [encode_text].
      - intros [= <-] H2. simpl. exact H2.
      - simpl. destruct (encode_char enc a) as [ba|]; [|discriminate].
        destruct (encode_text enc t1) as [b1' [e1|]] eqn:E1; [discriminate|].
        intros [= <-] H2. rewrite (IHt t2 b1' b2 eq_refl H2).
        by rewrite app_assoc_s. }
    by apply Happ.
Qed.

(** The bytes written chunk by chunk extend what the file held. *)
Lemma write_chunks_extends (enc : codec) (cs : list string) :
  forall content,
    exists b', (write_chunks enc content cs).1 = (content ++ b')%string.
Proof.
  induction cs as [|c r IH]; intros content; cbn [write_chunks].
  - exists EmptyString. by rewrite app_nil_s.
  - unfold fp_write. destruct (encode_text enc c) as [bc [e|]].
    + exists EmptyString. by rewrite app_nil_s.
    + destruct (IH (content ++ bc)%string) as [b' Hb'].
      exists (bc ++ b')%string. by rewrite Hb', app_assoc_s.
Qed.

End ChunkFacts.

(** ** What a successful write leaves at the target *)

Module ContentFacts.
Import Py Json OS FileIO WriteSteps WriteFacts AtomicFacts.
#[local] Arguments String.append !_ _ / : simpl nomatch.

Lemma string_app_assoc (a b c : string) : ((a ++ b) ++ c = a ++ (b ++ c))%string.
Proof. induction a as [|x a IH]; simpl; [done|]. by rewrite IH. Qed.

Lemma encode_text_app (enc : codec) (t1 t2 : string) :
  encode_text enc (t1 ++ t2)
  = match encode_text enc t1 with
    | (b1, Some e) => (b1, Some e)
    | (b1, None) => let (b2, e) := encode_text enc t2 in ((b1 ++ b2)%string, e)
    end.
Proof.
  induction t1 as [|a t1 IH]; simpl.
  - by destruct (encode_text enc t2).
  - destruct (encode_char enc a) as [b|]; [|done]. rewrite IH.
    destruct (encode_text enc t1) as [b1 [e|]]; [done|].
    destruct (encode_text enc t2) as [b2 e]. simpl.
    by rewrite string_app_assoc.
Qed.

(** The bytes of a completed dump are the encoding of the serialized text
    and a newline. *)
Lemma dump_and_newline_ok e enc indent ea default data b :
  dump_and_newline e enc indent ea default data = (b, None) ->
  exists text,
    json_dump (default_or default) ea indent (stack_room e) data
    = (text, None)
    /\ encode_text enc (text ++ str1 nl) = (b, None).
Proof.
  unfold dump_and_newline.
  pose proof (ChunkFacts.json_dump_chunks_text (default_or default) ea indent
                (stack_room e) data) as Ht.
  destruct (json_dump_chunks _ _ _ _ _) as [cs res]. unfold Chunks.text_of in Ht.
  cbn [fst snd] in Ht. rewrite <- Ht. intros H. exists (join cs).
  assert (Hw : exists b1,
             write_chunks enc EmptyString cs = (b1, None) /\ res = None
             /\ fp_write enc b1 (str1 nl) = (b, None)).
  { destruct cs as [|c cs], res as [err|]; try discriminate;
      destruct (f_write e); try discriminate;
      destruct (write_chunks enc EmptyString _) as [b1 [w|]];
      try discriminate; eauto. }
  destruct Hw as (b1 & Hw & -> & Hn). split; [reflexivity|].
  destruct (ChunkFacts.write_chunks_ok _ _ _ _ Hw) as (b' & Hb' & ->).
  rewrite encode_text_app, Hb'. unfold fp_write in Hn.
  destruct (encode_text enc (str1 nl)) as [bn [e1|]]; [discriminate|].
  by injection Hn as <-.
Qed.

Lemma parent_length_S (p : path) : p <> [] -> length p = S (length (parent p)).
Proof.
  intros H. rewrite (path_split p H) at 1. rewrite length_app. simpl. lia.
Qed.

(** After a successful write, in either mode, the target resolves to a
    regular file whose bytes encode the text the serializer produced with
    the effective fallback encoder, and a newline. *)
Lemma write_json_success fsys p data enc indent ea cp atomic default e fs' :
  write_json fsys p data enc indent ea cp atomic default e = (inr tt, fs') ->
  exists text b,
    json_dump (default_or default) ea indent (stack_room e) data
    = (text, None)
    /\ encode_text enc (text ++ str1 nl) = (b, None)
    /\ stat fs' p = inr (File b).
Proof.
  unfold write_json.
  destruct (if cp then _ else _) as [?|fs1]; [discriminate|].
  destruct atomic; simpl.
  - destruct (raise_if (f_open e) _) as [?|[tmp fs2]] eqn:Etmp; [discriminate|].
    destruct (dump_and_newline e enc indent ea default data) as [b res] eqn:Ed.
    destruct res as [?|]; [destruct (f_unlink e), (f_close e); discriminate|].
    destruct (f_flush e); [destruct (f_unlink e), (f_close e); discriminate|].
    destruct (f_fsync e); [destruct (f_unlink e), (f_close e); discriminate|].
    destruct (f_close e); [discriminate|].
    destruct (raise_if (f_replace e) _) as [?|fs4] eqn:Er; [discriminate|].
    intros [= <-].
    destruct (dump_and_newline_ok _ _ _ _ _ _ _ Ed) as (text & Ht & Hb).
    exists text, b. split; [done|]. split; [done|].
    unfold raise_if in Er, Etmp.
    destruct (f_replace e); [discriminate|]. destruct (f_open e); [discriminate|].
    unfold os_replace in Er. rewrite lookup_insert_eq in Er.
    destruct (dir_ok _ (parent p)) as [?|u] eqn:Edir; [discriminate|].
    assert (Hp : p <> []).
    { intros ->. simpl in Er. discriminate. }
    destruct (mkstemp_fresh _ _ _ _ _ _ _ Etmp) as (_ & _ & n & _ & Htmp).
    assert (Hfs4 : fs4 = <[p := File b]> (delete tmp (<[tmp := File b]> fs2))).
    { destruct (node_at _ p) as [[?|]|]; by simplify_eq. }
    subst fs4. apply stat_file_in_dir; [done| |by rewrite lookup_insert_eq].
    rewrite <- (dir_ok_stat _ _ _ Edir). apply stat_ext. intros q Hq.
    pose proof (parent_length_S p Hp).
    assert (length tmp = S (length (parent p))).
    { rewrite Htmp, length_app. simpl. lia. }
    rewrite lookup_insert_ne by (intros ->; lia).
    rewrite lookup_delete_ne by (intros ->; lia). done.
  - destruct (raise_if (f_open e) _) as [?|fs2] eqn:Eo; [discriminate|].
    destruct (dump_and_newline e enc indent ea default data) as [b res] eqn:Ed.
    destruct res as [?|]; [destruct (f_close e); discriminate|].
    destruct (f_close e); [discriminate|].
    intros [= <-].
    destruct (dump_and_newline_ok _ _ _ _ _ _ _ Ed) as (text & Ht & Hb).
    exists text, b. split; [done|]. split; [done|].
    unfold raise_if in Eo. destruct (f_open e); [discriminate|].
    unfold open_w in Eo.
    destruct (dir_ok _ (parent p)) as [?|u] eqn:Edir; [discriminate|].
    assert (Hp : p <> []).
    { intros ->. simpl in Eo. discriminate. }
    assert (Hfs2 : fs2 = <[p := File EmptyString]> fs1).
    { destruct (node_at _ p) as [[?|]|]; by simplify_eq. }
    subst fs2. apply stat_file_in_dir; [done| |by rewrite lookup_insert_eq].
    rewrite <- (dir_ok_stat _ _ _ Edir). apply stat_ext. intros q Hq.
    pose proof (parent_length_S p Hp).
    rewrite !lookup_insert_ne by (intros ->; lia). done.
Qed.

End ContentFacts.

(** ** The fallback encoder in the serializer, and the rename that fails *)

Module DefaultFacts.
Import Py Json OS FileIO WriteSteps Values WriteFacts AtomicFacts ContentFacts.

(** The encoder hands an unsupported value to [default] and goes on with
    what it returns. *)
Lemma iterencode_unsupported dflt ea ind fuel o level :
  unsupported o = true ->
  iterencode dflt ea ind (S fuel) o level
  = match dflt o with
    | inl err => fail err
    | inr o' => iterencode dflt ea ind fuel o' level
    end.
Proof. destruct o; try discriminate; reflexivity. Qed.

(** The same value with no encoder given goes through the default chain. *)
Example default_chain_when_none :
  (write_json ∅ ["out.json"] (PList [PSet [AInt 3; AInt 1]]) utf_8 None false
     true true None (no_faults ["k3x9q2ab"] 64)).2 !! ["out.json"]
  = Some (File ("[[1, 3]]" ++ str1 nl))
  /\ (write_json ∅ ["out.json"] (PList [PSet [AInt 3; AInt 1]]) utf_8 None
        false true true (Some custom_default) (no_faults ["k3x9q2ab"] 64)).2
     !! ["out.json"]
     = Some (File (String "[" (String dquote
                     ("custom" ++ String dquote (String "]" (str1 nl)))))).
Proof. vm_compute. split; reflexivity. Qed.

(** C3 fails on the code: [os.replace] runs after the [with] block, outside
    the cleanup.  Writing to a path that is a directory makes it raise, and
    the temporary file, fully written, stays behind. *)
Theorem atomic_replace_failure_leaves_temp :
  let r := write_json {[ ["reports"] := Dir ]} ["reports"] (PInt 1) utf_8
             (Some 2%Z) false true true None (no_faults ["k3x9q2ab"] 64) in
  r.1 = inl IsADirectoryError
  /\ r.2 !! ["reports"] = Some Dir
  /\ r.2 !! [".reports.k3x9q2ab.tmp"] = Some (File (String "1" (str1 nl))).
Proof. vm_compute. repeat split. Qed.

(** In general: once the [try] block is through, a failing close or a
    failing rename ends the call with the temporary file still there. *)
Lemma atomic_late_failure_keeps_temp fsys p data enc indent ea cp default e
    fs1 tmp fs2 :
  make_parents cp e fsys p = inr fs1 ->
  make_temp e fs1 p = inr (tmp, fs2) ->
  atomic_body e enc indent ea default data = None ->
  forall err fs',
    write_json fsys p data enc indent ea cp true default e = (inl err, fs') ->
    fs' !! tmp
    = Some (File (dump_and_newline e enc indent ea default data).1).
Proof.
  unfold make_parents, make_temp, atomic_body, write_json.
  intros H1 H2 H3 err fs'. rewrite H1. simpl. rewrite H2.
  destruct (dump_and_newline e enc indent ea default data) as [b res].
  simpl in *. destruct res; [discriminate|].
  destruct (f_flush e); [discriminate|]. rewrite H3.
  destruct (f_close e).
  - intros [= _ <-]. by rewrite lookup_insert_eq.
  - destruct (raise_if (f_replace e) _); [|discriminate].
    intros [= _ <-]. by rewrite lookup_insert_eq.
Qed.

End DefaultFacts.

(** ** Parent directories *)

Module ParentFacts.
Import Py Json OS FileIO WriteSteps Wf WriteFacts AtomicFacts ContentFacts.

Lemma parent_snoc (q : path) (c : string) : parent (q ++ [c])%list = q.
Proof. unfold parent. apply removelast_last. Qed.

Lemma stat_root (fsys : fs) : stat fsys [] = inr Dir.
Proof. reflexivity. Qed.

Lemma stat_node (fsys : fs) (q : path) (n : node) :
  stat fsys q = inr n -> node_at fsys q = Some n.
Proof.
  destruct q as [|c q _] using rev_ind; [by intros [= <-]|].
  rewrite stat_snoc. destruct (stat fsys q) as [|[|]]; try discriminate.
  unfold node_at. destruct (q ++ [c])%list eqn:E; [by destruct q|].
  unfold path in *. destruct (fsys !! (s :: l)); [|discriminate].
  by intros [= <-].
Qed.

Lemma stat_errors (fsys : fs) (q : path) (e : exn) :
  stat fsys q = inl e -> e = FileNotFoundError \/ e = NotADirectoryError.
Proof.
  induction q as [|c q IH] using rev_ind; [discriminate|].
  rewrite stat_snoc. destruct (stat fsys q) as [e'|[|]].
  - intros [= <-]. by apply IH.
  - intros [= <-]. by right.
  - unfold path in *. destruct (fsys !! (q ++ [c])%list); [discriminate|].
    intros [= <-]. by left.
Qed.




Lemma node_at_snoc (fsys : fs) (q : path) (c : string) :
  node_at fsys (q ++ [c])%list = fsys !! (q ++ [c])%list.
Proof. unfold node_at. by destruct (q ++ [c])%list eqn:E; [destruct q|]. Qed.

Lemma os_mkdir_snoc (fsys : fs) (q : path) (c : string) :
  os_mkdir fsys (q ++ [c])%list
  = match dir_ok fsys q with
    | inl e => inl e
    | inr _ =>
        match fsys !! (q ++ [c])%list with
        | Some _ => inl FileExistsError
        | None => inr (<[(q ++ [c])%list := Dir]> fsys)
        end
    end.
Proof.
  rewrite <- node_at_snoc. rewrite <- (parent_snoc q c) at 2.
  unfold os_mkdir. by destruct (q ++ [c])%list eqn:E; [destruct q|].
Qed.

Lemma path_mkdir_eq (fuel : nat) (b1 b2 : bool) (fsys : fs) (q : path) :
  path_mkdir fuel b1 b2 fsys q
  = match os_mkdir fsys q with
    | inr fs' => inr fs'
    | inl FileNotFoundError =>
        if negb b1 || bool_decide (parent q = q) then inl FileNotFoundError
        else
          match fuel with
          | O => inl RecursionError
          | S f =>
              match path_mkdir f true true fsys (parent q) with
              | inl e => inl e
              | inr fs1 => path_mkdir f false b2 fs1 q
              end
          end
    | inl e => if negb b2 || negb (is_dir fsys q) then inl e else inr fsys
    end.
Proof. destruct fuel; reflexivity. Qed.

(** A directory that is there is left as it is, with no error. *)
Lemma path_mkdir_existing (fuel : nat) (b1 : bool) (fsys : fs) (q : path) :
  stat fsys q = inr Dir -> path_mkdir fuel b1 true fsys q = inr fsys.
Proof.
  intros Hq. rewrite path_mkdir_eq.
  destruct q as [|c q _] using rev_ind; [reflexivity|].
  pose proof Hq as Hq'. rewrite stat_snoc in Hq'.
  assert (Ho : os_mkdir fsys (q ++ [c])%list = inl FileExistsError).
  { rewrite os_mkdir_snoc. unfold dir_ok.
    destruct (stat fsys q) as [|[|]]; try discriminate.
    unfold path in *. by destruct (fsys !! (q ++ [c])%list). }
  rewrite Ho. unfold is_dir. by rewrite Hq.
Qed.




Lemma name_snoc (q : path) (c : string) : name (q ++ [c])%list = c.
Proof. unfold name. apply last_last. Qed.

Lemma temp_name_differs (c n suf : string) :
  ((("." ++ c ++ ".") ++ n ++ suf)%string : string) <> c.
Proof.
  intros E. apply (f_equal String.length) in E.
  rewrite !string_length_app in E. simpl in E. lia.
Qed.







End ParentFacts.

(** ** String literals: written, then scanned *)

Module StringFacts.
Import Py Json OS JsonValue ContentFacts.
#[local] Arguments String.append !_ _ / : simpl nomatch.

Lemma scanstring_plain (a : ascii) (r : string) :
  a <> dquote -> a <> "\"%char -> (code a <? 32)%nat = false ->
  scanstring (String a r)
  = match scanstring r with
    | inl e => inl e
    | inr (t, rest) => inr (String a t, rest)
    end.
Proof.
  intros H1 H2 H3. cbn [scanstring].
  rewrite !bool_decide_eq_false_2 by done. by rewrite H3.
Qed.

Lemma scanstring_u (h1 h2 h3 h4 : ascii) (r : string) :
  scanstring (String "\" (String "u" (String h1 (String h2
                (String h3 (String h4 r))))))
  = match decode_uXXXX h1 h2 h3 h4 with
    | inl err => inl err
    | inr c =>
        match scanstring r with
        | inl e => inl e
        | inr (t, rest) => inr (String c t, rest)
        end
    end.
Proof. reflexivity. Qed.

Lemma decode_hex4 (a : ascii) :
  decode_uXXXX "0" "0" (hex_digit (code a / 16)) (hex_digit (code a mod 16))
  = inr a.
Proof. destruct a as [[] [] [] [] [] [] [] []]; vm_compute; reflexivity. Qed.

Lemma u_escape_app (a : ascii) (r : string) :
  ("\u" ++ hex4 a) ++ r
  = String "\" (String "u" (String "0" (String "0"
      (String (hex_digit (code a / 16))
         (String (hex_digit (code a mod 16)) r))))).
Proof. reflexivity. Qed.

(** One character, as the encoder writes it, scans back to itself. *)
Lemma scanstring_escape_char (ea : bool) (a : ascii) (r : string) :
  scanstring (escape_char ea a ++ r)
  = match scanstring r with
    | inl e => inl e
    | inr (t, rest) => inr (String a t, rest)
    end.
Proof.
  unfold escape_char.
  case_bool_decide as E1; [subst a; reflexivity|].
  case_bool_decide as E2; [subst a; reflexivity|].
  case_bool_decide as E3; [subst a; reflexivity|].
  case_bool_decide as E4; [subst a; reflexivity|].
  case_bool_decide as E5; [subst a; reflexivity|].
  case_bool_decide as E6; [subst a; reflexivity|].
  case_bool_decide as E7; [subst a; reflexivity|].
  destruct (code a <? 32)%nat eqn:E8.
  { rewrite u_escape_app. by rewrite scanstring_u, decode_hex4. }
  destruct (ea && (126 <? code a)%nat).
  { rewrite u_escape_app. by rewrite scanstring_u, decode_hex4. }
  simpl. by apply scanstring_plain.
Qed.

Lemma scanstring_escape_chars (ea : bool) (s rest : string) :
  scanstring (escape_chars ea s ++ String dquote rest) = inr (s, rest).
Proof.
  induction s as [|a s IH]; [reflexivity|].
  simpl escape_chars. rewrite string_app_assoc, scanstring_escape_char.
  by rewrite IH.
Qed.

(** A string literal scans back to the string, for both settings of
    [ensure_ascii]. *)
Lemma scanstring_encode_str (ea : bool) (s rest : string) :
  exists t,
    encode_str ea s = String dquote t
    /\ scanstring (t ++ rest) = inr (s, rest).
Proof.
  exists (escape_chars ea s ++ str1 dquote). split; [reflexivity|].
  rewrite string_app_assoc. apply scanstring_escape_chars.
Qed.

End StringFacts.

(** ** Integers: written, then scanned *)

Module NumberFacts.
Import Py Json OS JsonValue ContentFacts.
#[local] Arguments String.append !_ _ / : simpl nomatch.
#[local] Open Scope Z_scope.

Lemma digit_cases (d : Z) :
  0 <= d <= 9 ->
  d = 0 \/ d = 1 \/ d = 2 \/ d = 3 \/ d = 4 \/ d = 5 \/ d = 6 \/ d = 7
  \/ d = 8 \/ d = 9.
Proof. lia. Qed.

Lemma digit_char_is_digit (d : Z) :
  0 <= d <= 9 ->
  is_digit (digit_char d) = true
  /\ Z.of_nat (code (digit_char d) - 48) = d.
Proof.
  intros H. destruct (digit_cases d H) as [->|[->|[->|[->|[->|[->|[->|[->|[->| ->]]]]]]]]];
    split; reflexivity.
Qed.

Lemma digit_char_nonzero (d : Z) :
  1 <= d <= 9 ->
  digit_char d <> "0"%char /\ digit_char d <> "-"%char
  /\ digit_char d <> dquote /\ digit_char d <> "{"%char
  /\ digit_char d <> "["%char /\ digit_char d <> "n"%char
  /\ digit_char d <> "t"%char /\ digit_char d <> "f"%char
  /\ digit_char d <> "N"%char /\ digit_char d <> "I"%char.
Proof.
  intros H.
  assert (H' : 0 <= d <= 9) by lia.
  destruct (digit_cases d H') as [->|[->|[->|[->|[->|[->|[->|[->|[->| ->]]]]]]]]];
    try lia; repeat split; discriminate.
Qed.

Lemma app_String (c : ascii) (s r : string) :
  (String c s ++ r)%string = String c (s ++ r).
Proof. reflexivity. Qed.

Lemma scan_digits_cons (a : Z) (c : ascii) (r : string) :
  is_digit c = true ->
  scan_digits a (String c r)
  = scan_digits (10 * a + Z.of_nat (code c - 48)) r.
Proof. intros H. simpl. by rewrite H. Qed.

Lemma pow2_succ (f : nat) : 2 ^ Z.of_nat (S f) = 2 * 2 ^ Z.of_nat f.
Proof. rewrite Nat2Z.inj_succ, Z.pow_succ_r by lia. reflexivity. Qed.

(** Scanning the digits written for [n] adds them to the number read so
    far. *)
Lemma scan_dec_digits (fuel : nat) :
  forall (n : Z) (acc : string),
    0 <= n < 2 ^ Z.of_nat fuel ->
    exists k : nat,
      forall (a : Z) (rest : string),
        scan_digits a (dec_digits fuel n acc ++ rest)
        = scan_digits (a * 10 ^ Z.of_nat k + n) (acc ++ rest).
Proof.
  induction fuel as [|f IH]; intros n acc Hn.
  - exists 0%nat. intros a rest.
    assert (n = 0) as -> by (simpl in Hn; lia).
    replace (a * 10 ^ Z.of_nat 0 + 0) with a by (simpl; lia). reflexivity.
  - rewrite pow2_succ in Hn. simpl dec_digits.
    assert (Hd : 0 <= n mod 10 <= 9) by (pose proof (Z.mod_pos_bound n 10); lia).
    destruct (digit_char_is_digit _ Hd) as [Hisd Hval].
    destruct (n <? 10) eqn:E.
    + apply Z.ltb_lt in E. exists 1%nat. intros a rest.
      rewrite app_String, (scan_digits_cons _ _ _ Hisd), Hval.
      rewrite Z.mod_small by lia. f_equal.
      change (10 ^ Z.of_nat 1) with 10. lia.
    + apply Z.ltb_ge in E.
      destruct (IH (n / 10) (String (digit_char (n mod 10)) acc)) as [k Hk].
      { split; [apply Z.div_pos; lia|].
        apply Z.div_lt_upper_bound; lia. }
      exists (S k). intros a rest.
      rewrite Hk, app_String, (scan_digits_cons _ _ _ Hisd), Hval. f_equal.
      rewrite Nat2Z.inj_succ, Z.pow_succ_r by lia.
      pose proof (Z.div_mod n 10). lia.
Qed.

(** A positive number is written with a leading digit other than zero. *)
Lemma dec_digits_head (fuel : nat) :
  forall (n : Z) (acc : string),
    0 < n < 2 ^ Z.of_nat fuel ->
    exists d s, dec_digits fuel n acc = String (digit_char d) s /\ 1 <= d <= 9.
Proof.
  induction fuel as [|f IH]; intros n acc Hn.
  - simpl in Hn. lia.
  - rewrite pow2_succ in Hn. simpl dec_digits.
    destruct (n <? 10) eqn:E.
    + apply Z.ltb_lt in E. exists n, acc.
      rewrite Z.mod_small by lia. split; [done|lia].
    + apply Z.ltb_ge in E. apply IH. split.
      * apply Z.div_str_pos. lia.
      * apply Z.div_lt_upper_bound; lia.
Qed.

Lemma log2_fuel (m : Z) : 0 <= m -> m < 2 ^ Z.of_nat (S (Z.to_nat (Z.log2 m))).
Proof.
  intros H. rewrite pow2_succ, Z2Nat.id by apply Z.log2_nonneg.
  destruct (Z.eq_dec m 0) as [->|]; [reflexivity|].
  pose proof (Z.log2_spec m). rewrite Z.pow_succ_r in H0 by apply Z.log2_nonneg.
  lia.
Qed.

Lemma prefix_head_ne (a c : ascii) (p s : string) :
  c <> a -> String.prefix (String a p) (String c s) = false.
Proof.
  intros H. simpl. destruct (ascii_dec a c) as [->|]; [done|reflexivity].
Qed.

Lemma delimited_tail (rest : string) :
  delimited rest ->
  float_tail rest = false /\ forall a, scan_digits a rest = (a, rest).
Proof.
  destruct rest as [|c r]; [done|].
  intros [->|[->|[->| ->]]]; split; reflexivity.
Qed.

(** A text that starts like a number is scanned as a number. *)
Lemma scan_once_number (d : nat) (c : ascii) (r : string) :
  c <> dquote -> c <> "{"%char -> c <> "["%char ->
  c <> "n"%char -> c <> "t"%char -> c <> "f"%char ->
  scan_once (S d) (String c r) = scan_number (String c r).
Proof.
  intros. cbn [scan_once].
  rewrite !bool_decide_eq_false_2 by done.
  rewrite !prefix_head_ne by done. reflexivity.
Qed.

Lemma scan_number_unsigned (c : ascii) (r : string) :
  c <> "-"%char -> c <> "N"%char -> c <> "I"%char ->
  scan_number (String c r)
  = match match_integer (String c r) with
    | Some (n, rest) =>
        if float_tail rest then inl Unmodelled else inr (PInt n, rest)
    | None => inl JSONDecodeError
    end.
Proof.
  intros. unfold scan_number.
  rewrite !bool_decide_eq_false_2 by done.
  rewrite !prefix_head_ne by done. simpl orb. cbv iota.
  destruct (match_integer (String c r)) as [[n rest]|]; reflexivity.
Qed.

(** The digits written for a positive number are matched as that number. *)
Lemma match_integer_digits (m : Z) (rest : string) :
  0 < m -> delimited rest ->
  exists c s,
    (dec_digits (S (Z.to_nat (Z.log2 m))) m EmptyString ++ rest)%string
    = String c s
    /\ (exists d, c = digit_char d /\ 1 <= d <= 9)
    /\ match_integer (String c s) = Some (m, rest).
Proof.
  intros Hm Hrest.
  assert (Hm0 : 0 <= m) by lia.
  pose proof (log2_fuel m Hm0) as Hf.
  destruct (dec_digits_head _ m EmptyString (conj Hm Hf))
    as (d & s & Hhead & Hd).
  destruct (scan_dec_digits _ m EmptyString (conj Hm0 Hf)) as [k Hk].
  exists (digit_char d), (s ++ rest)%string.
  split; [by rewrite Hhead|]. split; [eauto|].
  destruct (digit_char_nonzero d Hd) as (Hz & _).
  assert (Hd9 : 0 <= d <= 9) by lia.
  destruct (digit_char_is_digit d Hd9) as [Hisd _].
  unfold match_integer. rewrite bool_decide_eq_false_2 by done.
  rewrite Hisd. rewrite <- app_String, <- Hhead, Hk.
  destruct (delimited_tail rest Hrest) as [_ Hs].
  change (EmptyString ++ rest)%string with rest. rewrite Hs.
  replace (0 * 10 ^ Z.of_nat k + m) with m by lia. reflexivity.
Qed.

(** An int, as the encoder writes it, scans back to itself. *)
Lemma scan_once_int (d : nat) (z : Z) (rest : string) :
  delimited rest ->
  scan_once (S d) (str_of_int z ++ rest) = inr (PInt z, rest).
Proof.
  intros Hrest. destruct (delimited_tail rest Hrest) as [Hfl Hs].
  unfold str_of_int. destruct (z <? 0) eqn:E.
  - apply Z.ltb_lt in E.
    assert (Hpos : 0 < - z) by lia.
    destruct (match_integer_digits (- z) rest Hpos Hrest)
      as (c & s & Hcs & _ & Hm).
    rewrite string_app_assoc. rewrite Hcs.
    change ("-" ++ String c s)%string with (String "-" (String c s)).
    rewrite scan_once_number by discriminate.
    unfold scan_number. rewrite bool_decide_eq_true_2 by done.
    rewrite Hm, Hfl. cbv iota. by rewrite Z.opp_involutive.
  - apply Z.ltb_ge in E. destruct (Z.eq_dec z 0) as [->|Hne].
    + change (dec_digits (S (Z.to_nat (Z.log2 0))) 0 EmptyString ++ rest)%string
        with (String "0" rest).
      rewrite scan_once_number by discriminate.
      rewrite scan_number_unsigned by discriminate.
      unfold match_integer. rewrite bool_decide_eq_true_2 by done.
      by rewrite Hfl.
    + assert (Hpos : 0 < z) by lia.
      destruct (match_integer_digits z rest Hpos Hrest)
        as (c & s & Hcs & (d0 & -> & Hd0) & Hm).
      rewrite Hcs.
      destruct (digit_char_nonzero d0 Hd0)
        as (_ & ? & ? & ? & ? & ? & ? & ? & ? & ?).
      rewrite scan_once_number by done.
      rewrite scan_number_unsigned by done.
      by rewrite Hm, Hfl.
Qed.

(** What an int starts with. *)
Lemma str_of_int_head (z : Z) :
  exists c s, str_of_int z = String c s /\ value_start c.
Proof.
  unfold str_of_int. destruct (z <? 0) eqn:E.
  - exists "-"%char. eexists. split; [reflexivity|].
    repeat split; discriminate.
  - apply Z.ltb_ge in E. destruct (Z.eq_dec z 0) as [->|Hne].
    + exists "0"%char, EmptyString. split; [reflexivity|].
      repeat split; discriminate.
    + pose proof (log2_fuel z E) as Hf.
      assert (Hpos : 0 < z) by lia.
      destruct (dec_digits_head _ z EmptyString (conj Hpos Hf))
        as (d & s & Hhead & Hd).
      exists (digit_char d), s. split; [done|].
      assert (H' : 0 <= d <= 9) by lia.
      destruct (digit_cases d H')
        as [->|[->|[->|[->|[->|[->|[->|[->|[->| ->]]]]]]]]];
        repeat split; discriminate.
Qed.

End NumberFacts.

(** ** Layout: blanks, separators and the encoder's output *)

Module LayoutFacts.
Import Py Json OS JsonValue ContentFacts StringFacts NumberFacts.
#[local] Arguments String.append !_ _ / : simpl nomatch.

Lemma skip_ws_char (c : ascii) (s : string) :
  is_ws c = false -> skip_ws (String c s) = String c s.
Proof. intros H. simpl. by rewrite H. Qed.

Lemma skip_ws_spaces (n : nat) (s : string) :
  skip_ws (spaces n ++ s) = skip_ws s.
Proof. induction n as [|n IH]; [reflexivity|]. simpl. exact IH. Qed.

Lemma skip_ws_newline_indent (ind : option Z) (level : nat) (s : string) :
  skip_ws (newline_indent ind level ++ s) = skip_ws s.
Proof.
  unfold newline_indent. destruct ind; [|reflexivity].
  simpl. apply skip_ws_spaces.
Qed.

(** The separator between two items: a comma, then blanks. *)
Lemma separator_shape (ind : option Z) (level : nat) (s : string) :
  exists w,
    ((item_separator ind ++ newline_indent ind level) ++ s)%string
    = String "," w
    /\ skip_ws w = skip_ws s.
Proof.
  unfold item_separator. destruct ind as [n|].
  - exists (newline_indent (Some n) level ++ s)%string.
    split; [reflexivity|]. apply skip_ws_newline_indent.
  - exists (String " " s). split; reflexivity.
Qed.

(** What closes a list or a dict is delimited, and is the bracket once the
    blanks are skipped. *)
Lemma close_shape (ind : option Z) (level : nat) (br : ascii) (rest : string) :
  br = "]"%char \/ br = "}"%char ->
  delimited ((newline_indent ind level ++ str1 br) ++ rest)
  /\ skip_ws ((newline_indent ind level ++ str1 br) ++ rest) = String br rest.
Proof.
  intros Hbr. rewrite string_app_assoc. split.
  - unfold newline_indent. destruct ind; simpl; [by right; right; right|].
    destruct Hbr as [->| ->]; simpl; auto.
  - rewrite skip_ws_newline_indent.
    destruct Hbr as [->| ->]; reflexivity.
Qed.

Lemma seq_emit (s : string) (b : out) : seq (emit s) b = ((s ++ b.1)%string, b.2).
Proof. reflexivity. Qed.

Lemma seq_ok (a b : out) (t : string) :
  seq a b = (t, None) ->
  exists ta tb, a = (ta, None) /\ b = (tb, None) /\ t = (ta ++ tb)%string.
Proof.
  destruct a as [ta [e|]], b as [tb eb]; simpl; [discriminate|].
  intros [= <- ->]. eauto.
Qed.

Lemma encode_items_ok {A} (enc : A -> out) (first sep : string) (x : A)
    (r : list A) (t : string) :
  encode_items enc first sep (x :: r) = (t, None) ->
  exists tx tr,
    enc x = (tx, None) /\ encode_items enc sep sep r = (tr, None)
    /\ t = (first ++ tx ++ tr)%string.
Proof.
  intros H. cbn [encode_items] in H. rewrite seq_emit in H.
  destruct (seq (enc x) (encode_items enc sep sep r)) as [t' e'] eqn:E.
  simpl in H. injection H as <- ->.
  destruct (seq_ok _ _ _ E) as (tx & tr & Hx & Hr & ->).
  by exists tx, tr.
Qed.

End LayoutFacts.

(** ** The decoder's loops on the encoder's lists and dicts *)

Module LoopFacts.
Import Py Json OS JsonValue AtomicFacts ContentFacts StringFacts NumberFacts
  LayoutFacts.
#[local] Arguments String.append !_ _ / : simpl nomatch.

Section Items.
Variable scan : string -> exn + (pyval * string).
Variable enc : pyval -> out.
Variable ea : bool.
Variable ind : option Z.
Variable level : nat.

(** An item whose text starts like a value and is scanned back to it. *)
Definition item_ok (z : pyval) : Prop :=
  forall tz,
    enc z = (tz, None) ->
    (exists c s, tz = String c s /\ value_start c)
    /\ forall rest, delimited rest -> scan (tz ++ rest) = inr (z, rest).

Definition sep : string :=
  (item_separator ind ++ newline_indent ind (S level))%string.

Definition close (br : ascii) : string :=
  (newline_indent ind level ++ str1 br)%string.

Lemma skip_ws_item (z : pyval) (tz s : string) :
  item_ok z -> enc z = (tz, None) ->
  skip_ws (tz ++ s) = (tz ++ s)%string
  /\ exists c r, (tz ++ s)%string = String c r /\ value_start c.
Proof.
  intros Hz Hez. destruct (Hz tz Hez) as [(c & r & -> & Hc) _].
  split.
  - apply skip_ws_char. apply Hc.
  - by exists c, (r ++ s)%string.
Qed.

Lemma array_loop_items (r : list pyval) :
  forall (x : pyval) (n : nat) (tx tr rest : string),
    Forall item_ok (x :: r) ->
    enc x = (tx, None) ->
    encode_items enc sep sep r = (tr, None) ->
    length r < n ->
    array_loop scan n (tx ++ tr ++ close "]" ++ rest) = inr (x :: r, rest).
Proof.
  induction r as [|y r IH]; intros x n tx tr rest Hok Hx Hr Hn.
  - injection Hr as <-. destruct n as [|n]; [lia|].
    apply Forall_cons in Hok as [Hxok _].
    destruct (Hxok tx Hx) as [_ Hscan].
    destruct (close_shape ind level "]" rest (or_introl eq_refl)) as [Hd Hs].
    cbn [array_loop]. change (EmptyString ++ close "]" ++ rest)%string
      with (close "]" ++ rest)%string.
    unfold close in *. rewrite (Hscan _ Hd), Hs.
    by rewrite bool_decide_eq_true_2.
  - destruct n as [|n]; [simpl in Hn; lia|].
    destruct (encode_items_ok _ _ _ _ _ _ Hr) as (ty & tr' & Hy & Hr' & ->).
    pose proof Hok as Hok'. apply Forall_cons in Hok' as [Hxok Hrest].
    destruct (Hxok tx Hx) as [_ Hscan].
    rewrite !string_app_assoc.
    destruct (separator_shape ind (S level)
                (ty ++ tr' ++ close "]" ++ rest)) as (w & Hw & Hsk).
    unfold sep in *. rewrite <- string_app_assoc in Hw.
    rewrite string_app_assoc in Hw.
    cbn [array_loop].
    replace ((item_separator ind ++ newline_indent ind (S level)) ++
             ty ++ tr' ++ close "]" ++ rest)%string with (String "," w)
      by (rewrite <- Hw; by rewrite !string_app_assoc).
    rewrite (Hscan (String "," w)) by (simpl; auto).
    rewrite skip_ws_char by reflexivity.
    rewrite bool_decide_eq_false_2 by discriminate.
    rewrite bool_decide_eq_true_2 by done.
    apply Forall_cons in Hrest as [Hyok Hrest'].
    rewrite Hsk. destruct (skip_ws_item y ty (tr' ++ close "]" ++ rest) Hyok Hy)
      as [-> _].
    rewrite (IH y n ty tr' rest); [done| |done|done|simpl in Hn; lia].
    by apply Forall_cons.
Qed.

(** Every item takes at least one character. *)
Lemma items_length (r : list pyval) :
  forall tr,
    Forall item_ok r ->
    encode_items enc sep sep r = (tr, None) ->
    length r <= String.length tr.
Proof.
  induction r as [|y r IH]; intros tr Hok Hr; [simpl; lia|].
  destruct (encode_items_ok _ _ _ _ _ _ Hr) as (ty & tr' & Hy & Hr' & ->).
  apply Forall_cons in Hok as [Hyok Hrest].
  destruct (Hyok ty Hy) as [(c & s & -> & _) _].
  rewrite !string_length_app. simpl. specialize (IH tr' Hrest Hr'). lia.
Qed.

(** A dict entry as the encoder writes it. *)
Definition enc_kv (kv : atom * pyval) : out :=
  seq (emit (encode_str ea (key_str kv.1) ++ key_separator)) (enc kv.2).

Definition pair_ok (kv : atom * pyval) : Prop :=
  (exists k, kv.1 = AStr k) /\ item_ok kv.2.

Definition to_pair (kv : atom * pyval) : string * pyval :=
  (key_str kv.1, kv.2).

Lemma enc_kv_ok (k : string) (x : pyval) (t : string) :
  enc_kv (AStr k, x) = (String dquote t, None) ->
  exists tx,
    enc x = (tx, None)
    /\ forall R, (t ++ R)%string
         = (escape_chars ea k
            ++ String dquote (String ":" (String " " (tx ++ R))))%string.
Proof.
  unfold enc_kv. rewrite seq_emit. simpl fst. simpl snd. simpl key_str.
  destruct (enc x) as [tx e]. simpl. intros [= Ht ->].
  exists tx. split; [done|]. intros R. rewrite <- Ht.
  unfold key_separator. rewrite !string_app_assoc. reflexivity.
Qed.

Lemma object_loop_items (r : list (atom * pyval)) :
  forall (kv : atom * pyval) (n : nat) (t tr rest : string),
    Forall pair_ok (kv :: r) ->
    enc_kv kv = (String dquote t, None) ->
    encode_items enc_kv sep sep r = (tr, None) ->
    length r < n ->
    object_loop scan n (t ++ tr ++ close "}" ++ rest)
    = inr (map to_pair (kv :: r), rest).
Proof.
  induction r as [|kv' r IH]; intros kv n t tr rest Hok Hkv Hr Hn.
  - injection Hr as <-. destruct n as [|n]; [lia|].
    apply Forall_cons in Hok as [[[k Hk] Hxok] _].
    destruct kv as [a x]. simpl in Hk. subst a.
    destruct (enc_kv_ok k x t Hkv) as (tx & Hx & Ht).
    destruct (Hxok tx Hx) as [_ Hscan].
    destruct (close_shape ind level "}" rest (or_intror eq_refl)) as [Hd Hs].
    cbn [object_loop].
    change (EmptyString ++ close "}" ++ rest)%string
      with (close "}" ++ rest)%string.
    rewrite Ht, scanstring_escape_chars.
    rewrite skip_ws_char by reflexivity.
    rewrite bool_decide_eq_true_2 by done.
    replace (skip_ws (String " " (tx ++ close "}" ++ rest)))
      with (skip_ws (tx ++ close "}" ++ rest)) by reflexivity.
    destruct (skip_ws_item x tx (close "}" ++ rest) Hxok Hx) as [-> _].
    unfold close in *. rewrite (Hscan _ Hd), Hs.
    by rewrite bool_decide_eq_true_2.
  - destruct n as [|n]; [simpl in Hn; lia|].
    destruct (encode_items_ok _ _ _ _ _ _ Hr) as (ty & tr' & Hy & Hr' & ->).
    apply Forall_cons in Hok as [[[k Hk] Hxok] Hrest].
    destruct kv as [a x]. simpl in Hk. subst a.
    destruct (enc_kv_ok k x t Hkv) as (tx & Hx & Ht).
    destruct (Hxok tx Hx) as [_ Hscan].
    pose proof Hrest as Hrest'.
    apply Forall_cons in Hrest' as [[[k' Hk'] Hyok] Hrest''].
    destruct kv' as [a' y]. simpl in Hk'. subst a'.
    assert (Hty : exists t', ty = String dquote t').
    { unfold enc_kv in Hy. rewrite seq_emit in Hy. simpl in Hy.
      injection Hy as <- _. by eexists. }
    destruct Hty as [t' ->].
    destruct (separator_shape ind (S level)
                (String dquote t' ++ tr' ++ close "}" ++ rest))
      as (w & Hw & Hsk).
    cbn [object_loop]. rewrite Ht, scanstring_escape_chars.
    rewrite skip_ws_char by reflexivity.
    rewrite bool_decide_eq_true_2 by done.
    replace (skip_ws (String " "
               (tx ++ (sep ++ String dquote t' ++ tr') ++ close "}" ++ rest)))
      with (skip_ws (tx ++ (sep ++ String dquote t' ++ tr') ++ close "}"
                     ++ rest)) by reflexivity.
    destruct (skip_ws_item x tx
                ((sep ++ String dquote t' ++ tr') ++ close "}" ++ rest)
                Hxok Hx) as [-> _].
    replace ((sep ++ String dquote t' ++ tr') ++ close "}" ++ rest)%string
      with (String "," w)
      by (rewrite <- Hw; unfold sep; by rewrite !string_app_assoc).
    rewrite (Hscan (String "," w)) by (simpl; auto).
    rewrite skip_ws_char by reflexivity.
    rewrite bool_decide_eq_false_2 by discriminate.
    rewrite bool_decide_eq_true_2 by done.
    rewrite Hsk. rewrite app_String. rewrite skip_ws_char by reflexivity.
    rewrite bool_decide_eq_true_2 by done.
    rewrite (IH (AStr k', y) n t' tr' rest); [done|done|done|done|].
    simpl in Hn. lia.
Qed.

Lemma pair_items_length (r : list (atom * pyval)) :
  forall tr,
    encode_items enc_kv sep sep r = (tr, None) ->
    length r <= String.length tr.
Proof.
  induction r as [|kv r IH]; intros tr Hr; [simpl; lia|].
  destruct (encode_items_ok _ _ _ _ _ _ Hr) as (ty & tr' & Hy & Hr' & ->).
  unfold enc_kv in Hy. rewrite seq_emit in Hy. simpl in Hy.
  injection Hy as <- _.
  rewrite !string_length_app. simpl. specialize (IH tr' Hr'). lia.
Qed.

End Items.

(** [dict(pairs)] rebuilds a dict whose keys are distinct strs. *)
Lemma dict_set_fresh (k : string) (v : pyval) (d : list (atom * pyval)) :
  AStr k ∉ map fst d -> dict_set k v d = (d ++ [(AStr k, v)])%list.
Proof.
  induction d as [|[k' v'] d IH]; [reflexivity|].
  simpl. intros H. rewrite not_elem_of_cons in H. destruct H as [H1 H2].
  rewrite bool_decide_eq_false_2 by congruence. by rewrite IH.
Qed.

Lemma dict_of_pairs_fold (kvs : list (atom * pyval)) :
  forall acc : list (atom * pyval),
    Forall (fun kv => exists k, kv.1 = AStr k) kvs ->
    NoDup (map fst (acc ++ kvs)%list) ->
    fold_left (fun d kv => dict_set kv.1 kv.2 d)
      (map (fun kv : atom * pyval => (key_str kv.1, kv.2)) kvs) acc
    = (acc ++ kvs)%list.
Proof.
  induction kvs as [|[a x] kvs IH]; intros acc Hk Hnd.
  - simpl. by rewrite app_nil_r.
  - apply Forall_cons in Hk as [[k Hk] Hks]. simpl in Hk. subst a.
    simpl. rewrite dict_set_fresh.
    + rewrite IH; [by rewrite <- app_assoc|done|by rewrite <- app_assoc].
    + rewrite map_app in Hnd. apply NoDup_app in Hnd as (_ & Hd & _).
      intros Hin. apply (Hd _ Hin). simpl. by left.
Qed.

Lemma dict_of_pairs_id (kvs : list (atom * pyval)) :
  Forall (fun kv => exists k, kv.1 = AStr k) kvs ->
  NoDup (map fst kvs) ->
  dict_of_pairs (map (fun kv : atom * pyval => (key_str kv.1, kv.2)) kvs)
  = kvs.
Proof. intros H1 H2. unfold dict_of_pairs. by rewrite dict_of_pairs_fold. Qed.

End LoopFacts.

(** ** Encoding a JSON value and decoding the text *)

Module RoundTrip.
Import Py Json OS JsonValue AtomicFacts ContentFacts StringFacts NumberFacts
  LayoutFacts LoopFacts.
#[local] Arguments String.append !_ _ / : simpl nomatch.

Lemma scan_once_string (d : nat) (r : string) :
  scan_once (S d) (String dquote r)
  = match scanstring r with
    | inl e => inl e
    | inr (t, rest) => inr (PStr t, rest)
    end.
Proof. reflexivity. Qed.

Lemma scan_once_array (d : nat) (r : string) :
  scan_once (S d) (String "[" r) = parse_array (scan_once d) r.
Proof. reflexivity. Qed.

Lemma scan_once_object (d : nat) (r : string) :
  scan_once (S d) (String "{" r) = parse_object (scan_once d) r.
Proof. reflexivity. Qed.

Lemma scan_once_literals (d : nat) (rest : string) :
  scan_once (S d) ("null" ++ rest) = inr (PNone, rest)
  /\ scan_once (S d) ("true" ++ rest) = inr (PBool true, rest)
  /\ scan_once (S d) ("false" ++ rest) = inr (PBool false, rest)
  /\ scan_once (S d) ("[]" ++ rest) = inr (PList [], rest)
  /\ scan_once (S d) ("{}" ++ rest) = inr (PDict [], rest).
Proof. destruct rest; repeat split; reflexivity. Qed.

Lemma value_start_not_ws (c : ascii) (s : string) :
  value_start c -> skip_ws (String c s) = String c s.
Proof. intros H. apply skip_ws_char, H. Qed.

Section Value.
Variable default : pyval -> exn + pyval.
Variable ea : bool.
Variable ind : option Z.

(** The text written for a JSON value starts like a value and is scanned
    back to that value, by a decoder that has at least the room the
    encoder had. *)
Lemma roundtrip_value (d : nat) :
  forall (d' : nat) (v : pyval) (level : nat),
    d <= d' ->
    is_json v = true ->
    item_ok (scan_once d') (fun z => iterencode default ea ind d z level) v.
Proof.
  induction d as [|f IH]; intros d' v level Hd Hv tz Htz; [discriminate|].
  destruct d' as [|g]; [lia|]. assert (Hfg : f <= g) by lia.
  destruct v as [| b | z | s | l | l | kvs | | | | ]; try discriminate.
  - injection Htz as <-. split.
    + exists "n"%char. eexists. split; [reflexivity|].
      repeat split; discriminate.
    + intros rest _. apply scan_once_literals.
  - destruct b; injection Htz as <-.
    + split.
      * exists "t"%char. eexists. split; [reflexivity|].
        repeat split; discriminate.
      * intros rest _. apply scan_once_literals.
    + split.
      * exists "f"%char. eexists. split; [reflexivity|].
        repeat split; discriminate.
      * intros rest _. apply scan_once_literals.
  - injection Htz as <-. split.
    + apply str_of_int_head.
    + intros rest Hrest. by apply scan_once_int.
  - injection Htz as <-. split.
    + exists dquote. eexists. split; [reflexivity|].
      repeat split; discriminate.
    + intros rest _.
      destruct (scanstring_encode_str ea s rest) as (t & -> & Ht).
      rewrite app_String, scan_once_string. by rewrite Ht.
  - destruct l as [|x r].
    { injection Htz as <-. split.
      - exists "["%char. eexists. split; [reflexivity|].
        repeat split; discriminate.
      - intros rest _. apply scan_once_literals. }
    cbn [iterencode] in Htz. rewrite seq_emit in Htz.
    destruct (seq _ _) as [t' e'] eqn:E in Htz. simpl in Htz.
    injection Htz as <- ->.
    destruct (seq_ok _ _ _ E) as (ti & tc & Hi & Hc & ->).
    injection Hc as <-.
    destruct (encode_items_ok _ _ _ _ _ _ Hi) as (tx & tr & Hx & Hr & ->).
    simpl in Hv. apply andb_true_iff in Hv as [Hvx Hvr].
    assert (Hok : Forall (item_ok (scan_once g)
                            (fun z => iterencode default ea ind f z (S level)))
                    (x :: r)).
    { apply Forall_cons. split; [by apply IH|].
      apply Forall_forall. intros z Hz. apply IH; [done|].
      rewrite forallb_forall in Hvr. apply Hvr. by apply list_elem_of_In. }
    split.
    + exists "["%char. eexists. split; [reflexivity|].
      repeat split; discriminate.
    + intros rest Hrest.
      rewrite app_String, scan_once_array. unfold parse_array.
      rewrite !string_app_assoc, skip_ws_newline_indent.
      replace (newline_indent ind level ++ "]" ++ rest)%string
        with (close ind level "]" ++ rest)%string
        by (unfold close, str1; by rewrite string_app_assoc).
      pose proof Hok as Hok'. apply Forall_cons in Hok' as [Hxok Hrok].
      destruct (skip_ws_item _ _ x tx
                  (tr ++ close ind level "]" ++ rest) Hxok Hx)
        as [Hsk (c & s & Hcs & Hc)].
      rewrite Hsk, Hcs. rewrite bool_decide_eq_false_2 by apply Hc.
      rewrite <- Hcs.
      rewrite (array_loop_items _ _ ind level r x _ tx tr rest Hok Hx Hr);
        [done|].
      pose proof (items_length _ _ ind level r tr Hrok Hr) as Hlen.
      destruct (Hxok tx Hx) as [(c' & s' & -> & _) _].
      rewrite !string_length_app. simpl. lia.
  - destruct kvs as [|kv r].
    { injection Htz as <-. split.
      - exists "{"%char. eexists. split; [reflexivity|].
        repeat split; discriminate.
      - intros rest _. apply scan_once_literals. }
    cbn [iterencode] in Htz. rewrite seq_emit in Htz.
    destruct (seq _ _) as [t' e'] eqn:E in Htz. simpl in Htz.
    injection Htz as <- ->.
    destruct (seq_ok _ _ _ E) as (ti & tc & Hi & Hc & ->).
    injection Hc as <-.
    change (encode_items
              (enc_kv (fun z => iterencode default ea ind f z (S level)) ea)
              (newline_indent ind (S level)) (sep ind level) (kv :: r)
            = (ti, None)) in Hi.
    destruct (encode_items_ok _ _ _ _ _ _ Hi) as (tx & tr & Hx & Hr & ->).
    simpl in Hv. apply andb_true_iff in Hv as [Hv Hnd].
    apply bool_decide_eq_true_1 in Hnd.
    assert (Hkeys : Forall (fun kv : atom * pyval => exists k, kv.1 = AStr k)
                      (kv :: r)
                    /\ Forall (fun kv : atom * pyval => is_json kv.2 = true)
                         (kv :: r)).
    { change (forallb (fun kv : atom * pyval =>
                         match kv with
                         | (AStr _, x) => is_json x
                         | _ => false
                         end) (kv :: r) = true) in Hv.
      rewrite forallb_forall in Hv. split; apply Forall_forall;
        intros [a y] Hin; apply list_elem_of_In in Hin;
        specialize (Hv _ Hin); destruct a; try discriminate; simpl; eauto. }
    destruct Hkeys as [Hkeys Hjson].
    assert (Hok : Forall (pair_ok (scan_once g)
                            (fun z => iterencode default ea ind f z (S level)))
                    (kv :: r)).
    { apply Forall_forall. intros p Hp. split.
      - rewrite Forall_forall in Hkeys. by apply Hkeys.
      - apply IH; [done|]. rewrite Forall_forall in Hjson. by apply Hjson. }
    assert (Htx : exists t, tx = String dquote t).
    { unfold enc_kv in Hx. rewrite seq_emit in Hx. simpl in Hx.
      injection Hx as <- _. by eexists. }
    destruct Htx as [t ->].
    split.
    + exists "{"%char. eexists. split; [reflexivity|].
      repeat split; discriminate.
    + intros rest Hrest.
      rewrite app_String, scan_once_object. unfold parse_object.
      rewrite !string_app_assoc, skip_ws_newline_indent.
      replace (newline_indent ind level ++ "}" ++ rest)%string
        with (close ind level "}" ++ rest)%string
        by (unfold close, str1; by rewrite string_app_assoc).
      rewrite app_String. rewrite skip_ws_char by reflexivity.
      rewrite bool_decide_eq_false_2 by discriminate.
      rewrite bool_decide_eq_true_2 by done.
      rewrite (object_loop_items _ _ ea ind level r kv _ t tr rest Hok Hx Hr).
      * unfold to_pair. by rewrite dict_of_pairs_id.
      * pose proof (pair_items_length _ ea ind level r tr Hr) as Hlen.
        rewrite !string_length_app. cbn [String.length].
        rewrite !string_length_app. lia.
Qed.

Lemma loads_dump_at (d d' : nat) (v : pyval) (t : string) :
  d <= d' ->
  is_json v = true ->
  iterencode default ea ind d v 0 = (t, None) ->
  match scan_once d' (skip_ws (t ++ str1 nl)) with
  | inl e => inl e
  | inr (v', r) =>
      match skip_ws r with
      | EmptyString => inr v'
      | String _ _ => inl JSONDecodeError
      end
  end = inr v.
Proof.
  intros Hd Hv Ht.
  destruct (roundtrip_value d d' v 0 Hd Hv t Ht) as [(c & s & -> & Hc) Hscan].
  rewrite app_String, value_start_not_ws by done.
  rewrite <- app_String, Hscan by (simpl; auto).
  reflexivity.
Qed.

(** [json.loads] of what [json.dump] wrote, followed by a newline, when
    the decoder has at least the room the encoder had. *)
Lemma loads_dump (room room' : nat) (v : pyval) (t : string) :
  room <= room' ->
  is_json v = true ->
  json_dump default ea ind room v = (t, None) ->
  json_loads room' (t ++ str1 nl) = inr v.
Proof. exact (loads_dump_at room room' v t). Qed.

End Value.

End RoundTrip.

(** ** Writing a value and reading it back *)

Module FileRoundTrip.
Import Py Json OS FileIO JsonValue.
#[local] Arguments String.append !_ _ / : simpl nomatch.

Lemma encode_text_cons (enc : codec) (a : ascii) (r b : string) :
  encode_text enc (String a r) = (b, None) ->
  exists ba bs,
    encode_char enc a = Some ba /\ encode_text enc r = (bs, None)
    /\ b = ba ++ bs.
Proof.
  cbn [encode_text]. destruct (encode_char enc a) as [ba|]; [|discriminate].
  destruct (encode_text enc r) as [bs res]. intros [= <- ->]. eauto.
Qed.

(** A codec that decodes each character's bytes back to the character
    gives back every text it has encoded. *)
Lemma lossless_by_char (enc : codec) :
  decode enc EmptyString = inr EmptyString ->
  (forall a ba r t, encode_char enc a = Some ba -> decode enc r = inr t ->
     decode enc (ba ++ r) = inr (String a t)) ->
  codec_lossless enc.
Proof.
  intros Hnil Hchar text. induction text as [|a r IH]; intros b Hb.
  - cbn in Hb. injection Hb as <-. exact Hnil.
  - apply encode_text_cons in Hb as (ba & bs & Ha & Hr & ->).
    apply Hchar; [exact Ha|]. apply IH, Hr.
Qed.

Lemma latin_1_lossless : codec_lossless latin_1.
Proof.
  apply lossless_by_char; [reflexivity|].
  intros a ba r t [= <-] [= <-]. reflexivity.
Qed.

Lemma us_ascii_lossless : codec_lossless us_ascii.
Proof.
  apply lossless_by_char; [reflexivity|].
  intros a ba r t Ha Hr. cbn [encode_char us_ascii] in Ha.
  destruct (code a <? 128)%nat eqn:E; [|discriminate].
  injection Ha as <-. cbn [decode us_ascii] in *.
  cbn [String.append str1 ascii_decode]. by rewrite E, Hr.
Qed.

Lemma utf_8_decode_char (a : ascii) (ba r t : string) :
  utf_8_encode_char a = Some ba -> utf_8_decode r = inr t ->
  utf_8_decode (ba ++ r) = inr (String a t).
Proof.
  intros Ha Hr.
  destruct a as [[] [] [] [] [] [] [] []]; injection Ha as <-;
    cbn; rewrite Hr; reflexivity.
Qed.

Lemma utf_8_lossless : codec_lossless utf_8.
Proof.
  apply lossless_by_char; [reflexivity|].
  intros a ba r t Ha Hr. exact (utf_8_decode_char a ba r t Ha Hr).
Qed.

(** X28.  A value built from [None], booleans, ints, strs, lists and dicts
    with distinct str keys that [write_json] has written to [p] without
    raising is what [read_json] returns from [p], read with the same
    encoding when that encoding gives back what it encodes, and with at
    least the stack room the writer had: in atomic and in direct mode,
    compact or indented, with or without ASCII escapes, whatever fallback
    encoder was passed. *)
Theorem write_then_read (fsys : fs) (p : path) (v : pyval) (enc : codec)
    (indent : option Z) (ea cp atomic : bool)
    (default : option (pyval -> exn + pyval)) (e : env) (fs' : fs)
    (room : nat) :
  is_json v = true ->
  codec_lossless enc ->
  write_json fsys p v enc indent ea cp atomic default e = (inr tt, fs') ->
  stack_room e <= room ->
  read_json fs' p enc room = inr v.
Proof.
  intros Hv Henc Hw Hroom.
  destruct (ContentFacts.write_json_success _ _ _ _ _ _ _ _ _ _ _ Hw)
    as (text & b & Hdump & Hb & Hstat).
  unfold read_json, read_bytes.
  rewrite (ReadFacts.stat_exists _ _ _ Hstat), Hstat. cbn [negb].
  rewrite (Henc _ _ Hb).
  exact (RoundTrip.loads_dump _ _ _ _ _ v text Hroom Hv Hdump).
Qed.

Lemma write_then_read_witness :
  read_json
    (write_json ∅ ["cfg.json"]
       (PDict [(AStr "name", PStr ("caf" ++ str1 (ascii_of_nat 233)));
               (AStr "tags", PList [PInt (-12); PNone; PBool true])])
       utf_8 (Some 2%Z) false true true None (no_faults ["k3x9q2ab"] 64)).2
    ["cfg.json"] utf_8 64
  = inr (PDict [(AStr "name", PStr ("caf" ++ str1 (ascii_of_nat 233)));
                (AStr "tags", PList [PInt (-12); PNone; PBool true])])
  /\ read_json
       (write_json ∅ ["cfg.json"] (PList [PStr "a"; PDict []]) latin_1 None
          true true false None (no_faults [] 3)).2
       ["cfg.json"] latin_1 5
     = inr (PList [PStr "a"; PDict []]).
Proof.
  split.
  - apply (write_then_read ∅ ["cfg.json"]
             (PDict [(AStr "name", PStr ("caf" ++ str1 (ascii_of_nat 233)));
                     (AStr "tags", PList [PInt (-12); PNone; PBool true])])
             utf_8 (Some 2%Z) false true true None
             (no_faults ["k3x9q2ab"] 64)).
    + reflexivity.
    + exact utf_8_lossless.
    + vm_compute. reflexivity.
    + simpl. lia.
  - apply (write_then_read ∅ ["cfg.json"] (PList [PStr "a"; PDict []])
             latin_1 None true true false None (no_faults [] 3)).
    + reflexivity.
    + exact latin_1_lossless.
    + vm_compute. reflexivity.
    + simpl. lia.
Defined.

(** What does not come back as it was written.  A dict with an int key is
    written with the key as a str; a tuple comes back as a list; a path,
    which the fallback encoder makes serializable, as a str; and a document
    nested deeper than the reader's stack allows is written and then
    raises [RecursionError] when it is read. *)
Example write_then_read_other_value :
  let read_back v :=
    read_json
      (write_json ∅ ["cfg.json"] v utf_8 None true true true None
         (no_faults ["k3x9q2ab"] 64)).2
      ["cfg.json"] utf_8 64 in
  (write_json ∅ ["cfg.json"] (PDict [(AInt 1, PStr "a")]) utf_8 None true
     true true None (no_faults ["k3x9q2ab"] 64)).1 = inr tt
  /\ read_back (PDict [(AInt 1, PStr "a")]) = inr (PDict [(AStr "1", PStr "a")])
  /\ read_back (PTuple [PInt 1; PInt 2]) = inr (PList [PInt 1; PInt 2])
  /\ read_back (PPath ["srv"; "app"]) = inr (PStr "/srv/app")
  /\ (write_json ∅ ["cfg.json"] (PList [PList [PList [PInt 1]]]) utf_8 None
        true true true None (no_faults ["k3x9q2ab"] 4)).1 = inr tt
  /\ read_json
       (write_json ∅ ["cfg.json"] (PList [PList [PList [PInt 1]]]) utf_8 None
          true true true None (no_faults ["k3x9q2ab"] 4)).2
       ["cfg.json"] utf_8 3
     = inl RecursionError.
Proof. vm_compute. repeat split. Qed.

End FileRoundTrip.

(** ** Configuration and creation of the MongoDB clients *)

Module MongoConfig.
Import Mongo Clients Sessions.

Lemma dotenv_lookup (entries : list (string * string)) :
  forall (e : gmap string string) (k : string),
    fold_left dotenv_step entries e !! k
    = match e !! k with
      | Some v => Some v
      | None => (list_to_map entries : gmap string string) !! k
      end.
Proof.
  induction entries as [|[k0 v0] rest IH]; intros e k; cbn [fold_left].
  - destruct (e !! k); [reflexivity|]. symmetry. apply lookup_empty.
  - rewrite IH. unfold dotenv_step. cbn [fst snd list_to_map foldr].
    destruct (decide (k = k0)) as [->|Hne].
    + destruct (e !! k0) eqn:E; rewrite ?E; [reflexivity|].
      by rewrite !lookup_insert_eq.
    + destruct (e !! k0) eqn:E.
      * destruct (e !! k); [reflexivity|]. by rewrite lookup_insert_ne.
      * rewrite !lookup_insert_ne by done. reflexivity.
Qed.

Lemma get_mongo_uri_run (h : host) (s : state) :
  get_mongo_uri h s
  = match dotenv_file h with
    | Some entries =>
        let e := fold_left dotenv_step entries (environ s) in
        (inr (default "mongodb://localhost:27017" (e !! "MONGO_URI")),
         set_environ e s)
    | None =>
        (inr (default "mongodb://localhost:27017" (environ s !! "MONGO_URI")),
         s)
    end.
Proof.
  unfold get_mongo_uri, bind, load_dotenv, modify, getenv, gets, ret.
  destruct (dotenv_file h); reflexivity.
Qed.

Lemma get_mongo_uri_state (h : host) (s : state) :
  same_clients s (get_mongo_uri h s).2
  /\ next_id (get_mongo_uri h s).2 = next_id s
  /\ log (get_mongo_uri h s).2 = log s
  /\ forall k v, environ s !! k = Some v ->
       environ (get_mongo_uri h s).2 !! k = Some v.
Proof.
  rewrite get_mongo_uri_run. unfold same_clients.
  destruct (dotenv_file h) as [entries|]; cbn; repeat split; auto.
  intros k v Hk. by rewrite dotenv_lookup, Hk.
Qed.

(** X1.  The variable already set in the environment is the address returned:
    a [.env] file does not override it and the default is not used. *)
Theorem get_mongo_uri_env_wins (h : host) (s : state) (u : string) :
  environ s !! "MONGO_URI" = Some u ->
  (get_mongo_uri h s).1 = inr u.
Proof.
  intros Hu. rewrite get_mongo_uri_run.
  destruct (dotenv_file h) as [entries|]; cbn.
  - by rewrite dotenv_lookup, Hu.
  - by rewrite Hu.
Qed.

Lemma get_mongo_uri_env_wins_witness :
  (get_mongo_uri atlas_host
     (started_with [("MONGO_URI", "mongodb://db-1:27017")])).1
  = inr "mongodb://db-1:27017".
Proof.
  apply (get_mongo_uri_env_wins atlas_host
           (started_with [("MONGO_URI", "mongodb://db-1:27017")])).
  reflexivity.
Defined.

(** X2.  With the variable unset, the address is the one the [.env] file gives
    (its keys being distinct), and the local default when the file has
    none or the [dotenv] package is missing. *)
Theorem get_mongo_uri_dotenv_then_default (h : host) (s : state) :
  environ s !! "MONGO_URI" = None ->
  match dotenv_file h with
  | Some entries =>
      NoDup entries.*1 ->
      (get_mongo_uri h s).1
      = inr (default "mongodb://localhost:27017"
               ((list_to_map entries : gmap string string) !! "MONGO_URI"))
  | None => get_mongo_uri h s = (inr "mongodb://localhost:27017", s)
  end.
Proof.
  intros Hu. rewrite get_mongo_uri_run.
  destruct (dotenv_file h) as [entries|]; cbn.
  - intros _. by rewrite dotenv_lookup, Hu.
  - by rewrite Hu.
Qed.

Lemma get_mongo_uri_dotenv_then_default_witness :
  (get_mongo_uri atlas_host (started_with [])).1
  = inr "mongodb+srv://cluster0.example.net"
  /\ get_mongo_uri plain_host fresh = (inr "mongodb://localhost:27017", fresh).
Proof.
  split.
  - apply (get_mongo_uri_dotenv_then_default atlas_host (started_with [])).
    + reflexivity.
    + apply (bool_decide_unpack _). vm_compute. exact I.
  - apply (get_mongo_uri_dotenv_then_default plain_host fresh). reflexivity.
Defined.

(** X3.  [get_mongo_uri] never raises; it keeps every variable that is set, and
    the clients, the log and everything but the environment as they are. *)
Theorem get_mongo_uri_only_adds_variables (h : host) (s : state) :
  (exists u, (get_mongo_uri h s).1 = inr u)
  /\ (forall k v, environ s !! k = Some v ->
        environ (get_mongo_uri h s).2 !! k = Some v)
  /\ set_environ (environ s) (get_mongo_uri h s).2 = s.
Proof.
  split; [|split].
  - rewrite get_mongo_uri_run. destruct (dotenv_file h); cbn; eauto.
  - apply get_mongo_uri_state.
  - rewrite get_mongo_uri_run. destruct s.
    destruct (dotenv_file h); reflexivity.
Qed.

Lemma get_mongo_uri_only_adds_variables_witness :
  environ (get_mongo_uri atlas_host
             (started_with [("MONGO_FORCE_TLS", "0")])).2
    !! "MONGO_FORCE_TLS"
  = Some "0".
Proof.
  apply (get_mongo_uri_only_adds_variables atlas_host
           (started_with [("MONGO_FORCE_TLS", "0")])).
  reflexivity.
Defined.

Lemma kwargs_run (h : host) (uri : string) (s : state) :
  _client_kwargs_for_uri h uri s
  = match int_of_str (default "5000"
                        (environ s !! "MONGO_SERVER_SELECTION_TIMEOUT_MS")) with
    | inl e => (inl e, s)
    | inr ms =>
        if startswith uri "mongodb+srv://" || force_tls s then
          match certifi_where h with
          | Some ca =>
              (inr {| serverSelectionTimeoutMS := ms; tlsCAFile := Some ca |},
               s)
          | None =>
              (inr {| serverSelectionTimeoutMS := ms; tlsCAFile := None |},
               logger "TLS CA bundle not provided (install 'certifi' to avoid SSL issues with Atlas)." s)
          end
        else (inr {| serverSelectionTimeoutMS := ms; tlsCAFile := None |}, s)
    end.
Proof.
  unfold _client_kwargs_for_uri, bind, getenv, gets, raise, force_tls.
  destruct (int_of_str _) as [e|ms]; [reflexivity|].
  destruct (startswith uri _ || _); [|reflexivity].
  destruct (certifi_where h); reflexivity.
Qed.

Lemma kwargs_state (h : host) (uri : string) (s : state) :
  same_clients s (_client_kwargs_for_uri h uri s).2
  /\ next_id (_client_kwargs_for_uri h uri s).2 = next_id s
  /\ environ (_client_kwargs_for_uri h uri s).2 = environ s.
Proof.
  rewrite kwargs_run. unfold same_clients.
  destruct (int_of_str _); [cbn; auto|].
  destruct (_ || _); [|cbn; auto].
  destruct (certifi_where h); cbn; auto.
Qed.

(** X4.  The CA bundle is passed exactly when the address is a
    [mongodb+srv://] one or [MONGO_FORCE_TLS] is [1], [true] or [True], and
    then it is [certifi]'s; when [certifi] is wanted and missing the
    arguments are still returned, with one warning logged; otherwise the
    call changes nothing. *)
Theorem client_kwargs_tls (h : host) (uri : string) (s s' : state)
    (kw : kwargs) :
  _client_kwargs_for_uri h uri s = (inr kw, s') ->
  tlsCAFile kw
  = (if startswith uri "mongodb+srv://" || force_tls s
     then certifi_where h else None)
  /\ s' = (if (startswith uri "mongodb+srv://" || force_tls s)
              && bool_decide (certifi_where h = None)
           then logger "TLS CA bundle not provided (install 'certifi' to avoid SSL issues with Atlas)." s
           else s).
Proof.
  rewrite kwargs_run. destruct (int_of_str _); [discriminate|].
  destruct (_ || _); cbn [andb].
  - destruct (certifi_where h); intros [= <- <-]; auto.
  - intros [= <- <-]; auto.
Qed.

Lemma client_kwargs_tls_witness :
  tlsCAFile {| serverSelectionTimeoutMS := 250;
               tlsCAFile := Some "/site-packages/certifi/cacert.pem" |}
  = (if startswith "mongodb://db-1:27017" "mongodb+srv://"
        || force_tls (started_with
                        [("MONGO_FORCE_TLS", "True");
                         ("MONGO_SERVER_SELECTION_TIMEOUT_MS", "250")])
     then certifi_where atlas_host else None)
  /\ started_with [("MONGO_FORCE_TLS", "True");
                   ("MONGO_SERVER_SELECTION_TIMEOUT_MS", "250")]
     = (if (startswith "mongodb://db-1:27017" "mongodb+srv://"
            || force_tls (started_with
                            [("MONGO_FORCE_TLS", "True");
                             ("MONGO_SERVER_SELECTION_TIMEOUT_MS", "250")]))
           && bool_decide (certifi_where atlas_host = None)
        then logger "TLS CA bundle not provided (install 'certifi' to avoid SSL issues with Atlas)."
               (started_with [("MONGO_FORCE_TLS", "True");
                              ("MONGO_SERVER_SELECTION_TIMEOUT_MS", "250")])
        else started_with [("MONGO_FORCE_TLS", "True");
                           ("MONGO_SERVER_SELECTION_TIMEOUT_MS", "250")]).
Proof.
  apply (client_kwargs_tls atlas_host "mongodb://db-1:27017"
           (started_with [("MONGO_FORCE_TLS", "True");
                          ("MONGO_SERVER_SELECTION_TIMEOUT_MS", "250")])).
  reflexivity.
Defined.

Lemma digits_value_no_digit (a : ascii) (r : string) (acc : Z) :
  is_digit a = false -> digits_value acc (String a r) = None.
Proof. intros H. cbn [digits_value]. by rewrite H. Qed.

Lemma int_of_str_no_digit (t : string) :
  has_digit t = false -> int_of_str t = inl ValueError.
Proof.
  unfold has_digit. destruct t as [|a r]; [reflexivity|].
  cbn [list_ascii_of_string existsb]. intros [Ha Hr]%orb_false_elim.
  assert (Hd : forall d, existsb is_digit (list_ascii_of_string d) = false ->
            match d with
            | EmptyString => inl ValueError
            | String _ _ =>
                match digits_value 0 d with
                | Some z => inr z
                | None => inl ValueError
                end
            end = (inl ValueError : exn + Z)).
  { intros [|b d] Hb; [reflexivity|].
    cbn [list_ascii_of_string existsb] in Hb.
    apply orb_false_elim in Hb as [Hb _].
    by rewrite digits_value_no_digit. }
  pose proof (Hd r Hr) as Hrest.
  pose proof (digits_value_no_digit a r 0 Ha) as Hall.
  unfold int_of_str.
  destruct a as [[] [] [] [] [] [] [] []];
    try (rewrite Hall; reflexivity);
    try (rewrite Hrest; reflexivity).
Qed.

Lemma new_client_run (k : kind) (h : host) (uri : option string) (s : state) :
  new_client k h uri s
  = if installed k h then
      match uri_or_default h uri s with
      | (inl e, s1) => (inl e, s1)
      | (inr u, s1) =>
          match _client_kwargs_for_uri h u s1 with
          | (inl e, s2) => (inl e, s2)
          | (inr kw, s2) => driver_client u kw (logger (connecting k u) s2)
          end
      end
    else (inl ImportError, s).
Proof.
  destruct k; cbn [new_client installed connecting];
    unfold _new_sync_client, _new_async_client, bind, modify, raise;
    destruct (pymongo_installed h), (motor_installed h); try reflexivity;
    destruct (uri_or_default h uri s) as [[e|u] s1]; try reflexivity;
    destruct (_client_kwargs_for_uri h u s1) as [[e|kw] s2]; reflexivity.
Qed.

Lemma uri_or_default_run (h : host) (uri : option string) (s : state) :
  uri_or_default h uri s
  = match uri with
    | Some (String a r) => (inr (String a r), s)
    | _ => get_mongo_uri h s
    end.
Proof. destruct uri as [[|a r]|]; reflexivity. Qed.

Lemma uri_or_default_state (h : host) (uri : option string) (s : state) :
  same_clients s (uri_or_default h uri s).2
  /\ next_id (uri_or_default h uri s).2 = next_id s
  /\ forall k v, environ s !! k = Some v ->
       environ (uri_or_default h uri s).2 !! k = Some v.
Proof.
  rewrite uri_or_default_run.
  destruct uri as [[|a r]|];
    try (destruct (get_mongo_uri_state h s) as (? & ? & ? & ?); by auto).
Qed.

Lemma driver_client_run (u : string) (kw : kwargs) (s : state) :
  driver_client u kw s
  = if startswith u "mongodb://" || startswith u "mongodb+srv://"
    then (inr {| c_id := next_id s; c_uri := u; c_kwargs := kw |},
          {| _async_client := _async_client s; _sync_client := _sync_client s;
             environ := environ s; next_id := S (next_id s);
             closed := closed s; log := log s |})
    else (inl InvalidURI, s).
Proof. unfold driver_client. destruct (_ || _); reflexivity. Qed.

(** What one call of [_new_sync_client] or [_new_async_client] does to the
    module state. *)
Lemma new_client_state (k : kind) (h : host) (uri : option string)
    (s : state) :
  same_clients s (new_client k h uri s).2
  /\ (forall x v, environ s !! x = Some v ->
        environ (new_client k h uri s).2 !! x = Some v)
  /\ match (new_client k h uri s).1 with
     | inr c =>
         c_id c = next_id s /\ next_id (new_client k h uri s).2 = S (next_id s)
     | inl _ => next_id (new_client k h uri s).2 = next_id s
     end.
Proof.
  rewrite new_client_run. destruct (installed k h).
  2:{ unfold same_clients. cbn. auto. }
  destruct (uri_or_default_state h uri s) as ((A1 & A2 & A3) & N1 & E1).
  destruct (uri_or_default h uri s) as [[e|u] s1]; cbn [fst snd] in *.
  { unfold same_clients. auto. }
  destruct (kwargs_state h u s1) as ((B1 & B2 & B3) & N2 & E2).
  destruct (_client_kwargs_for_uri h u s1) as [[e|kw] s2]; cbn [fst snd] in *.
  { unfold same_clients. rewrite B1, B2, B3, N2, E2. auto. }
  rewrite driver_client_run. unfold same_clients.
  destruct (_ || _); cbn; rewrite ?B1, ?B2, ?B3, ?N2, ?E2; auto.
Qed.

Lemma get_client_run (k : kind) (h : host) (uri : option string) (s : state) :
  get_client k h uri s
  = match cached k s with
    | Some c => (inr c, s)
    | None =>
        match new_client k h uri s with
        | (inl e, s') => (inl e, s')
        | (inr c, s') => (inr c, set_cached k (Some c) s')
        end
    end.
Proof.
  destruct k; cbn [get_client cached new_client set_cached];
    unfold get_sync_client, get_async_client, bind, gets, modify, ret.
  - destruct (_sync_client s); [reflexivity|].
    destruct (_new_sync_client h uri s) as [[e|c] s']; reflexivity.
  - destruct (_async_client s); [reflexivity|].
    destruct (_new_async_client h uri s) as [[e|c] s']; reflexivity.
Qed.

Lemma close_client_run (k : kind) (s : state) :
  close_client k s
  = match cached k s with
    | Some c =>
        (inr tt,
         logger (match k with
                 | Sync => "Sync MongoDB client closed."
                 | Async => "Async MongoDB client closed."
                 end) (set_cached k None (client_close c s)))
    | None => (inr tt, s)
    end.
Proof.
  destruct k; cbn [close_client cached set_cached];
    unfold close_sync_client, close_async_client, bind, gets, modify, ret.
  - destruct (_sync_client s); reflexivity.
  - destruct (_async_client s); reflexivity.
Qed.

Lemma cached_set_cached (k : kind) (v : option client) (s : state) :
  cached k (set_cached k v s) = v.
Proof. destruct k; reflexivity. Qed.

Lemma cached_set_other (k : kind) (v : option client) (s : state) :
  cached (other k) (set_cached k v s) = cached (other k) s.
Proof. destruct k; reflexivity. Qed.

Lemma same_clients_cached (k : kind) (s s' : state) :
  same_clients s s' -> cached k s' = cached k s.
Proof. intros (A & B & C). destruct k; assumption. Qed.

(** X5.  A timeout variable with no digit in it makes every creation of a client
    raise [ValueError] (after the driver's import succeeded), and nothing
    is cached. *)
Theorem bad_timeout_blocks_clients (k : kind) (h : host)
    (uri : option string) (s : state) (t : string) :
  environ s !! "MONGO_SERVER_SELECTION_TIMEOUT_MS" = Some t ->
  has_digit t = false ->
  cached k s = None ->
  (get_client k h uri s).1
  = inl (if installed k h then ValueError else ImportError)
  /\ cached k (get_client k h uri s).2 = None.
Proof.
  intros Ht Hd Hc. rewrite get_client_run, Hc, new_client_run.
  destruct (installed k h); [|cbn [fst snd]; auto].
  destruct (uri_or_default_state h uri s) as (A & _ & E).
  destruct (uri_or_default h uri s) as [[e|u] s1] eqn:Eu; cbn [fst snd] in *.
  { exfalso. rewrite uri_or_default_run in Eu.
    destruct uri as [[|a r]|]; try discriminate;
      rewrite get_mongo_uri_run in Eu;
      destruct (dotenv_file h); discriminate. }
  rewrite kwargs_run, (E _ _ Ht). cbn [from_option id].
  rewrite (int_of_str_no_digit t Hd). cbn.
  split; [reflexivity|]. by rewrite (same_clients_cached k _ _ A).
Qed.

Lemma bad_timeout_blocks_clients_witness :
  (get_client Async atlas_host None
     (started_with [("MONGO_SERVER_SELECTION_TIMEOUT_MS", "fast")])).1
  = inl (if installed Async atlas_host then ValueError else ImportError)
  /\ cached Async
       (get_client Async atlas_host None
          (started_with [("MONGO_SERVER_SELECTION_TIMEOUT_MS", "fast")])).2
     = None.
Proof.
  apply (bad_timeout_blocks_clients Async atlas_host None
           (started_with [("MONGO_SERVER_SELECTION_TIMEOUT_MS", "fast")])
           "fast"); reflexivity.
Defined.

(** X6.  [_new_sync_client] and [_new_async_client] never cache and never close
    a client, whatever they return, and two calls in a row that succeed
    return two different clients. *)
Theorem new_client_never_cached (k : kind) (h : host)
    (uri uri' : option string) (s : state) :
  same_clients s (new_client k h uri s).2
  /\ forall c c',
       (new_client k h uri s).1 = inr c ->
       (new_client k h uri' (new_client k h uri s).2).1 = inr c' ->
       c_id c <> c_id c'.
Proof.
  destruct (new_client_state k h uri s) as (A & _ & N).
  split; [exact A|]. intros c c' Hc Hc'.
  destruct (new_client_state k h uri' (new_client k h uri s).2) as (_ & _ & N').
  rewrite Hc in N. rewrite Hc' in N'. lia.
Qed.

Lemma new_client_never_cached_witness :
  c_id {| c_id := 0; c_uri := "mongodb://db-1:27017";
          c_kwargs := {| serverSelectionTimeoutMS := 5000;
                         tlsCAFile := None |} |}
  <> c_id {| c_id := 1; c_uri := "mongodb://localhost:27017";
             c_kwargs := {| serverSelectionTimeoutMS := 5000;
                            tlsCAFile := None |} |}.
Proof.
  apply (new_client_never_cached Sync plain_host
           (Some "mongodb://db-1:27017") None fresh); reflexivity.
Defined.

(** X7.  Without the driver, the getter of an empty cache raises [ImportError]
    and changes nothing; a cached client is still returned, the import
    being made only when a client is created. *)
Theorem get_client_missing_driver (k : kind) (h : host)
    (uri : option string) (s : state) :
  installed k h = false ->
  get_client k h uri s
  = match cached k s with
    | Some c => (inr c, s)
    | None => (inl ImportError, s)
    end.
Proof.
  intros Hi. rewrite get_client_run, new_client_run, Hi. reflexivity.
Qed.

Lemma get_client_missing_driver_witness :
  get_client Async sync_only_host (Some "mongodb://db-1:27017") fresh
  = match cached Async fresh with
    | Some c => (inr c, fresh)
    | None => (inl ImportError, fresh)
    end.
Proof.
  apply (get_client_missing_driver Async sync_only_host
           (Some "mongodb://db-1:27017") fresh).
  reflexivity.
Defined.

(** X8.  Getting or closing the client of one kind leaves the cached client of
    the other kind as it is. *)
Theorem caches_independent (k : kind) (h : host) (uri : option string)
    (s : state) :
  cached (other k) (get_client k h uri s).2 = cached (other k) s
  /\ cached (other k) (close_client k s).2 = cached (other k) s.
Proof.
  split.
  - rewrite get_client_run. destruct (cached k s); [reflexivity|].
    destruct (new_client_state k h uri s) as (A & _).
    destruct (new_client k h uri s) as [[e|c] s']; cbn in *.
    + by apply same_clients_cached.
    + rewrite cached_set_other. by apply same_clients_cached.
  - rewrite close_client_run. destruct (cached k s) as [c|]; [|reflexivity].
    destruct k; reflexivity.
Qed.

(** X9.  The client the first successful call created is the one every later
    call returns, with any address, until it is closed. *)
Theorem get_client_singleton (k : kind) (h h' : host)
    (uri uri' : option string) (s s1 : state) (c : client) :
  get_client k h uri s = (inr c, s1) ->
  get_client k h' uri' s1 = (inr c, s1).
Proof.
  rewrite !get_client_run. destruct (cached k s) as [c0|] eqn:E.
  - intros [= <- <-]. by rewrite E.
  - destruct (new_client k h uri s) as [[e|c1] s']; [discriminate|].
    intros [= <- <-]. by rewrite cached_set_cached.
Qed.

Lemma get_client_singleton_witness :
  get_client Sync atlas_host (Some "mongodb://db-2:27017")
    (get_client Sync plain_host (Some "mongodb://db-1:27017") fresh).2
  = (inr {| c_id := 0; c_uri := "mongodb://db-1:27017";
            c_kwargs := {| serverSelectionTimeoutMS := 5000;
                           tlsCAFile := None |} |},
     (get_client Sync plain_host (Some "mongodb://db-1:27017") fresh).2).
Proof.
  apply (get_client_singleton Sync plain_host atlas_host
           (Some "mongodb://db-1:27017") (Some "mongodb://db-2:27017") fresh).
  reflexivity.
Defined.

(** X10.  A getter that raises has cached nothing and closed nothing: the next
    call starts over. *)
Theorem failed_get_caches_nothing (k : kind) (h : host)
    (uri : option string) (s s' : state) (e : exn) :
  get_client k h uri s = (inl e, s') ->
  cached k s = None /\ same_clients s s'.
Proof.
  rewrite get_client_run. destruct (cached k s) as [c|]; [discriminate|].
  destruct (new_client_state k h uri s) as (A & _).
  destruct (new_client k h uri s) as [[e1|c1] s1]; [|discriminate].
  intros [= <- <-]. auto.
Qed.

Lemma failed_get_caches_nothing_witness :
  cached Sync fresh = None
  /\ same_clients fresh
       (logger "Connecting (sync) to MongoDB at http://db-1" fresh).
Proof.
  apply (failed_get_caches_nothing Sync plain_host (Some "http://db-1") fresh
           _ InvalidURI).
  reflexivity.
Defined.

(** X11.  With nothing configured (no variable set, no [.env] file), the first
    call without an address creates and caches a client for the local
    server, with a 5000 ms server-selection timeout and no CA bundle. *)
Theorem get_client_defaults (k : kind) (h : host) (s : state) :
  installed k h = true ->
  dotenv_file h = None ->
  environ s = ∅ ->
  cached k s = None ->
  let c := {| c_id := next_id s; c_uri := "mongodb://localhost:27017";
              c_kwargs := {| serverSelectionTimeoutMS := 5000;
                             tlsCAFile := None |} |} in
  (get_client k h None s).1 = inr c
  /\ cached k (get_client k h None s).2 = Some c.
Proof.
  intros Hi Hd He Hc c.
  rewrite get_client_run, Hc, new_client_run, Hi, uri_or_default_run.
  rewrite get_mongo_uri_run, Hd, He, lookup_empty. cbn [from_option id].
  rewrite kwargs_run. unfold force_tls. rewrite He, !lookup_empty.
  destruct k; split; reflexivity.
Qed.

Lemma get_client_defaults_witness :
  (get_client Async plain_host None fresh).1
  = inr {| c_id := 0; c_uri := "mongodb://localhost:27017";
           c_kwargs := {| serverSelectionTimeoutMS := 5000;
                          tlsCAFile := None |} |}
  /\ cached Async (get_client Async plain_host None fresh).2
     = Some {| c_id := 0; c_uri := "mongodb://localhost:27017";
               c_kwargs := {| serverSelectionTimeoutMS := 5000;
                              tlsCAFile := None |} |}.
Proof.
  apply (get_client_defaults Async plain_host fresh); reflexivity.
Defined.

(** X12.  After the cached client is closed, the getter creates another client:
    the closed one is never handed out again. *)
Theorem reopen_after_close (k : kind) (h : host) (uri : option string)
    (s s' : state) (c c' : client) :
  cached k s = Some c ->
  c_id c < next_id s ->
  get_client k h uri (close_client k s).2 = (inr c', s') ->
  c_id c' <> c_id c /\ cached k s' = Some c' /\ c_id c ∈ closed s'.
Proof.
  intros Hc Hlt. rewrite close_client_run, Hc. cbn [snd].
  set (s0 := logger _ _).
  assert (H0 : cached k s0 = None) by (destruct k; reflexivity).
  assert (Hn : next_id s0 = next_id s) by (destruct k; reflexivity).
  assert (Hcl : closed s0 = c_id c :: closed s) by (destruct k; reflexivity).
  rewrite get_client_run, H0.
  destruct (new_client_state k h uri s0) as ((_ & _ & A) & _ & N).
  destruct (new_client k h uri s0) as [[e|c1] s1]; [discriminate|].
  cbn in *. intros [= <- <-]. destruct N as [N _].
  split; [lia|]. split; [apply cached_set_cached|].
  assert (Hs : closed (set_cached k (Some c1) s1) = closed s1)
    by (destruct k; reflexivity).
  rewrite Hs, A, Hcl. set_solver.
Qed.

Lemma reopen_after_close_witness :
  c_id {| c_id := 2; c_uri := "mongodb://db-2:27017";
          c_kwargs := {| serverSelectionTimeoutMS := 5000;
                         tlsCAFile := None |} |} <> 1
  /\ cached Sync
       (get_client Sync plain_host (Some "mongodb://db-2:27017")
          (close_client Sync warm).2).2
     = Some {| c_id := 2; c_uri := "mongodb://db-2:27017";
               c_kwargs := {| serverSelectionTimeoutMS := 5000;
                              tlsCAFile := None |} |}
  /\ 1 ∈ closed
           (get_client Sync plain_host (Some "mongodb://db-2:27017")
              (close_client Sync warm).2).2.
Proof.
  apply (reopen_after_close Sync plain_host (Some "mongodb://db-2:27017") warm
           _ {| c_id := 1; c_uri := "mongodb://db-s:27017";
                c_kwargs := {| serverSelectionTimeoutMS := 5000;
                               tlsCAFile := None |} |}).
  - reflexivity.
  - cbn. lia.
  - reflexivity.
Defined.

Lemma get_client_first_call_uses_uri_witness :
  c_uri {| c_id := 0; c_uri := "mongodb://db-1:27017";
           c_kwargs := {| serverSelectionTimeoutMS := 5000;
                          tlsCAFile := None |} |}
  = "mongodb://db-1:27017"
  /\ cached Async
       (get_client Async plain_host (Some "mongodb://db-1:27017") fresh).2
     = Some {| c_id := 0; c_uri := "mongodb://db-1:27017";
               c_kwargs := {| serverSelectionTimeoutMS := 5000;
                              tlsCAFile := None |} |}.
Proof.
  apply (MongoFacts.get_client_first_call_uses_uri Async plain_host fresh).
  - reflexivity.
  - discriminate.
  - reflexivity.
Defined.

Lemma close_client_closes_witness :
  closed (close_client Async warm).2 = 0 :: closed warm.
Proof.
  apply (MongoFacts.close_client_closes Async warm
           {| c_id := 0; c_uri := "mongodb://db-a:27017";
              c_kwargs := {| serverSelectionTimeoutMS := 5000;
                             tlsCAFile := None |} |}).
  reflexivity.
Defined.

End MongoConfig.

(** ** The session context managers *)

Module SessionFacts.
Import Mongo Clients Sessions.

(** X15.  With no client passed, the session runs on a client made for it, and
    that client is closed when the block is left, after the session was
    ended: whether the body returned or raised, its outcome is the
    outcome of the block. *)
Theorem session_closes_own_client {A} (k : kind) (d : driver) (h : host)
    (body : session -> SM A) (w w3 : world) (c : client) (s1 : state)
    (r : exn + A) :
  start_fails d = None ->
  end_fails d = None ->
  new_client k h None w.1 = (inr c, s1) ->
  body {| s_client := c |} (s1, (w.2 ++ [Started (c_id c)])%list) = (r, w3) ->
  session_scope k d h None body w
  = (r, (client_close c w3.1, (w3.2 ++ [Ended (c_id c)])%list)).
Proof.
  intros Hs He Hn Hb.
  unfold session_scope, lift, start_session, end_session.
  rewrite Hn, Hs. cbn [fst snd]. rewrite Hb, He. reflexivity.
Qed.

Lemma session_closes_own_client_witness :
  session_scope Sync reliable plain_host None failing_body (fresh, [])
  = (inl (UserError "rollback"),
     (client_close
        {| c_id := 0; c_uri := "mongodb://localhost:27017";
           c_kwargs := {| serverSelectionTimeoutMS := 5000;
                          tlsCAFile := None |} |}
        (new_client Sync plain_host None fresh).2,
      [Started 0; Ended 0])).
Proof.
  apply (session_closes_own_client Sync reliable plain_host failing_body
           (fresh, [])
           ((new_client Sync plain_host None fresh).2, [Started 0])
           {| c_id := 0; c_uri := "mongodb://localhost:27017";
              c_kwargs := {| serverSelectionTimeoutMS := 5000;
                             tlsCAFile := None |} |}
           (new_client Sync plain_host None fresh).2
           (inl (UserError "rollback")));
    reflexivity.
Defined.

(** X16.  A client that was passed in is used for the session and is not closed
    when the block is left: the context manager ends the session and does
    nothing else. *)
Theorem session_leaves_given_client_open {A} (k : kind) (d : driver)
    (h : host) (body : session -> SM A) (w w3 : world) (c : client)
    (r : exn + A) :
  start_fails d = None ->
  end_fails d = None ->
  body {| s_client := c |} (w.1, (w.2 ++ [Started (c_id c)])%list) = (r, w3) ->
  session_scope k d h (Some c) body w
  = (r, (w3.1, (w3.2 ++ [Ended (c_id c)])%list)).
Proof.
  intros Hs He Hb.
  unfold session_scope, start_session, end_session.
  rewrite Hs, Hb, He. reflexivity.
Qed.

Lemma session_leaves_given_client_open_witness :
  session_scope Async reliable plain_host
    (Some {| c_id := 0; c_uri := "mongodb://db-a:27017";
             c_kwargs := {| serverSelectionTimeoutMS := 5000;
                            tlsCAFile := None |} |})
    (body_using_cache plain_host) (warm, [])
  = (inr "mongodb://db-s:27017", (warm, [Started 0; Ended 0])).
Proof.
  apply (session_leaves_given_client_open Async reliable plain_host
           (body_using_cache plain_host) (warm, []) (warm, [Started 0])
           {| c_id := 0; c_uri := "mongodb://db-a:27017";
              c_kwargs := {| serverSelectionTimeoutMS := 5000;
                             tlsCAFile := None |} |}
           (inr "mongodb://db-s:27017"));
    reflexivity.
Defined.

(** X17.  When [start_session] raises on the client the context manager has
    just created, the error comes out, the body does not run, and the new
    client is left unclosed: the call is made before the [try] block. *)
Theorem session_start_failure_leaves_client (A : Type) (k : kind)
    (d : driver) (h : host) (body : session -> SM A) (w : world)
    (c : client) (s1 : state) (e : exn) :
  start_fails d = Some e ->
  new_client k h None w.1 = (inr c, s1) ->
  session_scope k d h None body w = (inl e, (s1, w.2))
  /\ closed s1 = closed w.1
  /\ c_id c = next_id w.1.
Proof.
  intros Hs Hn.
  unfold session_scope, lift, start_session. rewrite Hn, Hs.
  split; [reflexivity|].
  destruct (MongoConfig.new_client_state k h None w.1) as ((_ & _ & C) & _ & N).
  rewrite Hn in C, N. cbn in C, N. split; [exact C|apply N].
Qed.

Lemma session_start_failure_leaves_client_witness :
  session_scope Sync {| start_fails := Some (OSError "network");
                        end_fails := None |}
    plain_host None failing_body (fresh, [])
  = (inl (OSError "network"), ((new_client Sync plain_host None fresh).2, []))
  /\ closed (new_client Sync plain_host None fresh).2 = closed fresh
  /\ c_id {| c_id := 0; c_uri := "mongodb://localhost:27017";
             c_kwargs := {| serverSelectionTimeoutMS := 5000;
                            tlsCAFile := None |} |}
     = next_id fresh.
Proof.
  apply (session_start_failure_leaves_client unit Sync
           {| start_fails := Some (OSError "network"); end_fails := None |}
           plain_host failing_body (fresh, [])
           {| c_id := 0; c_uri := "mongodb://localhost:27017";
              c_kwargs := {| serverSelectionTimeoutMS := 5000;
                             tlsCAFile := None |} |}
           (new_client Sync plain_host None fresh).2);
    reflexivity.
Defined.

(** X18.  When [end_session] raises in the [finally] block, its error replaces
    the outcome of the body, and the client created for the session is not
    closed. *)
Theorem session_end_failure_skips_close {A} (k : kind) (d : driver)
    (h : host) (body : session -> SM A) (w w3 : world) (c : client)
    (s1 : state) (r : exn + A) (e : exn) :
  start_fails d = None ->
  end_fails d = Some e ->
  new_client k h None w.1 = (inr c, s1) ->
  body {| s_client := c |} (s1, (w.2 ++ [Started (c_id c)])%list) = (r, w3) ->
  session_scope k d h None body w = (inl e, w3).
Proof.
  intros Hs He Hn Hb.
  unfold session_scope, lift, start_session, end_session.
  rewrite Hn, Hs. cbn [fst snd]. rewrite Hb, He. reflexivity.
Qed.

Lemma session_end_failure_skips_close_witness :
  session_scope Sync {| start_fails := None;
                        end_fails := Some (OSError "network") |}
    plain_host None failing_body (fresh, [])
  = (inl (OSError "network"),
     ((new_client Sync plain_host None fresh).2, [Started 0])).
Proof.
  apply (session_end_failure_skips_close Sync
           {| start_fails := None; end_fails := Some (OSError "network") |}
           plain_host failing_body (fresh, [])
           ((new_client Sync plain_host None fresh).2, [Started 0])
           {| c_id := 0; c_uri := "mongodb://localhost:27017";
              c_kwargs := {| serverSelectionTimeoutMS := 5000;
                             tlsCAFile := None |} |}
           (new_client Sync plain_host None fresh).2
           (inl (UserError "rollback")));
    reflexivity.
Defined.

Lemma cached_client_close (k : kind) (c : client) (s : state) :
  cached k (client_close c s) = cached k s.
Proof. destruct k; reflexivity. Qed.

(** X19.  The context managers never change a cached client: if the body leaves
    the cache of a kind alone, so does the whole block, with or without a
    client passed in, whatever fails. *)
Theorem session_never_touches_cache {A} (k k' : kind) (d : driver)
    (h : host) (client : option Mongo.client) (body : session -> SM A)
    (w : world) :
  (forall x w', cached k' (body x w').2.1 = cached k' w'.1) ->
  cached k' (session_scope k d h client body w).2.1 = cached k' w.1.
Proof.
  intros Hbody.
  assert (Hrun : forall c w1,
            cached k' w1.1 = cached k' w.1 ->
            forall r w3,
              body {| s_client := c |}
                (w1.1, (w1.2 ++ [Started (c_id c)])%list) = (r, w3) ->
              cached k' w3.1 = cached k' w.1).
  { intros c w1 H1 r w3 Hb.
    pose proof (Hbody {| s_client := c |}
                  (w1.1, (w1.2 ++ [Started (c_id c)])%list)) as H.
    rewrite Hb in H. cbn [fst snd] in H. congruence. }
  unfold session_scope, lift, start_session, end_session.
  destruct client as [c|].
  - destruct (start_fails d); [reflexivity|].
    destruct (body _ _) as [r w3] eqn:Hb.
    apply (Hrun c w eq_refl) in Hb.
    destruct (end_fails d); exact Hb.
  - destruct (MongoConfig.new_client_state k h None w.1) as (S & _).
    apply (MongoConfig.same_clients_cached k') in S.
    destruct (new_client k h None w.1) as [[e|c] s1]; cbn [fst snd] in *;
      [exact S|].
    destruct (start_fails d); [exact S|].
    destruct (body _ _) as [r w3] eqn:Hb.
    apply (Hrun c (s1, w.2) S) in Hb.
    destruct (end_fails d); cbn [fst snd]; [exact Hb|].
    by rewrite cached_client_close.
Qed.

Lemma session_never_touches_cache_witness :
  cached Sync
    (session_scope Sync reliable plain_host None failing_body (warm, [])).2.1
  = cached Sync (warm, @nil event).1.
Proof.
  apply (session_never_touches_cache Sync Sync reliable plain_host None
           failing_body (warm, [])).
  intros x w'. reflexivity.
Defined.

(** X20.  The block closes the client it created and no other: when the body
    closes nothing, the only client closed is the new one, whose identity
    no earlier client has. *)
Theorem session_closes_only_its_client {A} (k : kind) (d : driver)
    (h : host) (body : session -> SM A) (w : world) (c : client)
    (s1 : state) :
  start_fails d = None ->
  end_fails d = None ->
  new_client k h None w.1 = (inr c, s1) ->
  (forall x w', closed (body x w').2.1 = closed w'.1) ->
  closed (session_scope k d h None body w).2.1 = next_id w.1 :: closed w.1.
Proof.
  intros Hs He Hn Hbody.
  unfold session_scope, lift, start_session, end_session.
  rewrite Hn, Hs. cbn [fst snd].
  pose proof (Hbody {| s_client := c |}
                (s1, (w.2 ++ [Started (c_id c)])%list)) as Hb.
  destruct (body _ _) as [r w3]. rewrite He. cbn [fst snd] in *.
  destruct (MongoConfig.new_client_state k h None w.1) as ((_ & _ & C) & _ & N).
  rewrite Hn in C, N. cbn in C, N. destruct N as [N _].
  cbn [client_close closed]. congruence.
Qed.

Lemma session_closes_only_its_client_witness :
  closed
    (session_scope Async reliable plain_host None (body_using_cache plain_host)
       (warm, [])).2.1
  = next_id (warm, @nil event).1 :: closed (warm, @nil event).1.
Proof.
  apply (session_closes_only_its_client Async reliable plain_host
           (body_using_cache plain_host) (warm, [])
           {| c_id := 2; c_uri := "mongodb://localhost:27017";
              c_kwargs := {| serverSelectionTimeoutMS := 5000;
                             tlsCAFile := None |} |}
           (new_client Async plain_host None warm).2).
  - reflexivity.
  - reflexivity.
  - reflexivity.
  - intros x w'. unfold body_using_cache.
    change (get_sync_client plain_host None w'.1)
      with (get_client Sync plain_host None w'.1).
    pose proof (MongoConfig.get_client_run Sync plain_host None w'.1) as R.
    destruct (cached Sync w'.1) as [g|].
    + rewrite R. reflexivity.
    + destruct (MongoConfig.new_client_state Sync plain_host None w'.1)
        as ((_ & _ & C) & _).
      rewrite R. destruct (new_client Sync plain_host None w'.1) as [[e|c] s'];
        cbn in *; exact C.
Defined.

End SessionFacts.

(** ** What [write_json] and [read_json] touch, and what they leave *)

Module FileFacts.
Import Py Json OS FileIO WriteSteps WriteFacts Sorting.
#[local] Arguments String.append !_ _ / : simpl nomatch.



(** Resolving a path looks at the path's own prefixes only. *)
Lemma stat_prefix_ext (fsys fs' : fs) (p : path) :
  (forall q, q `prefix_of` p -> fs' !! q = fsys !! q) ->
  stat fs' p = stat fsys p.
Proof.
  induction p as [|c p IH] using rev_ind; intros H; [reflexivity|].
  rewrite !stat_snoc, IH.
  - unfold path in *. by rewrite (H (p ++ [c])%list).
  - intros q Hq. apply H. by apply prefix_app_r.
Qed.

(** A sibling of the target with another name is no prefix of it. *)
Lemma sibling_not_prefix (p : path) (x : string) :
  x <> name p -> ~ (parent p ++ [x])%list `prefix_of` p.
Proof.
  intros Hx [k Hk]. destruct p as [|c p _] using rev_ind.
  - by destruct (parent []).
  - rewrite ParentFacts.parent_snoc, ParentFacts.name_snoc in *.
    rewrite <- app_assoc in Hk. apply app_inv_head in Hk.
    injection Hk as Hk _. congruence.
Qed.

Lemma read_json_by_stat (fsys fs' : fs) (p : path) (enc : codec) (room : nat) :
  stat fs' p = stat fsys p ->
  read_json fs' p enc room = read_json fsys p enc room.
Proof.
  intros H. unfold read_json, path_exists, read_bytes. by rewrite H.
Qed.

Lemma is_dir_stat (fsys : fs) (d : path) :
  is_dir fsys d = true -> stat fsys d = inr Dir.
Proof. unfold is_dir. by destruct (stat fsys d) as [|[|]]. Qed.

Lemma stat_file_parent (fsys : fs) (p : path) (n : node) :
  p <> [] -> stat fsys p = inr n -> stat fsys (parent p) = inr Dir.
Proof.
  destruct p as [|c p _] using rev_ind; [done|]. intros _.
  rewrite ParentFacts.parent_snoc, stat_snoc.
  by destruct (stat fsys p) as [|[|]].
Qed.

(** X21.  [read_json] on a directory raises [IsADirectoryError]; on a path that
    does not resolve, also because one of its components is a regular
    file, it raises [FileNotFoundError]. *)
Theorem read_json_not_a_regular_file (fsys : fs) (p : path) (enc : codec)
    (room : nat) :
  (stat fsys p = inr Dir -> read_json fsys p enc room = inl IsADirectoryError)
  /\ (forall e, stat fsys p = inl e ->
        read_json fsys p enc room = inl FileNotFoundError).
Proof.
  unfold read_json, path_exists, read_bytes.
  split; [intros ->|intros e ->]; reflexivity.
Qed.

Lemma read_json_not_a_regular_file_witness :
  read_json {[ ["data"] := Dir ]} ["data"] utf_8 64 = inl IsADirectoryError
  /\ read_json {[ ["data"] := File "{}" ]} ["data"; "cfg.json"] utf_8 64
     = inl FileNotFoundError.
Proof.
  split.
  - apply (read_json_not_a_regular_file {[ ["data"] := Dir ]} ["data"] utf_8
             64).
    reflexivity.
  - apply (read_json_not_a_regular_file {[ ["data"] := File "{}" ]}
             ["data"; "cfg.json"] utf_8 64) with (e := NotADirectoryError).
    reflexivity.
Defined.

Lemma insert_sorted_perm (x : atom) (l : list atom) :
  forall l', insert_sorted x l = inr l' -> l' ≡ₚ x :: l.
Proof.
  induction l as [|y r IH]; intros l'; cbn [insert_sorted].
  - by intros [= <-].
  - destruct (atom_lt x y) as [|[|]]; [discriminate|by intros [= <-]|].
    destruct (insert_sorted x r) as [|r']; [discriminate|].
    intros [= <-]. rewrite (IH r' eq_refl). apply perm_swap.
Qed.

Lemma sort_fold_fails (xs : list atom) (e : exn) :
  fold_left sort_step xs (inl e) = inl e.
Proof. induction xs; [reflexivity|]. exact IHxs. Qed.

Lemma sort_fold_perm (xs : list atom) :
  forall acc l,
    fold_left sort_step xs (inr acc) = inr l -> l ≡ₚ (acc ++ xs)%list.
Proof.
  induction xs as [|x xs IH]; intros acc l; cbn [fold_left].
  - intros [= <-]. by rewrite app_nil_r.
  - cbn [sort_step]. destruct (insert_sorted x acc) as [e|acc'] eqn:E.
    + by rewrite sort_fold_fails.
    + intros H. rewrite (IH _ _ H), (insert_sorted_perm _ _ _ E).
      apply Permutation_middle.
Qed.

Lemma insert_sorted_int (z : Z) (l : list Z) :
  StronglySorted Z.le l ->
  exists l',
    insert_sorted (AInt z) (map AInt l) = inr (map AInt l')
    /\ l' ≡ₚ z :: l /\ StronglySorted Z.le l'.
Proof.
  induction 1 as [|y r Hr IH Hy]; cbn [map insert_sorted].
  - exists [z]. repeat split; [done|]. repeat constructor.
  - cbn [atom_lt]. destruct (z <? y)%Z eqn:E.
    + apply Z.ltb_lt in E. exists (z :: y :: r). repeat split; [done|].
      constructor; [by constructor|].
      constructor; [lia|]. eapply Forall_impl; [exact Hy|]. intros; lia.
    + apply Z.ltb_ge in E. destruct IH as (r' & -> & Hp & Hs).
      exists (y :: r'). repeat split.
      * rewrite Hp. apply perm_swap.
      * constructor; [exact Hs|]. rewrite Hp. by constructor.
Qed.

Lemma sort_fold_int (zs : list Z) :
  forall acc,
    StronglySorted Z.le acc ->
    exists l,
      fold_left sort_step (map AInt zs) (inr (map AInt acc))
      = inr (map AInt l)
      /\ l ≡ₚ (acc ++ zs)%list /\ StronglySorted Z.le l.
Proof.
  induction zs as [|z zs IH]; intros acc Hacc; cbn [map fold_left].
  - exists acc. by rewrite app_nil_r.
  - cbn [sort_step].
    destruct (insert_sorted_int z acc Hacc) as (acc' & -> & Hp & Hs).
    destruct (IH acc' Hs) as (l & -> & Hl & Hsl).
    exists l. repeat split; [|done].
    rewrite Hl, Hp. apply Permutation_middle.
Qed.

(** X22.  A set is serialized as a list of exactly its elements, and a set of
    ints as the list of its elements in increasing order. *)
Theorem json_default_set_elements :
  (forall xs : list atom,
     exists l, _json_default (PSet xs) = inr (PList (map of_atom l))
               /\ l ≡ₚ xs)
  /\ (forall zs : list Z,
        exists l, _json_default (PSet (map AInt zs)) = inr (PList (map PInt l))
                  /\ l ≡ₚ zs /\ StronglySorted Z.le l).
Proof.
  split.
  - intros xs. cbn [_json_default].
    destruct (sorted xs) as [e|l] eqn:E; [by exists xs|].
    exists l. split; [done|]. exact (sort_fold_perm xs [] l E).
  - intros zs. cbn [_json_default].
    destruct (sort_fold_int zs [] (SSorted_nil _)) as (l & Hl & Hp & Hs).
    change (sorted (map AInt zs))
      with (fold_left sort_step (map AInt zs) (inr (map AInt []))).
    rewrite Hl. exists l. split; [|done].
    by rewrite map_map.
Qed.




(** X24.  When the parent directory is there, asking for the parents to be
    created changes nothing: the call does what it does without it. *)
Theorem create_parents_irrelevant_when_parent_exists (fsys : fs) (p : path)
    (data : pyval) (enc : codec) (indent : option Z) (ea atomic : bool)
    (default : option (pyval -> exn + pyval)) (e : env) :
  is_dir fsys (parent p) = true ->
  f_mkdir e = None ->
  write_json fsys p data enc indent ea true atomic default e
  = write_json fsys p data enc indent ea false atomic default e.
Proof.
  intros Hd Hm. unfold write_json. rewrite Hm. cbn [raise_if].
  by rewrite (ParentFacts.path_mkdir_existing _ _ _ _ (is_dir_stat _ _ Hd)).
Qed.

Lemma create_parents_irrelevant_when_parent_exists_witness :
  write_json {[ ["data"] := Dir ]} ["data"; "cfg.json"] (PList [PInt 1]) utf_8
    (Some 2%Z) true true true None fsync_fails
  = write_json {[ ["data"] := Dir ]} ["data"; "cfg.json"] (PList [PInt 1])
      utf_8 (Some 2%Z) true false true None fsync_fails.
Proof.
  apply (create_parents_irrelevant_when_parent_exists {[ ["data"] := Dir ]}
           ["data"; "cfg.json"] (PList [PInt 1]) utf_8 (Some 2%Z) true true
           None fsync_fails); reflexivity.
Defined.



(** X26.  An atomic write that raises, at whatever step, leaves a target that
    was a regular file with the content it had: a reader gets what it got
    before the call. *)
Theorem failed_atomic_write_keeps_file (fsys : fs) (p : path) (data : pyval)
    (enc : codec) (indent : option Z) (ea cp : bool)
    (default : option (pyval -> exn + pyval)) (e : env) (err : exn)
    (fs' : fs) (old : string) :
  stat fsys p = inr (File old) ->
  write_json fsys p data enc indent ea cp true default e = (inl err, fs') ->
  stat fs' p = inr (File old)
  /\ forall enc' room,
       read_json fs' p enc' room = read_json fsys p enc' room.
Proof.
  intros Hold Hw.
  assert (Hs : stat fs' p = stat fsys p).
  2:{ split; [by rewrite Hs|]. intros enc' room.
      by apply read_json_by_stat. }
  assert (Hp : p <> []) by (by intros ->).
  pose proof (stat_file_parent _ _ _ Hp Hold) as Hpar.
  revert Hw. unfold write_json.
  assert (E1 : forall r, (if cp
              then raise_if (f_mkdir e)
                     (path_mkdir (length p) true true fsys (parent p))
              else inr fsys) = inr r -> r = fsys).
  { intros r. destruct cp; [|by intros [= <-]].
    unfold raise_if. destruct (f_mkdir e); [discriminate|].
    rewrite (ParentFacts.path_mkdir_existing _ _ _ _ Hpar). by intros [= <-]. }
  destruct (if cp then _ else _) as [err1|fs1]; [by intros [= _ <-]|].
  rewrite (E1 fs1 eq_refl). clear E1. cbn [negb].
  destruct (raise_if (f_open e) (mkstemp _ _ _ _ _)) as [err2|[tmp fs2]] eqn:E2;
    [by intros [= _ <-]|].
  unfold raise_if in E2. destruct (f_open e); [discriminate|].
  destruct (mkstemp_fresh _ _ _ _ _ _ _ E2) as (Hfree & -> & n & Hn & Etmp).
  assert (Hnp : ~ tmp `prefix_of` p).
  { rewrite Etmp. apply sibling_not_prefix, ParentFacts.temp_name_differs. }
  assert (Hkeep : forall (m : fs),
            (forall q, q <> tmp -> m !! q = fsys !! q) ->
            stat m p = stat fsys p).
  { intros m Hm. apply stat_prefix_ext. intros q Hq. apply Hm.
    by intros ->. }
  destruct (dump_and_newline _ _ _ _ _ _) as [b res].
  assert (H3 : stat (<[tmp := File b]> (<[tmp := File EmptyString]> fsys)) p
               = stat fsys p).
  { apply Hkeep. intros q Hq. unfold path in *.
    by rewrite !lookup_insert_ne. }
  assert (H4 : stat (delete tmp (<[tmp := File b]>
                                   (<[tmp := File EmptyString]> fsys))) p
               = stat fsys p).
  { apply Hkeep. intros q Hq. unfold path in *.
    by rewrite lookup_delete_ne, !lookup_insert_ne. }
  destruct res;
    [destruct (f_unlink e), (f_close e); by intros [= _ <-]|].
  destruct (f_flush e);
    [destruct (f_unlink e), (f_close e); by intros [= _ <-]|].
  destruct (f_fsync e);
    [destruct (f_unlink e), (f_close e); by intros [= _ <-]|].
  destruct (f_close e); [by intros [= _ <-]|].
  destruct (raise_if (f_replace e) (os_replace _ _ _)); [by intros [= _ <-]|discriminate].
Qed.

Lemma failed_atomic_write_keeps_file_witness :
  stat (write_json {[ ["cfg.json"] := File "[1, 2]" ]} ["cfg.json"]
          (PStr "new") utf_8 None true true true None dying_disk).2
    ["cfg.json"]
  = inr (File "[1, 2]")
  /\ forall enc' room,
       read_json (write_json {[ ["cfg.json"] := File "[1, 2]" ]} ["cfg.json"]
                    (PStr "new") utf_8 None true true true None dying_disk).2
         ["cfg.json"] enc' room
       = read_json {[ ["cfg.json"] := File "[1, 2]" ]} ["cfg.json"] enc' room.
Proof.
  apply (failed_atomic_write_keeps_file {[ ["cfg.json"] := File "[1, 2]" ]}
           ["cfg.json"] (PStr "new") utf_8 None true true None dying_disk
           (OSError "EIO")).
  - reflexivity.
  - vm_compute. reflexivity.
Defined.

(** X27.  A direct write that fails while serializing has already
    truncated the target: the file holds the chunks that were written
    before the failure, each of them whole, and not its old content. *)
Theorem direct_failure_leaves_partial_file (fsys : fs) (p : path)
    (data : pyval) (enc : codec) (indent : option Z) (ea : bool)
    (default : option (pyval -> exn + pyval)) (e : env) (err : exn)
    (old b : string) :
  stat fsys p = inr (File old) ->
  f_open e = None ->
  f_close e = None ->
  dump_and_newline e enc indent ea default data = (b, Some err) ->
  write_json fsys p data enc indent ea false false default e
  = (inl err, <[p := File b]> fsys)
  /\ (f_write e = None ->
      exists written rest,
        (json_dump_chunks (default_or default) ea indent (stack_room e)
           data).1 = (written ++ rest)%list
        /\ encode_text enc (join written) = (b, None)).
Proof.
  intros Hold Ho Hc Hd. split.
  - assert (Hp : p <> []) by (by intros ->).
    unfold write_json. cbn [negb]. rewrite Ho. cbn [raise_if].
    unfold open_w, dir_ok. rewrite (stat_file_parent _ _ _ Hp Hold).
    rewrite (ParentFacts.stat_node _ _ _ Hold), Hd, Hc.
    unfold path in *. by rewrite insert_insert_eq.
  - intros Hw. revert Hd. unfold dump_and_newline. rewrite Hw.
    destruct (json_dump_chunks _ _ _ _ _) as [cs res]. cbn [fst].
    assert (Hpre : forall cs content b1 w,
              write_chunks enc content cs = (b1, w) ->
              exists written rest b',
                cs = (written ++ rest)%list
                /\ encode_text enc (join written) = (b', None)
                /\ b1 = (content ++ b')%string
                /\ (w = None -> rest = [])).
    { clear. induction cs as [|c r IH]; intros content b1 w;
        cbn [write_chunks].
      - intros [= <- <-]. exists [], [], EmptyString.
        by rewrite ChunkFacts.app_nil_s.
      - unfold fp_write. destruct (encode_text enc c) as [bc [ec|]] eqn:Ec.
        + intros [= <- <-]. exists [], (c :: r), EmptyString.
          by rewrite ChunkFacts.app_nil_s.
        + intros H. destruct (IH _ _ _ H) as (wr & rest & b' & -> & Hb' & -> & Hn).
          exists (c :: wr), rest, (bc ++ b')%string. repeat split; [| |done].
          * cbn [join fold_right]. rewrite ContentFacts.encode_text_app, Ec.
            fold (join wr). by rewrite Hb'.
          * by rewrite ChunkFacts.app_assoc_s. }
    assert (Hfinish : forall cs0 res0,
              match write_chunks enc EmptyString cs0, res0 with
              | (b0, Some e0), _ => (b0, Some e0)
              | (b0, None), Some e0 => (b0, Some e0)
              | (b0, None), None => fp_write enc b0 (str1 nl)
              end = (b, Some err) ->
              exists written rest,
                cs0 = (written ++ rest)%list
                /\ encode_text enc (join written) = (b, None)).
    { intros cs0 res0.
      destruct (write_chunks enc EmptyString cs0) as [b1 w] eqn:Ew.
      destruct (Hpre _ _ _ _ Ew) as (wr & rest & b' & Hcs & Hb' & -> & Hn).
      cbn [String.append].
      destruct w as [ew|]; [intros [= <- _]; by exists wr, rest|].
      destruct res0 as [er|]; [intros [= <- _]; by exists wr, rest|].
      unfold fp_write. destruct (encode_text enc (str1 nl)) as [bn [en|]];
        [|discriminate].
      intros [= <- _]. by exists wr, rest. }
    destruct cs as [|c cs], res as [er|].
    + intros [= <- _]. by exists [], [].
    + exact (Hfinish [] None).
    + exact (Hfinish (c :: cs) (Some er)).
    + exact (Hfinish (c :: cs) None).
Qed.

Lemma direct_failure_leaves_partial_file_witness :
  write_json {[ ["cfg.json"] := File "[1, 2]" ]} ["cfg.json"]
    (PList [PStr "ok"; PStr ("caf" ++ str1 (ascii_of_nat 233))])
    us_ascii None false false false None (no_faults [] 64)
  = (inl UnicodeEncodeError,
     <[ ["cfg.json"] := File (String "[" (String dquote
                                ("ok" ++ str1 dquote))) ]>
       {[ ["cfg.json"] := File "[1, 2]" ]}).
Proof.
  apply (direct_failure_leaves_partial_file
           {[ ["cfg.json"] := File "[1, 2]" ]} ["cfg.json"]
           (PList [PStr "ok"; PStr ("caf" ++ str1 (ascii_of_nat 233))])
           us_ascii None false None (no_faults [] 64) UnicodeEncodeError
           "[1, 2]").
  - reflexivity.
  - reflexivity.
  - reflexivity.
  - vm_compute. reflexivity.
Defined.

End FileFacts.

(** ** The caller's fallback encoder *)

Module EncoderFacts.
Import Py Json OS FileIO WriteSteps Values WriteFacts Outcome Chunks.
#[local] Arguments String.append !_ _ / : simpl nomatch.

Lemma encode_text_split (enc : codec) (t1 t2 b : string) :
  encode_text enc (t1 ++ t2) = (b, None) ->
  exists b1 b2,
    encode_text enc t1 = (b1, None) /\ encode_text enc t2 = (b2, None)
    /\ b = (b1 ++ b2)%string.
Proof.
  rewrite ContentFacts.encode_text_app.
  destruct (encode_text enc t1) as [b1 [e1|]]; [discriminate|].
  destruct (encode_text enc t2) as [b2 e2]. intros [= <- ->]. eauto.
Qed.

(** Chunks that can all be encoded are all written. *)
Lemma write_chunks_complete (enc : codec) (cs : list string) :
  forall (content bt : string),
    encode_text enc (join cs) = (bt, None) ->
    write_chunks enc content cs = ((content ++ bt)%string, None).
Proof.
  induction cs as [|c r IH]; intros content bt; cbn [join fold_right write_chunks].
  - intros [= <-]. by rewrite ChunkFacts.app_nil_s.
  - intros H. apply encode_text_split in H as (b1 & b2 & H1 & H2 & ->).
    unfold fp_write. rewrite H1, (IH _ _ H2).
    by rewrite ChunkFacts.app_assoc_s.
Qed.

Section Dump.
Variable e : env.
Variable enc : codec.
Variable indent : option Z.
Variable ea : bool.
Variable default : option (pyval -> exn + pyval).
Variable data : pyval.

Lemma dump_chunks_text (text : string) (res : option exn) :
  json_dump (default_or default) ea indent (stack_room e) data = (text, res) ->
  exists cs,
    json_dump_chunks (default_or default) ea indent (stack_room e) data
    = (cs, res)
    /\ join cs = text.
Proof.
  rewrite <- ChunkFacts.json_dump_chunks_text. unfold text_of.
  destruct (json_dump_chunks _ _ _ _ _) as [cs r]. cbn [fst snd].
  intros [= <- <-]. eauto.
Qed.

(** A serialization that succeeds, and whose text the encoding can write,
    reaches the file whole. *)
Lemma dump_and_newline_complete (text b : string) :
  json_dump (default_or default) ea indent (stack_room e) data
  = (text, None) ->
  encode_text enc (text ++ str1 nl) = (b, None) ->
  f_write e = None ->
  dump_and_newline e enc indent ea default data = (b, None).
Proof.
  intros Hd Hb Hw. destruct (dump_chunks_text _ _ Hd) as (cs & Hcs & <-).
  apply encode_text_split in Hb as (bt & bn & Ht & Hn & ->).
  unfold dump_and_newline. rewrite Hcs, Hw.
  rewrite (write_chunks_complete _ _ EmptyString bt Ht). cbn [String.append].
  unfold fp_write. rewrite Hn. by destruct cs.
Qed.

(** A serialization that raises, what it wrote before being encodable,
    ends the dump with its exception. *)
Lemma dump_and_newline_fails (text bt : string) (err : exn) :
  json_dump (default_or default) ea indent (stack_room e) data
  = (text, Some err) ->
  encode_text enc text = (bt, None) ->
  f_write e = None ->
  dump_and_newline e enc indent ea default data = (bt, Some err).
Proof.
  intros Hd Ht Hw. destruct (dump_chunks_text _ _ Hd) as (cs & Hcs & <-).
  unfold dump_and_newline. rewrite Hcs, Hw.
  rewrite (write_chunks_complete _ _ EmptyString bt Ht). cbn [String.append].
  destruct cs; [|reflexivity]. cbn in Ht. by injection Ht as <-.
Qed.

End Dump.

Lemma mkstemp_dir_ok (fsys : fs) dir pre suf names tmp fs2 :
  mkstemp fsys dir pre suf names = inr (tmp, fs2) ->
  dir_ok fsys dir = inr tt.
Proof.
  induction names as [|n rest IH]; cbn [mkstemp]; [discriminate|].
  unfold open_excl. rewrite ParentFacts.parent_snoc.
  destruct (dir_ok fsys dir) as [err|[]]; [|done].
  destruct err; try discriminate; exact IH.
Qed.

(** How a call ends once the file is open, given what the dump does. *)
Lemma write_json_after_open fsys p data enc indent ea cp atomic default e fs1 :
  ready atomic cp e fsys p fs1 ->
  f_close e = None ->
  (forall b err,
     dump_and_newline e enc indent ea default data = (b, Some err) ->
     (write_json fsys p data enc indent ea cp atomic default e).1 = inl err)
  /\ (forall b,
        dump_and_newline e enc indent ea default data = (b, None) ->
        f_flush e = None -> f_fsync e = None -> f_replace e = None ->
        is_dir fs1 p = false ->
        exists fs',
          write_json fsys p data enc indent ea cp atomic default e
          = (inr tt, fs')).
Proof.
  intros [Hpar Hopen] Hc. unfold make_parents in Hpar. unfold write_json.
  rewrite Hpar. destruct atomic; cbn [negb].
  - destruct Hopen as (tmp & fs2 & Htmp). unfold make_temp in Htmp.
    rewrite Htmp. split.
    + intros b err ->. rewrite Hc. by destruct (f_unlink e).
    + intros b -> -> -> Hr Hdir. rewrite Hc, Hr. cbn [raise_if].
      unfold raise_if in Htmp. destruct (f_open e); [discriminate|].
      pose proof (AtomicFacts.temp_is_not_target _ _ _ _ _ _ Htmp) as Hne.
      pose proof (mkstemp_dir_ok _ _ _ _ _ _ _ Htmp) as Hok.
      destruct (mkstemp_fresh _ _ _ _ _ _ _ Htmp)
        as (Hfree & -> & n & Hn & Etmp).
      unfold os_replace. unfold path in *. rewrite lookup_insert_eq.
      assert (Hdir' : dir_ok (<[tmp := File b]>
                                (<[tmp := File EmptyString]> fs1)) (parent p)
                      = inr tt).
      { rewrite <- Hok. unfold dir_ok.
        rewrite (FileFacts.stat_prefix_ext fs1); [done|].
        intros q Hq. unfold path in *.
        rewrite !lookup_insert_ne; [done| |]; intros <-;
          (rewrite Etmp in Hq; apply prefix_length in Hq;
           rewrite length_app in Hq; cbn in Hq; lia). }
      rewrite Hdir'.
      assert (Hnode : node_at (<[tmp := File b]>
                                 (<[tmp := File EmptyString]> fs1)) p
                      = node_at fs1 p).
      { unfold node_at. destruct p; [done|]. unfold path in *.
        by rewrite !lookup_insert_ne. }
      rewrite Hnode.
      assert (Hnd : node_at fs1 p <> Some Dir).
      { intros Hd. unfold is_dir in Hdir.
        destruct p as [|c p _] using rev_ind; [discriminate|].
        rewrite stat_snoc in Hdir. rewrite ParentFacts.parent_snoc in Hok.
        rewrite (dir_ok_stat _ _ _ Hok) in Hdir.
        rewrite ParentFacts.node_at_snoc in Hd. unfold path in *.
        by rewrite Hd in Hdir. }
      destruct (node_at fs1 p) as [[|]|]; try done; eauto.
  - destruct Hopen as (fs2 & ->). split.
    + intros b err ->. by rewrite Hc.
    + intros b -> _ _ _ _. rewrite Hc. eauto.
Qed.

(** C7.  With a fallback encoder [f] of the caller's, in atomic and in
    direct mode alike: a write that returns leaves at the target the text
    the serializer produces with [f] as its [default]; once the file is
    open and no I/O error occurs, the write returns whenever that
    serialization succeeds and can be encoded; it raises the serializer's
    exception whenever that serialization fails; in particular what [f]
    raises on a value without a JSON form is what the call raises; and the
    serializer calls [f], not the default chain, on every such value. *)
Theorem write_json_uses_callers_default fsys p data enc indent ea cp atomic
    (f : pyval -> exn + pyval) e :
  (forall fs',
     write_json fsys p data enc indent ea cp atomic (Some f) e
     = (inr tt, fs') ->
     exists text b,
       json_dump f ea indent (stack_room e) data = (text, None)
       /\ encode_text enc (text ++ str1 nl) = (b, None)
       /\ stat fs' p = inr (File b))
  /\ (forall fs1 text b,
        ready atomic cp e fsys p fs1 -> quiet e -> is_dir fs1 p = false ->
        json_dump f ea indent (stack_room e) data = (text, None) ->
        encode_text enc (text ++ str1 nl) = (b, None) ->
        exists fs',
          write_json fsys p data enc indent ea cp atomic (Some f) e
          = (inr tt, fs')
          /\ stat fs' p = inr (File b))
  /\ (forall fs1 text bt err,
        ready atomic cp e fsys p fs1 -> f_write e = None -> f_close e = None ->
        json_dump f ea indent (stack_room e) data = (text, Some err) ->
        encode_text enc text = (bt, None) ->
        (write_json fsys p data enc indent ea cp atomic (Some f) e).1
        = inl err)
  /\ (forall fs1 err,
        ready atomic cp e fsys p fs1 -> f_close e = None ->
        0 < stack_room e ->
        unsupported data = true -> f data = inl err ->
        (write_json fsys p data enc indent ea cp atomic (Some f) e).1
        = inl err)
  /\ (forall fuel o level,
        unsupported o = true ->
        iterencode f ea indent (S fuel) o level
        = match f o with
          | inl err => fail err
          | inr o' => iterencode f ea indent fuel o' level
          end).
Proof.
  split; [|split; [|split; [|split]]].
  - intros fs' H. exact (ContentFacts.write_json_success _ _ _ _ _ _ _ _ _ _ _ H).
  - intros fs1 text b Hready (Hw & Hfl & Hfs & Hc & Hr) Hdir Hd Hb.
    pose proof (dump_and_newline_complete e enc indent ea (Some f) data
                  text b Hd Hb Hw) as Hdump.
    destruct (write_json_after_open _ _ data enc indent ea _ _ (Some f) _ _
                Hready Hc) as [_ Hok].
    destruct (Hok b Hdump Hfl Hfs Hr Hdir) as [fs' Hfs'].
    exists fs'. split; [exact Hfs'|].
    destruct (ContentFacts.write_json_success _ _ _ _ _ _ _ _ _ _ _ Hfs')
      as (text' & b' & Hd' & Hb' & Hstat).
    cbn [default_or] in Hd'. rewrite Hd in Hd'. injection Hd' as <-.
    rewrite Hb in Hb'. by injection Hb' as <-.
  - intros fs1 text bt err Hready Hw Hc Hd Ht.
    pose proof (dump_and_newline_fails e enc indent ea (Some f) data
                  text bt err Hd Ht Hw) as Hdump.
    destruct (write_json_after_open _ _ data enc indent ea _ _ (Some f) _ _
                Hready Hc) as [Hfail _].
    exact (Hfail bt err Hdump).
  - intros fs1 err Hready Hc Hroom Hu Hf.
    destruct (write_json_after_open _ _ data enc indent ea _ _ (Some f) _ _
                Hready Hc) as [Hfail _].
    apply (Hfail EmptyString err).
    unfold dump_and_newline, json_dump_chunks. cbn [default_or].
    destruct (stack_room e) as [|room]; [lia|].
    destruct data; try discriminate; cbn [iterencode_chunks]; by rewrite Hf.
  - intros fuel o level Hu. destruct o; try discriminate; reflexivity.
Qed.

Lemma write_json_uses_callers_default_witness :
  (write_json {[ ["cfg.json"] := File "old" ]} ["cfg.json"] (PSet [AInt 1])
     utf_8 None true false true (Some refusing_default)
     (no_faults ["k3x9q2ab"] 64)).1
  = inl (UserError "no JSON form")
  /\ exists fs',
       write_json ∅ ["out.json"] (PList [PSet [AInt 3; AInt 1]]) utf_8 None
         false true true (Some custom_default) (no_faults ["k3x9q2ab"] 64)
       = (inr tt, fs')
       /\ stat fs' ["out.json"]
          = inr (File (String "[" (String dquote
                         ("custom" ++ String dquote (String "]" (str1 nl)))))).
Proof.
  split.
  - destruct (write_json_uses_callers_default
                {[ ["cfg.json"] := File "old" ]} ["cfg.json"] (PSet [AInt 1])
                utf_8 None true false true refusing_default
                (no_faults ["k3x9q2ab"] 64)) as (_ & _ & _ & H & _).
    apply (H {[ ["cfg.json"] := File "old" ]}).
    + split; [reflexivity|]. eexists _, _. vm_compute. reflexivity.
    + reflexivity.
    + simpl. lia.
    + reflexivity.
    + reflexivity.
  - destruct (write_json_uses_callers_default ∅ ["out.json"]
                (PList [PSet [AInt 3; AInt 1]]) utf_8 None false true true
                custom_default (no_faults ["k3x9q2ab"] 64)) as (_ & H & _).
    apply (H ∅ (String "[" (String dquote ("custom" ++ String dquote "]")))).
    + split; [reflexivity|]. eexists _, _. vm_compute. reflexivity.
    + repeat split.
    + reflexivity.
    + reflexivity.
    + reflexivity.
Defined.

End EncoderFacts.
